(** * fluid-simulation.js: a shallow embedding of the fluid background

    The WebGL fluid solver of [src/fluid-simulation.js] is embedded as
    pure functions over an explicit simulation state.

    Conventions of the embedding:
    - JavaScript numbers and GLSL floats are idealised as real numbers
      ([R]); rounding of half-float render targets is outside the model.
    - [Date.now()] is an integer number of milliseconds ([Z]).
    - A texture is the grid of its texels (rows of [vec4]); a full-screen
      pass re-tabulates the destination grid from a fragment function.
    - The GL command stream is kept as a log of draw calls, and object
      allocation as a counter of created textures.
    - [Math.random] reads an oracle carried by the state.
    - The drawing buffer has the size of the canvas.  The format probe of
      [getWebGLContext] is not embedded, its result is the record [Ext];
      the listeners of the mouse, of the keyboard and of the touches
      are. *)

From Stdlib Require Import Reals ZArith List Bool Lia Lra Permutation.
Import ListNotations.

Open Scope R_scope.

(** ** GLSL vectors *)

Record vec2 := mkVec2 { v2x : R; v2y : R }.
Record vec3 := mkVec3 { v3x : R; v3y : R; v3z : R }.
Record vec4 := mkVec4 { v4x : R; v4y : R; v4z : R; v4w : R }.

Definition xy (v : vec4) : vec2 := mkVec2 (v4x v) (v4y v).
Definition xyz (v : vec4) : vec3 := mkVec3 (v4x v) (v4y v) (v4z v).

Definition add2 (a b : vec2) : vec2 := mkVec2 (v2x a + v2x b) (v2y a + v2y b).
Definition sub2 (a b : vec2) : vec2 := mkVec2 (v2x a - v2x b) (v2y a - v2y b).
Definition scale2 (k : R) (a : vec2) : vec2 := mkVec2 (k * v2x a) (k * v2y a).
Definition mul2 (a b : vec2) : vec2 := mkVec2 (v2x a * v2x b) (v2y a * v2y b).
Definition dot2 (a b : vec2) : R := v2x a * v2x b + v2y a * v2y b.
Definition length2 (a : vec2) : R := sqrt (dot2 a a).

Definition add3 (a b : vec3) : vec3 :=
  mkVec3 (v3x a + v3x b) (v3y a + v3y b) (v3z a + v3z b).
Definition scale3 (k : R) (a : vec3) : vec3 :=
  mkVec3 (k * v3x a) (k * v3y a) (k * v3z a).
Definition length3 (a : vec3) : R :=
  sqrt (v3x a * v3x a + v3y a * v3y a + v3z a * v3z a).

Definition scale4 (k : R) (a : vec4) : vec4 :=
  mkVec4 (k * v4x a) (k * v4y a) (k * v4z a) (k * v4w a).
Definition div4 (a : vec4) (k : R) : vec4 :=
  mkVec4 (v4x a / k) (v4y a / k) (v4z a / k) (v4w a / k).

(** GLSL [mix(a, b, t)]. *)
Definition mix (a b : vec4) (t : R) : vec4 :=
  mkVec4 (v4x a * (1 - t) + v4x b * t) (v4y a * (1 - t) + v4y b * t)
         (v4z a * (1 - t) + v4z b * t) (v4w a * (1 - t) + v4w b * t).

(** GLSL [clamp(x, lo, hi)]. *)
Definition clamp (x lo hi : R) : R := Rmin (Rmax x lo) hi.

(** ** Textures and render targets *)

(** The internal formats the capability probe can select; they differ in
    the number of channels a texel stores. *)
Inductive InternalFormat := R16F | RG16F | RGBA16F | RGBA.

(** [gl.LINEAR] or [gl.NEAREST], the [param] of [createFBO]. *)
Inductive TexFilter := NEAREST | LINEAR.

(** What a texel of the given format keeps of a written colour: channels
    the format does not store read back as 0 (green, blue) and 1 (alpha). *)
Definition storeTexel (f : InternalFormat) (c : vec4) : vec4 :=
  match f with
  | R16F => mkVec4 (v4x c) 0 0 1
  | RG16F => mkVec4 (v4x c) (v4y c) 0 1
  | RGBA16F | RGBA => c
  end.

(** The object returned by [createFBO]: the two GL handles, the size
    fields, and the state of the texture object behind the handle (its
    format, its filter and its image, row [j] holding the texels
    [(0,j) .. (width-1,j)]). *)
Record FBO := mkFBO {
  texture : nat;
  fbo : nat;
  width : Z;
  height : Z;
  texelSizeX : R;
  texelSizeY : R;
  internalFormat : InternalFormat;
  param : TexFilter;
  image : list (list vec4)
}.

(** The object returned by [createDoubleFBO]; [read] and [write] are the
    closure variables [fbo1] and [fbo2]. *)
Record DoubleFBO := mkDoubleFBO {
  dwidth : Z;
  dheight : Z;
  dtexelSizeX : R;
  dtexelSizeY : R;
  read : FBO;
  write : FBO
}.

(** [swap()]: exchanges [fbo1] and [fbo2]. *)
Definition swap (d : DoubleFBO) : DoubleFBO :=
  mkDoubleFBO (dwidth d) (dheight d) (dtexelSizeX d) (dtexelSizeY d)
              (write d) (read d).

Definition zero4 : vec4 := mkVec4 0 0 0 0.

(** [context.clearColor(0.0, 0.0, 0.0, 1.0)], set once by
    [getWebGLContext] and never changed. *)
Definition clearColor : vec4 := mkVec4 0 0 0 1.

Definition clampZ (lo hi x : Z) : Z := Z.max lo (Z.min hi x).

(** Texel [(i, j)] of an image, by row then column. *)
Definition fetch (img : list (list vec4)) (i j : Z) : vec4 :=
  nth (Z.to_nat i) (nth (Z.to_nat j) img []) zero4.

(** Texel lookup under [CLAMP_TO_EDGE] on both axes. *)
Definition texel (t : FBO) (i j : Z) : vec4 :=
  fetch (image t) (clampZ 0 (width t - 1) i) (clampZ 0 (height t - 1) j).

(** A [w] by [h] image whose texel [(i, j)] is [f i j]. *)
Definition tabulate (w h : Z) (f : Z -> Z -> vec4) : list (list vec4) :=
  map (fun j => map (fun i => f (Z.of_nat i) (Z.of_nat j))
                    (seq 0 (Z.to_nat w)))
      (seq 0 (Z.to_nat h)).

(** GLSL [texture2D]: nearest picks the texel containing the coordinate;
    linear blends the four texels around it.  Out-of-range texels are
    clamped to the edge. *)
Definition texture2D (t : FBO) (uv : vec2) : vec4 :=
  let u := v2x uv * IZR (width t) in
  let v := v2y uv * IZR (height t) in
  match param t with
  | NEAREST => texel t (Zfloor u) (Zfloor v)
  | LINEAR =>
      let i0 := Zfloor (u - 0.5) in
      let j0 := Zfloor (v - 0.5) in
      let a := u - 0.5 - IZR i0 in
      let b := v - 0.5 - IZR j0 in
      mix (mix (texel t i0 j0) (texel t (i0 + 1) j0) a)
          (mix (texel t i0 (j0 + 1)) (texel t (i0 + 1) (j0 + 1)) a) b
  end.

(** ** Shaders *)

(** The varyings [baseVertexShader] hands to every fragment shader. *)
Record Varyings := mkVaryings {
  vUv : vec2; vL : vec2; vR : vec2; vT : vec2; vB : vec2
}.

(** [baseVertexShader], at the interpolated position [uv] (the value of
    [aPosition * 0.5 + 0.5] at the fragment). *)
Definition baseVertexShader (texelSize : vec2) (uv : vec2) : Varyings :=
  mkVaryings uv
    (sub2 uv (mkVec2 (v2x texelSize) 0))
    (add2 uv (mkVec2 (v2x texelSize) 0))
    (add2 uv (mkVec2 0 (v2y texelSize)))
    (sub2 uv (mkVec2 0 (v2y texelSize))).

Definition clearShader (uTexture : FBO) (value : R) (v : Varyings) : vec4 :=
  scale4 value (texture2D uTexture (vUv v)).

Definition colorShader (color : vec4) (_ : Varyings) : vec4 := color.

Definition displayShader (uTexture : FBO) (texelSize : vec2)
    (lightingStrength : R) (v : Varyings) : vec4 :=
  let color := xyz (texture2D uTexture (vUv v)) in
  let L := xyz (texture2D uTexture (vL v)) in
  let R := xyz (texture2D uTexture (vR v)) in
  let T := xyz (texture2D uTexture (vT v)) in
  let B := xyz (texture2D uTexture (vB v)) in
  let dx := length3 R - length3 L in
  let dy := length3 T - length3 B in
  let n := mkVec3 dx dy (length2 texelSize) in
  let normal := scale3 (/ length3 n) n in
  let diffuse := clamp (v3z normal + lightingStrength) 0.3 1.25 in
  let color := scale3 diffuse color in
  mkVec4 (v3x color) (v3y color) (v3z color) 1.

(** The Gaussian weight of [splatShader]: [exp(-dot(p, p) / radius)] for
    the aspect-corrected offset [p] from the splat centre. *)
Definition splatWeight (aspectRatio : R) (point : vec2) (radius : R)
    (uv : vec2) : R :=
  let p := sub2 uv point in
  let p := mkVec2 (v2x p * aspectRatio) (v2y p) in
  exp (- dot2 p p / radius).

Definition splatShader (uTarget : FBO) (aspectRatio : R) (color : vec3)
    (point : vec2) (radius : R) (v : Varyings) : vec4 :=
  let splat := scale3 (splatWeight aspectRatio point radius (vUv v)) color in
  let base := xyz (texture2D uTarget (vUv v)) in
  let s := add3 base splat in
  mkVec4 (v3x s) (v3y s) (v3z s) 1.

(** GLSL [floor] on a float. *)
Definition floorR (x : R) : R := IZR (Zfloor x).

(** [bilerp] of [advectionShader]. *)
Definition bilerp (sam : FBO) (uv tsize : vec2) : vec4 :=
  let st := mkVec2 (v2x uv / v2x tsize - 0.5) (v2y uv / v2y tsize - 0.5) in
  let iuv := mkVec2 (floorR (v2x st)) (floorR (v2y st)) in
  let fuv := sub2 st iuv in
  let a := texture2D sam (mul2 (add2 iuv (mkVec2 0.5 0.5)) tsize) in
  let b := texture2D sam (mul2 (add2 iuv (mkVec2 1.5 0.5)) tsize) in
  let c := texture2D sam (mul2 (add2 iuv (mkVec2 0.5 1.5)) tsize) in
  let d := texture2D sam (mul2 (add2 iuv (mkVec2 1.5 1.5)) tsize) in
  mix (mix a b (v2x fuv)) (mix c d (v2x fuv)) (v2y fuv).

(** [advectionShader]; [manual] is the [MANUAL_FILTERING] keyword. *)
Definition advectionShader (manual : bool) (uVelocity uSource : FBO)
    (texelSize dyeTexelSize : vec2) (dt dissipation : R) (v : Varyings)
    : vec4 :=
  let result :=
    if manual then
      let coord :=
        sub2 (vUv v)
          (mul2 (scale2 dt (xy (bilerp uVelocity (vUv v) texelSize)))
                texelSize) in
      bilerp uSource coord dyeTexelSize
    else
      let coord :=
        sub2 (vUv v)
          (mul2 (scale2 dt (xy (texture2D uVelocity (vUv v)))) texelSize) in
      texture2D uSource coord in
  let decay := 1 + dissipation * dt in
  div4 result decay.

Definition divergenceShader (uVelocity : FBO) (v : Varyings) : vec4 :=
  let L := v4x (texture2D uVelocity (vL v)) in
  let R := v4x (texture2D uVelocity (vR v)) in
  let T := v4y (texture2D uVelocity (vT v)) in
  let B := v4y (texture2D uVelocity (vB v)) in
  let C := xy (texture2D uVelocity (vUv v)) in
  let L := if Rlt_dec (v2x (vL v)) 0 then - v2x C else L in
  let R := if Rgt_dec (v2x (vR v)) 1 then - v2x C else R in
  let T := if Rgt_dec (v2y (vT v)) 1 then - v2y C else T in
  let B := if Rlt_dec (v2y (vB v)) 0 then - v2y C else B in
  let div := 0.5 * (R - L + T - B) in
  mkVec4 div 0 0 1.

Definition curlShader (uVelocity : FBO) (v : Varyings) : vec4 :=
  let L := v4y (texture2D uVelocity (vL v)) in
  let R := v4y (texture2D uVelocity (vR v)) in
  let T := v4x (texture2D uVelocity (vT v)) in
  let B := v4x (texture2D uVelocity (vB v)) in
  let vorticity := R - L - T + B in
  mkVec4 (0.5 * vorticity) 0 0 1.

Definition vorticityShader (uVelocity uCurl : FBO) (curl dt : R)
    (v : Varyings) : vec4 :=
  let L := v4x (texture2D uCurl (vL v)) in
  let R := v4x (texture2D uCurl (vR v)) in
  let T := v4x (texture2D uCurl (vT v)) in
  let B := v4x (texture2D uCurl (vB v)) in
  let C := v4x (texture2D uCurl (vUv v)) in
  let force := scale2 0.5 (mkVec2 (Rabs T - Rabs B) (Rabs R - Rabs L)) in
  let force := scale2 (/ (length2 force + 0.0001)) force in
  let force := scale2 (curl * C) force in
  let force := mkVec2 (v2x force) (v2y force * -1) in
  let vel := xy (texture2D uVelocity (vUv v)) in
  let r := add2 vel (scale2 dt force) in
  mkVec4 (v2x r) (v2y r) 0 1.

Definition pressureShader (uPressure uDivergence : FBO) (v : Varyings)
    : vec4 :=
  let L := v4x (texture2D uPressure (vL v)) in
  let R := v4x (texture2D uPressure (vR v)) in
  let T := v4x (texture2D uPressure (vT v)) in
  let B := v4x (texture2D uPressure (vB v)) in
  let divergence := v4x (texture2D uDivergence (vUv v)) in
  let pressure := (L + R + B + T - divergence) * 0.25 in
  mkVec4 pressure 0 0 1.

Definition gradientSubtractShader (uPressure uVelocity : FBO)
    (v : Varyings) : vec4 :=
  let L := v4x (texture2D uPressure (vL v)) in
  let R := v4x (texture2D uPressure (vR v)) in
  let T := v4x (texture2D uPressure (vT v)) in
  let B := v4x (texture2D uPressure (vB v)) in
  let velocity := xy (texture2D uVelocity (vUv v)) in
  let velocity := sub2 velocity (mkVec2 (R - L) (T - B)) in
  mkVec4 (v2x velocity) (v2y velocity) 0 1.

(** ** Simulation state *)

Module Rgb.
(** A colour object [{ r, g, b }]. *)
Record t := mk { r : R; g : R; b : R }.
Definition scale (k : R) (c : t) : t := mk (r c * k) (g c * k) (b c * k).
End Rgb.

Record Config := mkConfig {
  SIM_RESOLUTION : Z;
  DYE_RESOLUTION : Z;
  DENSITY_DISSIPATION : R;
  VELOCITY_DISSIPATION : R;
  PRESSURE : R;
  PRESSURE_ITERATIONS : Z;
  CURL : R;
  SPLAT_RADIUS : R;
  SPLAT_FORCE : R;
  SHADING : bool;
  COLORFUL : bool;
  COLOR_UPDATE_SPEED : R;
  BACK_COLOR : Rgb.t;
  TRANSPARENT : bool;
  PAUSED : bool
}.

(** The literal [CONFIG] object of the source. *)
Definition defaultConfig : Config :=
  mkConfig 128 1024 1.25 0.3 0.8 20 35 0.35 6000 true true 9
           (Rgb.mk 4 8 18) false false.

Definition setPaused (p : bool) (c : Config) : Config :=
  mkConfig (SIM_RESOLUTION c) (DYE_RESOLUTION c) (DENSITY_DISSIPATION c)
    (VELOCITY_DISSIPATION c) (PRESSURE c) (PRESSURE_ITERATIONS c) (CURL c)
    (SPLAT_RADIUS c) (SPLAT_FORCE c) (SHADING c) (COLORFUL c)
    (COLOR_UPDATE_SPEED c) (BACK_COLOR c) (TRANSPARENT c) p.

(** The result of [getWebGLContext]: the negotiated formats and whether
    linear filtering of float textures is available. *)
Record Ext := mkExt {
  formatRGBA : InternalFormat;
  formatRG : InternalFormat;
  formatR : InternalFormat;
  supportLinearFiltering : bool
}.

(** The start-up adjustments of [CONFIG] ([isMobile()], then the
    filtering capability). *)
Definition startupConfig (mobile : bool) (e : Ext) : Config :=
  let c := defaultConfig in
  let dyeRes :=
    if mobile || negb (supportLinearFiltering e) then 512%Z
    else DYE_RESOLUTION c in
  let shading :=
    if negb (supportLinearFiltering e) then false else SHADING c in
  mkConfig (SIM_RESOLUTION c) dyeRes (DENSITY_DISSIPATION c)
    (VELOCITY_DISSIPATION c) (PRESSURE c) (PRESSURE_ITERATIONS c) (CURL c)
    (SPLAT_RADIUS c) (SPLAT_FORCE c) shading (COLORFUL c)
    (COLOR_UPDATE_SPEED c) (BACK_COLOR c) (TRANSPARENT c) (PAUSED c).

(** [pointerPrototype].  The initial [color] array [[30, 0, 300]] is kept
    as the colour (30, 0, 300). *)
Record Pointer := mkPointer {
  pointerId : Z;
  texcoordX : R;
  texcoordY : R;
  prevTexcoordX : R;
  prevTexcoordY : R;
  deltaX : R;
  deltaY : R;
  down : bool;
  moved : bool;
  color : Rgb.t
}.

Definition pointerPrototype : Pointer :=
  mkPointer (-1) 0 0 0 0 0 0 false false (Rgb.mk 30 0 300).

Definition setColor (c : Rgb.t) (p : Pointer) : Pointer :=
  mkPointer (pointerId p) (texcoordX p) (texcoordY p) (prevTexcoordX p)
    (prevTexcoordY p) (deltaX p) (deltaY p) (down p) (moved p) c.

Definition setMoved (m : bool) (p : Pointer) : Pointer :=
  mkPointer (pointerId p) (texcoordX p) (texcoordY p) (prevTexcoordX p)
    (prevTexcoordY p) (deltaX p) (deltaY p) (down p) m (color p).

Definition setDown (d : bool) (p : Pointer) : Pointer :=
  mkPointer (pointerId p) (texcoordX p) (texcoordY p) (prevTexcoordX p)
    (prevTexcoordY p) (deltaX p) (deltaY p) d (moved p) (color p).

(** The eleven programs built at start-up (the source spells the last one
    [gradienSubtractProgram]). *)
Inductive ProgramId :=
| copyProgram | clearProgram | colorProgram | displayProgram
| splatProgram | advectionProgram | divergenceProgram | curlProgram
| vorticityProgram | pressureProgram | gradienSubtractProgram.

Definition ProgramId_eqb (a b : ProgramId) : bool :=
  match a, b with
  | copyProgram, copyProgram | clearProgram, clearProgram
  | colorProgram, colorProgram | displayProgram, displayProgram
  | splatProgram, splatProgram | advectionProgram, advectionProgram
  | divergenceProgram, divergenceProgram | curlProgram, curlProgram
  | vorticityProgram, vorticityProgram | pressureProgram, pressureProgram
  | gradienSubtractProgram, gradienSubtractProgram => true
  | _, _ => false
  end.

(** One [gl.drawElements] of the full-screen quad: the program in use and
    the framebuffer bound as destination ([None] is the canvas). *)
Record DrawCall := mkDrawCall {
  dcProgram : ProgramId;
  dcTarget : option nat
}.

(** The module-level variables of the script together with the part of
    the GL context and of the page the script reads and writes. *)
Record Sim := mkSim {
  CONFIG : Config;
  ext : Ext;
  built : ProgramId -> bool;
  canvasWidth : Z;
  canvasHeight : Z;
  pointers : list Pointer;
  splatStack : list Z;
  dye : DoubleFBO;
  velocity : DoubleFBO;
  divergence : FBO;
  curl : FBO;
  pressure : DoubleFBO;
  paletteIndex : Z;
  lastUpdateTime : Z;
  colorUpdateTimer : R;
  texturesCreated : nat;
  drawCalls : list DrawCall;
  screen : list (list vec4);
  random : nat -> R;
  randomCalls : nat
}.

(** Assignments to one variable of the state. *)

Definition set_CONFIG (x : Config) (s : Sim) : Sim :=
  mkSim x (ext s) (built s) (canvasWidth s) (canvasHeight s) (pointers s)
    (splatStack s) (dye s) (velocity s) (divergence s) (curl s) (pressure s)
    (paletteIndex s) (lastUpdateTime s) (colorUpdateTimer s)
    (texturesCreated s) (drawCalls s) (screen s) (random s) (randomCalls s).

Definition set_canvasWidth (x : Z) (s : Sim) : Sim :=
  mkSim (CONFIG s) (ext s) (built s) x (canvasHeight s) (pointers s)
    (splatStack s) (dye s) (velocity s) (divergence s) (curl s) (pressure s)
    (paletteIndex s) (lastUpdateTime s) (colorUpdateTimer s)
    (texturesCreated s) (drawCalls s) (screen s) (random s) (randomCalls s).

Definition set_canvasHeight (x : Z) (s : Sim) : Sim :=
  mkSim (CONFIG s) (ext s) (built s) (canvasWidth s) x (pointers s)
    (splatStack s) (dye s) (velocity s) (divergence s) (curl s) (pressure s)
    (paletteIndex s) (lastUpdateTime s) (colorUpdateTimer s)
    (texturesCreated s) (drawCalls s) (screen s) (random s) (randomCalls s).

Definition set_pointers (x : list Pointer) (s : Sim) : Sim :=
  mkSim (CONFIG s) (ext s) (built s) (canvasWidth s) (canvasHeight s) x
    (splatStack s) (dye s) (velocity s) (divergence s) (curl s) (pressure s)
    (paletteIndex s) (lastUpdateTime s) (colorUpdateTimer s)
    (texturesCreated s) (drawCalls s) (screen s) (random s) (randomCalls s).

Definition set_splatStack (x : list Z) (s : Sim) : Sim :=
  mkSim (CONFIG s) (ext s) (built s) (canvasWidth s) (canvasHeight s)
    (pointers s) x (dye s) (velocity s) (divergence s) (curl s) (pressure s)
    (paletteIndex s) (lastUpdateTime s) (colorUpdateTimer s)
    (texturesCreated s) (drawCalls s) (screen s) (random s) (randomCalls s).

Definition set_dye (x : DoubleFBO) (s : Sim) : Sim :=
  mkSim (CONFIG s) (ext s) (built s) (canvasWidth s) (canvasHeight s)
    (pointers s) (splatStack s) x (velocity s) (divergence s) (curl s)
    (pressure s) (paletteIndex s) (lastUpdateTime s) (colorUpdateTimer s)
    (texturesCreated s) (drawCalls s) (screen s) (random s) (randomCalls s).

Definition set_velocity (x : DoubleFBO) (s : Sim) : Sim :=
  mkSim (CONFIG s) (ext s) (built s) (canvasWidth s) (canvasHeight s)
    (pointers s) (splatStack s) (dye s) x (divergence s) (curl s) (pressure
    s) (paletteIndex s) (lastUpdateTime s) (colorUpdateTimer s)
    (texturesCreated s) (drawCalls s) (screen s) (random s) (randomCalls s).

Definition set_divergence (x : FBO) (s : Sim) : Sim :=
  mkSim (CONFIG s) (ext s) (built s) (canvasWidth s) (canvasHeight s)
    (pointers s) (splatStack s) (dye s) (velocity s) x (curl s) (pressure s)
    (paletteIndex s) (lastUpdateTime s) (colorUpdateTimer s)
    (texturesCreated s) (drawCalls s) (screen s) (random s) (randomCalls s).

Definition set_curl (x : FBO) (s : Sim) : Sim :=
  mkSim (CONFIG s) (ext s) (built s) (canvasWidth s) (canvasHeight s)
    (pointers s) (splatStack s) (dye s) (velocity s) (divergence s) x
    (pressure s) (paletteIndex s) (lastUpdateTime s) (colorUpdateTimer s)
    (texturesCreated s) (drawCalls s) (screen s) (random s) (randomCalls s).

Definition set_pressure (x : DoubleFBO) (s : Sim) : Sim :=
  mkSim (CONFIG s) (ext s) (built s) (canvasWidth s) (canvasHeight s)
    (pointers s) (splatStack s) (dye s) (velocity s) (divergence s) (curl s)
    x (paletteIndex s) (lastUpdateTime s) (colorUpdateTimer s)
    (texturesCreated s) (drawCalls s) (screen s) (random s) (randomCalls s).

Definition set_paletteIndex (x : Z) (s : Sim) : Sim :=
  mkSim (CONFIG s) (ext s) (built s) (canvasWidth s) (canvasHeight s)
    (pointers s) (splatStack s) (dye s) (velocity s) (divergence s) (curl s)
    (pressure s) x (lastUpdateTime s) (colorUpdateTimer s) (texturesCreated
    s) (drawCalls s) (screen s) (random s) (randomCalls s).

Definition set_lastUpdateTime (x : Z) (s : Sim) : Sim :=
  mkSim (CONFIG s) (ext s) (built s) (canvasWidth s) (canvasHeight s)
    (pointers s) (splatStack s) (dye s) (velocity s) (divergence s) (curl s)
    (pressure s) (paletteIndex s) x (colorUpdateTimer s) (texturesCreated s)
    (drawCalls s) (screen s) (random s) (randomCalls s).

Definition set_colorUpdateTimer (x : R) (s : Sim) : Sim :=
  mkSim (CONFIG s) (ext s) (built s) (canvasWidth s) (canvasHeight s)
    (pointers s) (splatStack s) (dye s) (velocity s) (divergence s) (curl s)
    (pressure s) (paletteIndex s) (lastUpdateTime s) x (texturesCreated s)
    (drawCalls s) (screen s) (random s) (randomCalls s).

Definition set_texturesCreated (x : nat) (s : Sim) : Sim :=
  mkSim (CONFIG s) (ext s) (built s) (canvasWidth s) (canvasHeight s)
    (pointers s) (splatStack s) (dye s) (velocity s) (divergence s) (curl s)
    (pressure s) (paletteIndex s) (lastUpdateTime s) (colorUpdateTimer s) x
    (drawCalls s) (screen s) (random s) (randomCalls s).

Definition set_drawCalls (x : list DrawCall) (s : Sim) : Sim :=
  mkSim (CONFIG s) (ext s) (built s) (canvasWidth s) (canvasHeight s)
    (pointers s) (splatStack s) (dye s) (velocity s) (divergence s) (curl s)
    (pressure s) (paletteIndex s) (lastUpdateTime s) (colorUpdateTimer s)
    (texturesCreated s) x (screen s) (random s) (randomCalls s).

Definition set_screen (x : list (list vec4)) (s : Sim) : Sim :=
  mkSim (CONFIG s) (ext s) (built s) (canvasWidth s) (canvasHeight s)
    (pointers s) (splatStack s) (dye s) (velocity s) (divergence s) (curl s)
    (pressure s) (paletteIndex s) (lastUpdateTime s) (colorUpdateTimer s)
    (texturesCreated s) (drawCalls s) x (random s) (randomCalls s).

Definition set_randomCalls (x : nat) (s : Sim) : Sim :=
  mkSim (CONFIG s) (ext s) (built s) (canvasWidth s) (canvasHeight s)
    (pointers s) (splatStack s) (dye s) (velocity s) (divergence s) (curl s)
    (pressure s) (paletteIndex s) (lastUpdateTime s) (colorUpdateTimer s)
    (texturesCreated s) (drawCalls s) (screen s) (random s) x.

(** ** Drawing *)

(** The interpolated [aPosition * 0.5 + 0.5] at the centre of pixel
    [(i, j)] of a [vw] by [vh] viewport. *)
Definition fragUv (vw vh i j : Z) : vec2 :=
  mkVec2 ((IZR i + 0.5) / IZR vw) ((IZR j + 0.5) / IZR vh).

(** The image left in a [w] by [h] colour buffer of format [fmt] by one
    draw of the full-screen quad under the viewport [(0, 0, vw, vh)]:
    pixels inside the viewport take the fragment colour, the others keep
    their texel.  Blending is never enabled by the script. *)
Definition drawQuad (vw vh : Z) (texelSize : vec2) (frag : Varyings -> vec4)
    (fmt : InternalFormat) (w h : Z) (old : list (list vec4))
    : list (list vec4) :=
  tabulate w h (fun i j =>
    if ((i <? vw) && (j <? vh))%Z
    then storeTexel fmt (frag (baseVertexShader texelSize (fragUv vw vh i j)))
    else fetch old i j).

Definition renderTo (vw vh : Z) (texelSize : vec2) (frag : Varyings -> vec4)
    (dst : FBO) : FBO :=
  mkFBO (texture dst) (fbo dst) (width dst) (height dst) (texelSizeX dst)
    (texelSizeY dst) (internalFormat dst) (param dst)
    (drawQuad vw vh texelSize frag (internalFormat dst) (width dst)
       (height dst) (image dst)).

(** [blit(destination)] appends the draw call to the command stream. *)
Definition blit (p : ProgramId) (destination : option nat) (s : Sim) : Sim :=
  set_drawCalls (drawCalls s ++ [mkDrawCall p destination]) s.

(** Writing the [write] buffer of a double target and then [swap()]. *)
Definition drawAndSwap (vw vh : Z) (texelSize : vec2)
    (frag : Varyings -> vec4) (d : DoubleFBO) : DoubleFBO :=
  swap (mkDoubleFBO (dwidth d) (dheight d) (dtexelSizeX d) (dtexelSizeY d)
          (read d) (renderTo vw vh texelSize frag (write d))).

(** The canvas stores fixed-point colours: a written channel is clamped
    to [0, 1] (its quantisation is outside the model). *)
Definition storeCanvas (c : vec4) : vec4 :=
  mkVec4 (clamp (v4x c) 0 1) (clamp (v4y c) 0 1) (clamp (v4z c) 0 1)
         (clamp (v4w c) 0 1).

(** A draw into the canvas ([blit(null)]) under the viewport
    [(0, 0, vw, vh)]; the drawing buffer has the size of the canvas. *)
Definition drawCanvas (vw vh : Z) (texelSize : vec2)
    (frag : Varyings -> vec4) (s : Sim) : Sim :=
  set_screen
    (tabulate (canvasWidth s) (canvasHeight s) (fun i j =>
       if ((i <? vw) && (j <? vh))%Z
       then storeCanvas (frag (baseVertexShader texelSize (fragUv vw vh i j)))
       else fetch (screen s) i j))
    s.

(** ** Render targets *)

(** [createFBO]: the existing object when its size matches, otherwise a
    new texture and framebuffer, cleared with the clear colour. *)
Definition createFBO (w h : Z) (fmt : InternalFormat) (filt : TexFilter)
    (existingFbo : option FBO) (s : Sim) : FBO * Sim :=
  let fresh :=
    (mkFBO (texturesCreated s) (texturesCreated s) w h (1 / IZR w)
       (1 / IZR h) fmt filt
       (tabulate w h (fun _ _ => storeTexel fmt clearColor)),
     set_texturesCreated (S (texturesCreated s)) s) in
  match existingFbo with
  | Some e =>
      if ((width e =? w) && (height e =? h))%Z then (e, s) else fresh
  | None => fresh
  end.

(** [createDoubleFBO]. *)
Definition createDoubleFBO (w h : Z) (fmt : InternalFormat)
    (filt : TexFilter) (existingDouble : option DoubleFBO) (s : Sim)
    : DoubleFBO * Sim :=
  let fresh :=
    let (fbo1, s1) := createFBO w h fmt filt None s in
    let (fbo2, s2) := createFBO w h fmt filt None s1 in
    (mkDoubleFBO w h (texelSizeX fbo1) (texelSizeY fbo1) fbo1 fbo2, s2) in
  match existingDouble with
  | Some e =>
      if ((dwidth e =? w) && (dheight e =? h))%Z then (e, s) else fresh
  | None => fresh
  end.

(** [Math.round]. *)
Definition Math_round (x : R) : Z := Zfloor (x + 0.5).

(** [getResolution]; the drawing buffer has the size of the canvas. *)
Definition getResolution (resolution : Z) (s : Sim) : Z * Z :=
  let aspectRatio := IZR (canvasWidth s) / IZR (canvasHeight s) in
  let aspectRatio :=
    if Rlt_dec aspectRatio 1 then 1 / aspectRatio else aspectRatio in
  let min := Math_round (IZR resolution) in
  let max := Math_round (IZR resolution * aspectRatio) in
  if (canvasHeight s <? canvasWidth s)%Z then (max, min) else (min, max).

(** [initFramebuffers].  [defined] tells whether the five variables
    already hold objects; on the first call they are [undefined]. *)
Definition initFramebuffers (defined : bool) (s : Sim) : Sim :=
  let existing {A} (x : A) : option A := if defined then Some x else None in
  let simRes := getResolution (SIM_RESOLUTION (CONFIG s)) s in
  let dyeRes := getResolution (DYE_RESOLUTION (CONFIG s)) s in
  let rgba := formatRGBA (ext s) in
  let rg := formatRG (ext s) in
  let r := formatR (ext s) in
  let filtering :=
    if supportLinearFiltering (ext s) then LINEAR else NEAREST in
  let (d, s) :=
    createDoubleFBO (fst dyeRes) (snd dyeRes) rgba filtering
      (existing (dye s)) s in
  let s := set_dye d s in
  let (v, s) :=
    createDoubleFBO (fst simRes) (snd simRes) rg filtering
      (existing (velocity s)) s in
  let s := set_velocity v s in
  let (dv, s) :=
    createFBO (fst simRes) (snd simRes) r NEAREST
      (existing (divergence s)) s in
  let s := set_divergence dv s in
  let (c, s) :=
    createFBO (fst simRes) (snd simRes) r NEAREST (existing (curl s)) s in
  let s := set_curl c s in
  let (p, s) :=
    createDoubleFBO (fst simRes) (snd simRes) r NEAREST
      (existing (pressure s)) s in
  set_pressure p s.

(** ** Colours *)

(** [Math.random()]: the next value of the oracle. *)
Definition Math_random (s : Sim) : R * Sim :=
  (random s (randomCalls s), set_randomCalls (S (randomCalls s)) s).

(** Truncation towards zero, and the JavaScript remainder [a % b] (the
    sign of the result is that of [a]). *)
Definition truncR (x : R) : Z :=
  if Rle_dec 0 x then Zfloor x else (- Zfloor (- x))%Z.

Definition js_rem (a b : R) : R := a - b * IZR (truncR (a / b)).

Module Hsv.
(** A palette entry [{ h, s, v }]. *)
Record t := mk { h : R; s : R; v : R }.
End Hsv.

(** The colour palette. *)
Definition PALETTE : list Hsv.t :=
  [ Hsv.mk (195 / 360) 0.95 1;
    Hsv.mk (308 / 360) 0.82 1;
    Hsv.mk (140 / 360) 0.72 0.95;
    Hsv.mk (265 / 360) 0.78 0.96 ].

Definition HSVtoRGB (h s v : R) : Rgb.t :=
  let i := Zfloor (h * 6) in
  let f := h * 6 - IZR i in
  let p := v * (1 - s) in
  let q := v * (1 - f * s) in
  let t := v * (1 - (1 - f) * s) in
  match Z.rem i 6 with
  | 0%Z => Rgb.mk v t p
  | 1%Z => Rgb.mk q v p
  | 2%Z => Rgb.mk p v t
  | 3%Z => Rgb.mk p q v
  | 4%Z => Rgb.mk t p v
  | 5%Z => Rgb.mk v p q
  | _ => Rgb.mk v t p
  end.

(** The palette entry [PALETTE[index % PALETTE.length]]. *)
Definition palettePick (index : Z) : Hsv.t :=
  nth (Z.to_nat (Z.rem index (Z.of_nat (length PALETTE)))) PALETTE
      (Hsv.mk 0 0 0).

(** The hue jitter drawn from one random number. *)
Definition hueJitter (rnd : R) : R := (rnd - 0.5) * 0.06.

(** The colour [generateColor] builds from a palette entry and a jitter. *)
Definition jitteredColor (pick : Hsv.t) (jitter : R) : Rgb.t :=
  Rgb.scale 0.8
    (HSVtoRGB (js_rem (Hsv.h pick + jitter + 1) 1) (Hsv.s pick) (Hsv.v pick)).

(** [generateColor]. *)
Definition generateColor (st : Sim) : Rgb.t * Sim :=
  let pick := palettePick (paletteIndex st) in
  let st := set_paletteIndex (paletteIndex st + 1) st in
  let (rnd, st) := Math_random st in
  let jitter := hueJitter rnd in
  (jitteredColor pick jitter, st).

(** [wrap]. *)
Definition wrap (value min max : R) : R :=
  let range := max - min in
  if Req_dec_T range 0 then min
  else js_rem (js_rem (value - min) range + range) range + min.

(** The [forEach] of [updateColors]: every pointer of the list, in order,
    is given a generated colour. *)
Fixpoint recolor (ps : list Pointer) (st : Sim) : list Pointer * Sim :=
  match ps with
  | [] => ([], st)
  | p :: ps' =>
      let (c, st1) := generateColor st in
      let (qs, st2) := recolor ps' st1 in
      (setColor c p :: qs, st2)
  end.

(** [updateColors]. *)
Definition updateColors (dt : R) (st : Sim) : Sim :=
  if negb (COLORFUL (CONFIG st)) then st
  else
    let timer := colorUpdateTimer st + dt * COLOR_UPDATE_SPEED (CONFIG st) in
    if Rge_dec timer 1 then
      let st := set_colorUpdateTimer (wrap timer 0 1) st in
      let (ps, st) := recolor (pointers st) st in
      set_pointers ps st
    else set_colorUpdateTimer timer st.

(** ** Splats *)

(** [correctRadius]. *)
Definition correctRadius (radius : R) (st : Sim) : R :=
  let aspectRatio := IZR (canvasWidth st) / IZR (canvasHeight st) in
  if Rgt_dec aspectRatio 1 then radius * aspectRatio else radius.

(** [splat].  The uniforms [aspectRatio], [point] and [radius] set for the
    velocity pass stay in force for the dye pass; [texelSize] of the splat
    program is never set and keeps its initial zero. *)
Definition splat (x y dx dy : R) (color : Rgb.t) (st : Sim) : Sim :=
  if negb (built st splatProgram) then st
  else
    let aspectRatio := IZR (canvasWidth st) / IZR (canvasHeight st) in
    let point := mkVec2 x y in
    let radius := correctRadius (SPLAT_RADIUS (CONFIG st) / 100) st in
    let vel := velocity st in
    let st := blit splatProgram (Some (fbo (write vel))) st in
    let st :=
      set_velocity
        (drawAndSwap (dwidth vel) (dheight vel) (mkVec2 0 0)
           (splatShader (read vel) aspectRatio (mkVec3 dx dy 0) point radius)
           vel) st in
    let d := dye st in
    let st := blit splatProgram (Some (fbo (write d))) st in
    set_dye
      (drawAndSwap (dwidth d) (dheight d) (mkVec2 0 0)
         (splatShader (read d) aspectRatio
            (mkVec3 (Rgb.r color) (Rgb.g color) (Rgb.b color)) point radius)
         d) st.

(** One turn of the loop of [multipleSplats]. *)
Definition randomSplat (st : Sim) : Sim :=
  let (color, st) := generateColor st in
  let color := Rgb.scale 12 color in
  let (x, st) := Math_random st in
  let (y, st) := Math_random st in
  let (rx, st) := Math_random st in
  let dx := 1000 * (rx - 0.5) in
  let (ry, st) := Math_random st in
  let dy := 1000 * (ry - 0.5) in
  splat x y dx dy color st.

(** [multipleSplats]. *)
Definition multipleSplats (amount : Z) (st : Sim) : Sim :=
  Nat.iter (Z.to_nat amount) randomSplat st.

(** [splatPointer]. *)
Definition splatPointer (p : Pointer) (st : Sim) : Sim :=
  let dx := deltaX p * SPLAT_FORCE (CONFIG st) in
  let dy := deltaY p * SPLAT_FORCE (CONFIG st) in
  splat (texcoordX p) (texcoordY p) dx dy (color p) st.

(** The [forEach] of [applyInputs]: a moved pointer has its flag reset
    and is splatted. *)
Fixpoint splatMoved (ps : list Pointer) (st : Sim) : list Pointer * Sim :=
  match ps with
  | [] => ([], st)
  | p :: ps' =>
      if moved p then
        let p1 := setMoved false p in
        let st1 := splatPointer p1 st in
        let (qs, st2) := splatMoved ps' st1 in
        (p1 :: qs, st2)
      else
        let (qs, st2) := splatMoved ps' st in
        (p :: qs, st2)
  end.

(** [applyInputs].  The head of [splatStack] is the top of the stack. *)
Definition applyInputs (st : Sim) : Sim :=
  let st :=
    match splatStack st with
    | amount :: rest => multipleSplats amount (set_splatStack rest st)
    | [] => st
    end in
  let (ps, st) := splatMoved (pointers st) st in
  set_pointers ps st.

(** ** The solver *)

(** The guard at the top of [step]. *)
Definition stepProgramsBuilt (st : Sim) : bool :=
  built st curlProgram && built st vorticityProgram
  && built st divergenceProgram && built st pressureProgram
  && built st gradienSubtractProgram && built st advectionProgram.

(** The [texelSize] uniform every solver pass takes from the velocity
    target. *)
Definition simTexelSize (st : Sim) : vec2 :=
  mkVec2 (dtexelSizeX (velocity st)) (dtexelSizeY (velocity st)).

(** A pass into a single target, under the viewport of the velocity. *)
Definition simPass (frag : Varyings -> vec4) (dst : FBO) (st : Sim) : FBO :=
  renderTo (dwidth (velocity st)) (dheight (velocity st)) (simTexelSize st)
    frag dst.

(** A pass into the [write] buffer of a double target, then [swap()]. *)
Definition simPassSwap (texelSize : vec2) (frag : Varyings -> vec4)
    (d : DoubleFBO) (st : Sim) : DoubleFBO :=
  drawAndSwap (dwidth (velocity st)) (dheight (velocity st)) texelSize
    frag d.

Definition curlStage (st : Sim) : Sim :=
  let st := blit curlProgram (Some (fbo (curl st))) st in
  set_curl (simPass (curlShader (read (velocity st))) (curl st) st) st.

Definition vorticityStage (dt : R) (st : Sim) : Sim :=
  let st := blit vorticityProgram (Some (fbo (write (velocity st)))) st in
  set_velocity
    (simPassSwap (simTexelSize st)
       (vorticityShader (read (velocity st)) (curl st) (CURL (CONFIG st)) dt)
       (velocity st) st) st.

Definition divergenceStage (st : Sim) : Sim :=
  let st := blit divergenceProgram (Some (fbo (divergence st))) st in
  set_divergence
    (simPass (divergenceShader (read (velocity st))) (divergence st) st) st.

(** The pass of [clearProgram] over the pressure; its [texelSize] uniform
    is never set. *)
Definition clearStage (st : Sim) : Sim :=
  let st := blit clearProgram (Some (fbo (write (pressure st)))) st in
  set_pressure
    (simPassSwap (mkVec2 0 0)
       (clearShader (read (pressure st)) (PRESSURE (CONFIG st)))
       (pressure st) st) st.

(** The body of the pressure loop. *)
Definition pressureIteration (st : Sim) : Sim :=
  let st := blit pressureProgram (Some (fbo (write (pressure st)))) st in
  set_pressure
    (simPassSwap (simTexelSize st)
       (pressureShader (read (pressure st)) (divergence st))
       (pressure st) st) st.

(** The loop [for (let i = 0; i < CONFIG.PRESSURE_ITERATIONS; i++)]. *)
Definition pressureStage (st : Sim) : Sim :=
  Nat.iter (Z.to_nat (PRESSURE_ITERATIONS (CONFIG st))) pressureIteration st.

Definition gradientSubtractStage (st : Sim) : Sim :=
  let st :=
    blit gradienSubtractProgram (Some (fbo (write (velocity st)))) st in
  set_velocity
    (simPassSwap (simTexelSize st)
       (gradientSubtractShader (read (pressure st)) (read (velocity st)))
       (velocity st) st) st.

(** Advection of the velocity by itself. *)
Definition advectVelocityStage (dt : R) (st : Sim) : Sim :=
  let st := blit advectionProgram (Some (fbo (write (velocity st)))) st in
  set_velocity
    (simPassSwap (simTexelSize st)
       (advectionShader (negb (supportLinearFiltering (ext st)))
          (read (velocity st)) (read (velocity st)) (simTexelSize st)
          (simTexelSize st) dt (VELOCITY_DISSIPATION (CONFIG st)))
       (velocity st) st) st.

(** Advection of the dye, under the viewport of the dye; the [texelSize]
    and [dt] uniforms are those of the velocity pass. *)
Definition advectDyeStage (dt : R) (st : Sim) : Sim :=
  let d := dye st in
  let st := blit advectionProgram (Some (fbo (write d))) st in
  set_dye
    (drawAndSwap (dwidth d) (dheight d) (simTexelSize st)
       (advectionShader (negb (supportLinearFiltering (ext st)))
          (read (velocity st)) (read d) (simTexelSize st)
          (mkVec2 (dtexelSizeX d) (dtexelSizeY d)) dt
          (DENSITY_DISSIPATION (CONFIG st)))
       d) st.

(** [step]. *)
Definition step (dt : R) (st : Sim) : Sim :=
  if negb (stepProgramsBuilt st) then st
  else
    let st := curlStage st in
    let st := vorticityStage dt st in
    let st := divergenceStage st in
    let st := clearStage st in
    let st := pressureStage st in
    let st := gradientSubtractStage st in
    let st := advectVelocityStage dt st in
    advectDyeStage dt st.

(** ** Rendering *)

(** [normalizeColor]. *)
Definition normalizeColor (input : Rgb.t) : Rgb.t :=
  Rgb.mk (Rgb.r input / 255) (Rgb.g input / 255) (Rgb.b input / 255).

(** [drawColor(null, color)]. *)
Definition drawColor (color : Rgb.t) (st : Sim) : Sim :=
  let st := blit colorProgram None st in
  drawCanvas (canvasWidth st) (canvasHeight st) (mkVec2 0 0)
    (colorShader (mkVec4 (Rgb.r color) (Rgb.g color) (Rgb.b color) 1)) st.

(** [drawDisplay(null, width, height)]. *)
Definition drawDisplay (w h : Z) (st : Sim) : Sim :=
  let texelSize := mkVec2 (1 / IZR w) (1 / IZR h) in
  let st := blit displayProgram None st in
  drawCanvas w h texelSize
    (displayShader (read (dye st)) texelSize
       (if SHADING (CONFIG st) then 0.65 else 0)) st.

(** [render(null)]. *)
Definition render (st : Sim) : Sim :=
  if negb (built st colorProgram && built st displayProgram) then st
  else
    let w := canvasWidth st in
    let h := canvasHeight st in
    let st :=
      if negb (TRANSPARENT (CONFIG st))
      then drawColor (normalizeColor (BACK_COLOR (CONFIG st))) st
      else st in
    drawDisplay w h st.

(** ** The tick *)

(** What one animation frame reads from the page. *)
Record Frame := mkFrame {
  now : Z;
  clientWidth : Z;
  clientHeight : Z;
  devicePixelRatio : R
}.

(** The clamp of [calcDeltaTime], in seconds. *)
Definition maxDeltaTime : R := 0.016666.

(** [calcDeltaTime]. *)
Definition calcDeltaTime (now : Z) (st : Sim) : R * Sim :=
  let dt := IZR (now - lastUpdateTime st) / 1000 in
  let dt := Rmin dt maxDeltaTime in
  (dt, set_lastUpdateTime now st).

(** [scaleByPixelRatio]. *)
Definition scaleByPixelRatio (input : R) (ratio : R) : Z :=
  let pixelRatio := if Req_dec_T ratio 0 then 1 else ratio in
  Zfloor (input * pixelRatio).

(** [resizeCanvas]. *)
Definition resizeCanvas (f : Frame) (st : Sim) : bool * Sim :=
  let w := scaleByPixelRatio (IZR (clientWidth f)) (devicePixelRatio f) in
  let h := scaleByPixelRatio (IZR (clientHeight f)) (devicePixelRatio f) in
  if negb (canvasWidth st =? w)%Z || negb (canvasHeight st =? h)%Z
  then (true, set_canvasHeight h (set_canvasWidth w st))
  else (false, st).

(** The part of [update] before the solver: time, resize, colours and
    inputs. *)
Definition beforeStep (f : Frame) (st : Sim) : R * Sim :=
  let (dt, st) := calcDeltaTime (now f) st in
  let (resized, st) := resizeCanvas f st in
  let st := if resized then initFramebuffers true st else st in
  let st := updateColors dt st in
  (dt, applyInputs st).

(** [update], one tick; the host schedules the next one. *)
Definition update (f : Frame) (st : Sim) : Sim :=
  let (dt, st) := beforeStep f st in
  let st := if negb (PAUSED (CONFIG st)) then step dt st else st in
  render st.

(** ** Pointer events and the host interface *)

(** [correctDeltaX] and [correctDeltaY]. *)
Definition correctDeltaX (delta : R) (st : Sim) : R :=
  let aspectRatio := IZR (canvasWidth st) / IZR (canvasHeight st) in
  if Rlt_dec aspectRatio 1 then delta * aspectRatio else delta.

Definition correctDeltaY (delta : R) (st : Sim) : R :=
  let aspectRatio := IZR (canvasWidth st) / IZR (canvasHeight st) in
  if Rgt_dec aspectRatio 1 then delta / aspectRatio else delta.

(** [updatePointerDownData]. *)
Definition updatePointerDownData (p : Pointer) (id : Z) (posX posY : R)
    (st : Sim) : Pointer * Sim :=
  let tx := posX / IZR (canvasWidth st) in
  let ty := 1 - posY / IZR (canvasHeight st) in
  let (c, st) := generateColor st in
  (mkPointer id tx ty tx ty 0 0 true false c, st).

(** [updatePointerMoveData]. *)
Definition updatePointerMoveData (p : Pointer) (posX posY : R) (st : Sim)
    : Pointer :=
  let tx := posX / IZR (canvasWidth st) in
  let ty := 1 - posY / IZR (canvasHeight st) in
  let dx := correctDeltaX (tx - texcoordX p) st in
  let dy := correctDeltaY (ty - texcoordY p) st in
  mkPointer (pointerId p) tx ty (texcoordX p) (texcoordY p) dx dy (down p)
    (if Rgt_dec (Rabs dx) 0 then true
     else if Rgt_dec (Rabs dy) 0 then true else false)
    (color p).

(** [updatePointerUpData]. *)
Definition updatePointerUpData (p : Pointer) : Pointer := setDown false p.

(** The [keydown] listener: [Space] queues a burst of
    [parseInt(Math.random() * 20) + 5] splats ([parseInt] taken as the
    truncation of its argument); [KeyP] toggles the pause. *)
Inductive Key := Space | KeyP | OtherKey.

Definition keydown (k : Key) (st : Sim) : Sim :=
  match k with
  | Space =>
      let (rnd, st) := Math_random st in
      set_splatStack ((truncR (rnd * 20) + 5)%Z :: splatStack st) st
  | KeyP => set_CONFIG (setPaused (negb (PAUSED (CONFIG st))) (CONFIG st)) st
  | OtherKey => st
  end.

(** The object [window.FluidField]. *)
Module FluidField.
Definition splatNormalized (x y dx dy : R) (color : option Rgb.t)
    (st : Sim) : Sim :=
  let velocityScale := 1500 in
  let (col, st) :=
    match color with
    | Some c => (c, st)
    | None => generateColor st
    end in
  splat x y (dx * velocityScale) (dy * velocityScale) col st.

Definition addRandomSplats (amount : Z) (st : Sim) : Sim :=
  multipleSplats amount st.

Definition pause (st : Sim) : Sim :=
  set_CONFIG (setPaused true (CONFIG st)) st.

Definition resume (st : Sim) : Sim :=
  set_CONFIG (setPaused false (CONFIG st)) st.

Definition isPaused (st : Sim) : bool := PAUSED (CONFIG st).
End FluidField.

(** The mouse listeners; [x] and [y] are the event's offsets from the
    canvas corner, [ratio] is [window.devicePixelRatio]. *)
Definition mousedown (x y ratio : R) (st : Sim) : Sim :=
  match pointers st with
  | p :: ps =>
      let posX := IZR (scaleByPixelRatio x ratio) in
      let posY := IZR (scaleByPixelRatio y ratio) in
      let (q, st) := updatePointerDownData p (-1) posX posY st in
      set_pointers (q :: ps) st
  | [] => st
  end.

Definition mousemove (x y ratio : R) (st : Sim) : Sim :=
  match pointers st with
  | p :: ps =>
      if negb (down p) then st
      else
        let posX := IZR (scaleByPixelRatio x ratio) in
        let posY := IZR (scaleByPixelRatio y ratio) in
        set_pointers (updatePointerMoveData p posX posY st :: ps) st
  | [] => st
  end.

Definition mouseup (st : Sim) : Sim :=
  match pointers st with
  | p :: ps => set_pointers (updatePointerUpData p :: ps) st
  | [] => st
  end.

(** One entry of a touch event's list: the touch's [identifier] and its
    page position less the canvas offset. *)
Record Touch := mkTouch {
  identifier : Z;
  touchX : R;
  touchY : R
}.

(** The loop [while (touches.length >= pointers.length) pointers.push(..)]
    for [n] touches. *)
Definition growPointers (n : nat) (ps : list Pointer) : list Pointer :=
  ps ++ repeat pointerPrototype (S n - length ps).

(** The [for] loop of [touchstart] over the slots [pointers[i + 1]].  The
    flag tells whether a slot was missing, where the listener throws. *)
Fixpoint pressTouches (ts : list Touch) (ps : list Pointer) (ratio : R)
    (st : Sim) : list Pointer * Sim * bool :=
  match ts with
  | [] => (ps, st, false)
  | t :: ts' =>
      match ps with
      | [] => ([], st, true)
      | p :: ps' =>
          let posX := IZR (scaleByPixelRatio (touchX t) ratio) in
          let posY := IZR (scaleByPixelRatio (touchY t) ratio) in
          let (q, st1) := updatePointerDownData p (identifier t) posX posY st in
          let '(qs, st2, threw) := pressTouches ts' ps' ratio st1 in
          (q :: qs, st2, threw)
      end
  end.

(** The [touchstart] listener; [touches] is [e.targetTouches]. *)
Definition touchstart (touches : list Touch) (ratio : R) (st : Sim)
    : Sim * bool :=
  match growPointers (length touches) (pointers st) with
  | p0 :: slots =>
      let '(qs, st1, threw) := pressTouches touches slots ratio st in
      (set_pointers (p0 :: qs) st1, threw)
  | [] => (st, true)
  end.

(** The [for] loop of [touchmove]: a slot that is not down is skipped, a
    missing slot makes the listener throw (the flag), leaving the slots
    already updated as they are. *)
Fixpoint moveTouches (ts : list Touch) (ps : list Pointer) (ratio : R)
    (st : Sim) : list Pointer * bool :=
  match ts with
  | [] => (ps, false)
  | t :: ts' =>
      match ps with
      | [] => ([], true)
      | p :: ps' =>
          let posX := IZR (scaleByPixelRatio (touchX t) ratio) in
          let posY := IZR (scaleByPixelRatio (touchY t) ratio) in
          let q := if down p then updatePointerMoveData p posX posY st
                   else p in
          let (qs, threw) := moveTouches ts' ps' ratio st in
          (q :: qs, threw)
      end
  end.

(** The [touchmove] listener; [touches] is [e.targetTouches]. *)
Definition touchmove (touches : list Touch) (ratio : R) (st : Sim)
    : Sim * bool :=
  match touches, pointers st with
  | [], _ => (st, false)
  | _ :: _, [] => (st, true)
  | _ :: _, p0 :: slots =>
      let (qs, threw) := moveTouches touches slots ratio st in
      (set_pointers (p0 :: qs) st, threw)
  end.

(** [pointers.find(p => p.id === id)] followed by [updatePointerUpData]:
    the first pointer carrying the identifier is released. *)
Fixpoint releaseFirst (id : Z) (ps : list Pointer) : list Pointer :=
  match ps with
  | [] => []
  | p :: ps' =>
      if (pointerId p =? id)%Z then updatePointerUpData p :: ps'
      else p :: releaseFirst id ps'
  end.

(** The [touchend] listener; [ids] are the identifiers of
    [e.changedTouches]. *)
Definition touchend (ids : list Z) (st : Sim) : Sim :=
  set_pointers (fold_left (fun ps id => releaseFirst id ps) ids (pointers st))
    st.

(** ** The state the script starts from *)

(** The state left by the top-level statements of the script: every
    program linked, one pointer, the five targets allocated by the first
    [initFramebuffers()], for a canvas of [w] by [h] pixels, a capability
    record [e], a random oracle [rnd] and the load time [t0]. *)
Definition boot (e : Ext) (mobile : bool) (w h : Z) (rnd : nat -> R)
    (t0 : Z) : Sim :=
  let none := mkFBO 0 0 0 0 0 0 RGBA NEAREST [] in
  let noneD := mkDoubleFBO 0 0 0 0 none none in
  let st :=
    mkSim (startupConfig mobile e) e (fun _ => true) w h [pointerPrototype]
      [] noneD noneD none none noneD 0 t0 0 0 [] [] rnd 0 in
  initFramebuffers false st.

(** ** Well-formed states *)

(** A target of [w] by [h] texels whose size fields agree. *)
Definition okFBO (w h : Z) (t : FBO) : Prop :=
  width t = w /\ height t = h
  /\ texelSizeX t = 1 / IZR w /\ texelSizeY t = 1 / IZR h.

Definition okDouble (w h : Z) (d : DoubleFBO) : Prop :=
  dwidth d = w /\ dheight d = h
  /\ dtexelSizeX d = 1 / IZR w /\ dtexelSizeY d = 1 / IZR h
  /\ okFBO w h (read d) /\ okFBO w h (write d).

(** The invariant of the running script: the programs are linked, the
    canvas and the grids are not empty, the three solver fields and the
    two scratch fields share the size of the velocity, and every texel
    size is the reciprocal of the size. *)
Record Inv (st : Sim) : Prop := mkInv {
  inv_built : forall p, built st p = true;
  inv_canvasWidth : (0 < canvasWidth st)%Z;
  inv_canvasHeight : (0 < canvasHeight st)%Z;
  inv_simRes : (0 < SIM_RESOLUTION (CONFIG st))%Z;
  inv_dyeRes : (0 < DYE_RESOLUTION (CONFIG st))%Z;
  inv_simWidth : (0 < dwidth (velocity st))%Z;
  inv_simHeight : (0 < dheight (velocity st))%Z;
  inv_dyeWidth : (0 < dwidth (dye st))%Z;
  inv_dyeHeight : (0 < dheight (dye st))%Z;
  inv_velocity :
    okDouble (dwidth (velocity st)) (dheight (velocity st)) (velocity st);
  inv_divergence :
    okFBO (dwidth (velocity st)) (dheight (velocity st)) (divergence st);
  inv_curl :
    okFBO (dwidth (velocity st)) (dheight (velocity st)) (curl st);
  inv_pressure :
    okDouble (dwidth (velocity st)) (dheight (velocity st)) (pressure st);
  inv_dye : okDouble (dwidth (dye st)) (dheight (dye st)) (dye st)
}.

(** A frame whose canvas is not empty once scaled. *)
Definition visibleFrame (f : Frame) : Prop :=
  (0 < scaleByPixelRatio (IZR (clientWidth f)) (devicePixelRatio f))%Z
  /\ (0 < scaleByPixelRatio (IZR (clientHeight f)) (devicePixelRatio f))%Z.

(** The number of draw calls of a program in a command stream. *)
Definition countDraws (p : ProgramId) (log : list DrawCall) : nat :=
  length (filter (fun d => ProgramId_eqb (dcProgram d) p) log).

(** The number of pointers whose [moved] flag is set. *)
Definition countMoved (ps : list Pointer) : nat :=
  length (filter moved ps).

(** ** Views of the state, counts and sample states *)

(** Everything of the state but the pointers, the palette index, the
    colour timer, the clock and the random oracle: what the colour
    generator never touches. *)
Definition device (st : Sim) :=
  (CONFIG st, ext st, built st, canvasWidth st, canvasHeight st,
   (dye st, velocity st, divergence st, curl st, pressure st),
   (texturesCreated st, drawCalls st, screen st, splatStack st)).

(** Everything of the state but the five targets and the allocation
    counter: what [initFramebuffers] leaves alone. *)
Definition outsideFields (st : Sim) :=
  (CONFIG st, ext st, built st, canvasWidth st, canvasHeight st,
   (pointers st, splatStack st, paletteIndex st, lastUpdateTime st,
    colorUpdateTimer st),
   (drawCalls st, screen st, random st, randomCalls st)).

(** A capability record of a WebGL 2 context with every float format
    renderable, and the state of a 300 by 150 canvas loaded at time 1000
    with a constant random oracle. *)
Definition fullExt : Ext := mkExt RGBA16F RG16F R16F true.

Definition loaded : Sim := boot fullExt false 300 150 (fun _ => 0.5) 1000.

(** A command stream made of draws of one program. *)
Definition onlyProgram (q : ProgramId) (l : list DrawCall) : Prop :=
  Forall (fun d => dcProgram d = q) l.

(** What the input stage of a tick never changes ... *)
Definition fixedByInputs (st : Sim) :=
  (CONFIG st, ext st, built st, canvasWidth st, canvasHeight st,
   (divergence st, curl st, pressure st, texturesCreated st, screen st),
   (lastUpdateTime st, colorUpdateTimer st, random st)).

(** ... and what a splat, in addition, leaves alone. *)
Definition outsideInputs (st : Sim) :=
  (fixedByInputs st, splatStack st, pointers st).

(** The number of splats the input stage of a tick issues: the burst on
    top of the stack, if any, and one per moved pointer. *)
Definition pendingSplats (st : Sim) : nat :=
  (match splatStack st with
   | amount :: _ => Z.to_nat amount
   | [] => 0
   end + countMoved (pointers st))%nat.

(** The state of a tick just before its inputs are applied: the clock is
    read, the canvas resized (and the targets with it), the colours
    updated. *)
Definition beforeInputs (f : Frame) (st : Sim) : Sim :=
  let s1 := snd (calcDeltaTime (now f) st) in
  updateColors (fst (calcDeltaTime (now f) st))
    (if fst (resizeCanvas f s1)
     then initFramebuffers true (snd (resizeCanvas f s1))
     else snd (resizeCanvas f s1)).

(** The canvas already has the size the frame asks for. *)
Definition sameSize (f : Frame) (st : Sim) : Prop :=
  canvasWidth st
  = scaleByPixelRatio (IZR (clientWidth f)) (devicePixelRatio f)
  /\ canvasHeight st
     = scaleByPixelRatio (IZR (clientHeight f)) (devicePixelRatio f).

(** What no stage before the inputs changes, resize or not. *)
Definition stable (st : Sim) :=
  (CONFIG st, ext st, built st, drawCalls st, screen st, splatStack st).

(** The draws one run of the solver issues, per program. *)
Definition solverDraws (c : Config) (p : ProgramId) : nat :=
  match p with
  | curlProgram | vorticityProgram | divergenceProgram | clearProgram
  | gradienSubtractProgram => 1
  | advectionProgram => 2
  | pressureProgram => Z.to_nat (PRESSURE_ITERATIONS c)
  | _ => 0
  end.

(** The draws of the renderer, per program. *)
Definition renderDraws (c : Config) (p : ProgramId) : nat :=
  match p with
  | colorProgram => if TRANSPARENT c then 0 else 1
  | displayProgram => 1
  | _ => 0
  end.

(** A frame of the 300 by 150 canvas, 16 ms after the load. *)
Definition firstFrame : Frame := mkFrame 1016 300 150 1.


(** The state after [i] consecutive calls of [generateColor]. *)
Definition afterColors (i : nat) (st : Sim) : Sim :=
  Nat.iter i (fun s => snd (generateColor s)) st.

(** The state after ten ticks of 10 ms: the colour timer stands at 0.9. *)
Definition dueState : Sim := Nat.iter 10 (updateColors (10 / 1000)) loaded.

(** What the renderer leaves alone: everything but the command stream
    and the canvas. *)
Definition outsideRender (st : Sim) :=
  (CONFIG st, ext st, built st, canvasWidth st, canvasHeight st,
   (dye st, velocity st, divergence st, curl st, pressure st),
   (pointers st, splatStack st, paletteIndex st, lastUpdateTime st,
    colorUpdateTimer st),
   (texturesCreated st, random st, randomCalls st)).

(** The programs of the eight solver stages. *)
Definition isSolverProgram (p : ProgramId) : bool :=
  match p with
  | curlProgram | vorticityProgram | divergenceProgram | clearProgram
  | pressureProgram | gradienSubtractProgram | advectionProgram => true
  | _ => false
  end.

(** Nothing is pending: the burst stack is empty and no pointer moved. *)
Definition idle (st : Sim) : Prop :=
  splatStack st = [] /\ countMoved (pointers st) = 0%nat.

(** The five targets. *)
Definition fields (st : Sim) :=
  (velocity st, dye st, pressure st, divergence st, curl st).

(** The pointer is pressed at (150, 75) and dragged to (160, 75) on the
    paused 300 by 150 canvas. *)
Definition dragged : Sim :=
  mousemove 160 75 1 (mousedown 150 75 1 (FluidField.pause loaded)).


(** ** Notions of the further properties *)

(** The largest and the smallest channel of a colour. *)
Definition maxChannel (c : Rgb.t) : R :=
  Rmax (Rgb.r c) (Rmax (Rgb.g c) (Rgb.b c)).

Definition minChannel (c : Rgb.t) : R :=
  Rmin (Rgb.r c) (Rmin (Rgb.g c) (Rgb.b c)).

(** The slot a touch leaves pressed. *)
Definition pressedBy (t : Touch) (ratio : R) (st : Sim) (q : Pointer)
    : Prop :=
  pointerId q = identifier t /\ down q = true /\ moved q = false
  /\ texcoordX q
     = IZR (scaleByPixelRatio (touchX t) ratio) / IZR (canvasWidth st)
  /\ texcoordY q
     = 1 - IZR (scaleByPixelRatio (touchY t) ratio) / IZR (canvasHeight st)
  /\ deltaX q = 0 /\ deltaY q = 0.

(** What [touchend] may do to a pointer: release it, if it carries one of
    the identifiers. *)
Definition releasedBy (ids : list Z) (p q : Pointer) : Prop :=
  q = p \/ (q = updatePointerUpData p /\ In (pointerId p) ids).

(** The release of every pointer that carries one of the identifiers. *)
Definition releaseIn (ids : list Z) (p : Pointer) : Pointer :=
  if existsb (Z.eqb (pointerId p)) ids then updatePointerUpData p else p.

(** Everything of the state but the five targets and the command
    stream. *)
Definition outsideSolver (st : Sim) :=
  (CONFIG st, ext st, built st, canvasWidth st, canvasHeight st,
   (pointers st, splatStack st, paletteIndex st, lastUpdateTime st,
    colorUpdateTimer st),
   (texturesCreated st, screen st, random st, randomCalls st)).

(** What the host can call once the script is loaded: the animation
    frame, the listeners, the timer of the initial splats and the methods
    of [window.FluidField]. *)
Inductive Event :=
| Tick (f : Frame)
| InitialSplats
| MouseDown (x y ratio : R)
| MouseMove (x y ratio : R)
| MouseUp
| TouchStart (touches : list Touch) (ratio : R)
| TouchMove (touches : list Touch) (ratio : R)
| TouchEnd (ids : list Z)
| KeyDown (k : Key)
| SplatNormalized (x y dx dy : R) (color : option Rgb.t)
| AddRandomSplats (amount : Z)
| Pause
| Resume.

(** The state a callback leaves; a listener that throws leaves what it
    had written so far. *)
Definition handle (e : Event) (st : Sim) : Sim :=
  match e with
  | Tick f => update f st
  | InitialSplats => multipleSplats 20 st
  | MouseDown x y ratio => mousedown x y ratio st
  | MouseMove x y ratio => mousemove x y ratio st
  | MouseUp => mouseup st
  | TouchStart touches ratio => fst (touchstart touches ratio st)
  | TouchMove touches ratio => fst (touchmove touches ratio st)
  | TouchEnd ids => touchend ids st
  | KeyDown k => keydown k st
  | SplatNormalized x y dx dy color =>
      FluidField.splatNormalized x y dx dy color st
  | AddRandomSplats amount => FluidField.addRandomSplats amount st
  | Pause => FluidField.pause st
  | Resume => FluidField.resume st
  end.

Definition run (es : list Event) (st : Sim) : Sim :=
  fold_left (fun s e => handle e s) es st.

(** The frames of a sequence of events all show a canvas that is not
    empty. *)
Definition visibleEvent (e : Event) : Prop :=
  match e with
  | Tick f => visibleFrame f
  | _ => True
  end.

(** The texture objects behind the five targets. *)
Definition textures (st : Sim) : list nat :=
  [texture (read (dye st)); texture (write (dye st));
   texture (read (velocity st)); texture (write (velocity st));
   texture (divergence st); texture (curl st);
   texture (read (pressure st)); texture (write (pressure st))].

(** The eight textures are pairwise distinct objects the script has
    created. *)
Definition distinctTextures (st : Sim) : Prop :=
  NoDup (textures st)
  /\ Forall (fun t => (t < texturesCreated st)%nat) (textures st).

(** Two states with the same textures, up to their order. *)
Definition sameTextures (a b : Sim) : Prop :=
  Permutation (textures a) (textures b)
  /\ texturesCreated a = texturesCreated b.

(** A configuration with another background. *)
Definition withBackground (c : Rgb.t) (transparent : bool) (cfg : Config)
    : Config :=
  mkConfig (SIM_RESOLUTION cfg) (DYE_RESOLUTION cfg)
    (DENSITY_DISSIPATION cfg) (VELOCITY_DISSIPATION cfg) (PRESSURE cfg)
    (PRESSURE_ITERATIONS cfg) (CURL cfg) (SPLAT_RADIUS cfg) (SPLAT_FORCE cfg)
    (SHADING cfg) (COLORFUL cfg) (COLOR_UPDATE_SPEED cfg) c transparent
    (PAUSED cfg).

(** The image of the display pass over the whole canvas. *)
Definition displayed (st : Sim) : list (list vec4) :=
  let ts := mkVec2 (1 / IZR (canvasWidth st)) (1 / IZR (canvasHeight st)) in
  tabulate (canvasWidth st) (canvasHeight st) (fun i j =>
    storeCanvas
      (displayShader (read (dye st)) ts
         (if SHADING (CONFIG st) then 0.65 else 0)
         (baseVertexShader ts
            (fragUv (canvasWidth st) (canvasHeight st) i j)))).

(** The confinement force of [vorticityShader] before it is scaled by the
    curl: the difference of the absolute curls across the texel, divided
    by its length plus 0.0001, the second component negated. *)
Definition confinement (L R T B : R) : vec2 :=
  let force := scale2 0.5 (mkVec2 (Rabs T - Rabs B) (Rabs R - Rabs L)) in
  let force := scale2 (/ (length2 force + 0.0001)) force in
  mkVec2 (v2x force) (v2y force * -1).

(** A field whose first two channels are zero at every texel, and one
    whose first channel is. *)
Definition restXY (t : FBO) : Prop :=
  forall i j, v4x (texel t i j) = 0 /\ v4y (texel t i j) = 0.

Definition zeroX (t : FBO) : Prop := forall i j, v4x (texel t i j) = 0.

(** The state of a tick once the canvas is resized. *)
Definition resized (f : Frame) (st : Sim) : Sim :=
  let s0 := snd (calcDeltaTime (now f) st) in
  if fst (resizeCanvas f s0)
  then initFramebuffers true (snd (resizeCanvas f s0))
  else snd (resizeCanvas f s0).

(** The sizes of the five targets and what [getResolution] reads. *)
Definition gridSizes (st : Sim) :=
  (dwidth (dye st), dheight (dye st), dwidth (velocity st),
   dheight (velocity st),
   (width (divergence st), height (divergence st), width (curl st),
    height (curl st), dwidth (pressure st), dheight (pressure st)),
   (canvasWidth st, canvasHeight st, SIM_RESOLUTION (CONFIG st),
    DYE_RESOLUTION (CONFIG st))).

(** Every target has the size [getResolution] gives for the canvas. *)
Definition gridsMatch (st : Sim) : Prop :=
  let simRes := getResolution (SIM_RESOLUTION (CONFIG st)) st in
  let dyeRes := getResolution (DYE_RESOLUTION (CONFIG st)) st in
  (dwidth (dye st), dheight (dye st)) = dyeRes
  /\ (dwidth (velocity st), dheight (velocity st)) = simRes
  /\ (width (divergence st), height (divergence st)) = simRes
  /\ (width (curl st), height (curl st)) = simRes
  /\ (dwidth (pressure st), dheight (pressure st)) = simRes.

(** The two resolutions of the configuration. *)
Definition resolutions (st : Sim) : Z * Z :=
  (SIM_RESOLUTION (CONFIG st), DYE_RESOLUTION (CONFIG st)).

(** A pointer after a tick: the same but for its colour and its [moved]
    flag. *)
Definition samePointer (p q : Pointer) : Prop :=
  q = setMoved (moved q) (setColor (color q) p).

(** * Properties *)

(** ** Images and sampling *)

Lemma fetch_tabulate (w h : Z) (f : Z -> Z -> vec4) (i j : Z) :
  (0 <= i < w)%Z -> (0 <= j < h)%Z -> fetch (tabulate w h f) i j = f i j.
Proof.
  intros Hi Hj. unfold fetch, tabulate.
  set (row := fun j0 : nat =>
    map (fun i0 : nat => f (Z.of_nat i0) (Z.of_nat j0)) (seq 0 (Z.to_nat w))).
  assert (Hj' : (Z.to_nat j < Z.to_nat h)%nat) by lia.
  assert (Hi' : (Z.to_nat i < Z.to_nat w)%nat) by lia.
  rewrite (nth_indep _ [] (row 0%nat))
    by (rewrite length_map, length_seq; exact Hj').
  rewrite (map_nth row), seq_nth by exact Hj'.
  unfold row.
  rewrite (nth_indep _ zero4 (f (Z.of_nat 0) (Z.of_nat (0 + Z.to_nat j))))
    by (rewrite length_map, length_seq; exact Hi').
  rewrite (map_nth (fun i0 : nat => f (Z.of_nat i0) (Z.of_nat (0 + Z.to_nat j)))).
  rewrite seq_nth by exact Hi'.
  f_equal; lia.
Qed.

Lemma clampZ_inside (n x : Z) : (0 <= x < n)%Z -> clampZ 0 (n - 1) x = x.
Proof. unfold clampZ; lia. Qed.

Lemma mix_0 (a b : vec4) : mix a b 0 = a.
Proof. destruct a; unfold mix; simpl; f_equal; ring. Qed.

Lemma Zfloor_half (i : Z) : Zfloor (IZR i + 0.5) = i.
Proof. apply Zfloor_eq; lra. Qed.

Lemma Zfloor_IZR (i : Z) : Zfloor (IZR i) = i.
Proof. apply Zfloor_eq; lra. Qed.

(** Sampling at the centre of texel [(i, j)] returns that texel, under
    either filter. *)
Lemma texture2D_center (t : FBO) (uv : vec2) (i j : Z) :
  v2x uv * IZR (width t) = IZR i + 0.5 ->
  v2y uv * IZR (height t) = IZR j + 0.5 ->
  texture2D t uv = texel t i j.
Proof.
  intros Hu Hv. unfold texture2D. rewrite Hu, Hv.
  destruct (param t).
  - now rewrite !Zfloor_half.
  - replace (IZR i + 0.5 - 0.5) with (IZR i) by ring.
    replace (IZR j + 0.5 - 0.5) with (IZR j) by ring.
    rewrite !Zfloor_IZR.
    replace (IZR i - IZR i) with 0 by ring.
    replace (IZR j - IZR j) with 0 by ring.
    now rewrite !mix_0.
Qed.

Lemma v4x_storeTexel (f : InternalFormat) (c : vec4) :
  v4x (storeTexel f c) = v4x c.
Proof. now destruct f. Qed.

(** The texels a pass leaves inside the viewport. *)
Lemma texel_renderTo (vw vh : Z) (ts : vec2) (frag : Varyings -> vec4)
    (dst : FBO) (i j : Z) :
  (0 <= i < width dst)%Z -> (0 <= j < height dst)%Z ->
  (i < vw)%Z -> (j < vh)%Z ->
  texel (renderTo vw vh ts frag dst) i j
  = storeTexel (internalFormat dst)
      (frag (baseVertexShader ts (fragUv vw vh i j))).
Proof.
  intros Hi Hj Hvw Hvh. unfold texel, renderTo, drawQuad; simpl.
  rewrite !clampZ_inside by assumption.
  rewrite fetch_tabulate by assumption.
  replace (i <? vw)%Z with true by (symmetry; apply Z.ltb_lt; assumption).
  replace (j <? vh)%Z with true by (symmetry; apply Z.ltb_lt; assumption).
  reflexivity.
Qed.

(** The coordinates [baseVertexShader] derives at the centre of pixel
    [(i, j)], scaled back to texels of a [w] by [h] grid. *)
Lemma fragUv_x (w h i j : Z) :
  (0 < w)%Z -> v2x (fragUv w h i j) * IZR w = IZR i + 0.5.
Proof.
  intros Hw. unfold fragUv; simpl.
  assert (IZR w <> 0) by (apply not_0_IZR; lia). field; assumption.
Qed.

Lemma fragUv_y (w h i j : Z) :
  (0 < h)%Z -> v2y (fragUv w h i j) * IZR h = IZR j + 0.5.
Proof.
  intros Hh. unfold fragUv; simpl.
  assert (IZR h <> 0) by (apply not_0_IZR; lia). field; assumption.
Qed.

(** The five samples of a solver pass: at pixel [(i, j)] of a pass whose
    viewport and [texelSize] are those of a [w] by [h] grid, the varyings
    address the texel itself and its four neighbours. *)
Section Neighbours.
Variables (t : FBO) (w h i j : Z).
Hypothesis Hw : (0 < w)%Z.
Hypothesis Hh : (0 < h)%Z.
Hypothesis Htw : width t = w.
Hypothesis Hth : height t = h.

Let V := baseVertexShader (mkVec2 (1 / IZR w) (1 / IZR h)) (fragUv w h i j).

Lemma sample_C : texture2D t (vUv V) = texel t i j.
Proof.
  apply texture2D_center; rewrite ?Htw, ?Hth; unfold V; simpl vUv;
    [apply fragUv_x | apply fragUv_y]; assumption.
Qed.

Lemma sample_L : texture2D t (vL V) = texel t (i - 1) j.
Proof.
  assert (IZR w <> 0) by (apply not_0_IZR; lia).
  assert (IZR h <> 0) by (apply not_0_IZR; lia).
  apply texture2D_center; rewrite ?Htw, ?Hth; unfold V; simpl;
    rewrite ?minus_IZR; field; assumption.
Qed.

Lemma sample_R : texture2D t (vR V) = texel t (i + 1) j.
Proof.
  assert (IZR w <> 0) by (apply not_0_IZR; lia).
  assert (IZR h <> 0) by (apply not_0_IZR; lia).
  apply texture2D_center; rewrite ?Htw, ?Hth; unfold V; simpl;
    rewrite ?plus_IZR; field; assumption.
Qed.

Lemma sample_T : texture2D t (vT V) = texel t i (j + 1).
Proof.
  assert (IZR w <> 0) by (apply not_0_IZR; lia).
  assert (IZR h <> 0) by (apply not_0_IZR; lia).
  apply texture2D_center; rewrite ?Htw, ?Hth; unfold V; simpl;
    rewrite ?plus_IZR; field; assumption.
Qed.

Lemma sample_B : texture2D t (vB V) = texel t i (j - 1).
Proof.
  assert (IZR w <> 0) by (apply not_0_IZR; lia).
  assert (IZR h <> 0) by (apply not_0_IZR; lia).
  apply texture2D_center; rewrite ?Htw, ?Hth; unfold V; simpl;
    rewrite ?minus_IZR; field; assumption.
Qed.
End Neighbours.

(** The centre sample does not depend on the [texelSize] uniform. *)
Lemma sample_center_any (t : FBO) (ts : vec2) (w h i j : Z) :
  (0 < w)%Z -> (0 < h)%Z -> width t = w -> height t = h ->
  texture2D t (vUv (baseVertexShader ts (fragUv w h i j))) = texel t i j.
Proof.
  intros Hw Hh Htw Hth.
  apply texture2D_center; rewrite ?Htw, ?Hth; simpl vUv;
    [apply fragUv_x | apply fragUv_y]; assumption.
Qed.

(** ** The invariant is kept *)

Lemma okFBO_renderTo (w h vw vh : Z) (ts : vec2) (frag : Varyings -> vec4)
    (t : FBO) :
  okFBO w h t -> okFBO w h (renderTo vw vh ts frag t).
Proof. intros H; exact H. Qed.

Lemma okDouble_drawAndSwap (w h vw vh : Z) (ts : vec2)
    (frag : Varyings -> vec4) (d : DoubleFBO) :
  okDouble w h d -> okDouble w h (drawAndSwap vw vh ts frag d).
Proof.
  intros (H1 & H2 & H3 & H4 & H5 & H6).
  repeat split; simpl; try assumption; try apply H5; try apply H6.
Qed.

Lemma okDouble_simPassSwap (w h : Z) (ts : vec2) (frag : Varyings -> vec4)
    (d : DoubleFBO) (st : Sim) :
  okDouble w h d -> okDouble w h (simPassSwap ts frag d st).
Proof. apply okDouble_drawAndSwap. Qed.

Create HintDb inv.

Local Hint Resolve okFBO_renderTo okDouble_drawAndSwap okDouble_simPassSwap
  : inv.

Ltac inv_stage :=
  let H := fresh "H" in
  intros H; destruct H; constructor; simpl; auto with inv.

Lemma Inv_curlStage (st : Sim) : Inv st -> Inv (curlStage st).
Proof. inv_stage. Qed.

Lemma Inv_vorticityStage (dt : R) (st : Sim) :
  Inv st -> Inv (vorticityStage dt st).
Proof. inv_stage. Qed.

Lemma Inv_divergenceStage (st : Sim) : Inv st -> Inv (divergenceStage st).
Proof. inv_stage. Qed.

Lemma Inv_clearStage (st : Sim) : Inv st -> Inv (clearStage st).
Proof. inv_stage. Qed.

Lemma Inv_pressureIteration (st : Sim) : Inv st -> Inv (pressureIteration st).
Proof. inv_stage. Qed.

Lemma Inv_pressureIterations (n : nat) (st : Sim) :
  Inv st -> Inv (Nat.iter n pressureIteration st).
Proof.
  intros H; induction n; simpl; [assumption | now apply Inv_pressureIteration].
Qed.

Lemma CONFIG_pressureIterations (n : nat) (st : Sim) :
  CONFIG (Nat.iter n pressureIteration st) = CONFIG st.
Proof. induction n; simpl; [reflexivity | assumption]. Qed.

Lemma Inv_pressureStage (st : Sim) : Inv st -> Inv (pressureStage st).
Proof. apply Inv_pressureIterations. Qed.

Lemma Inv_gradientSubtractStage (st : Sim) :
  Inv st -> Inv (gradientSubtractStage st).
Proof. inv_stage. Qed.

Lemma Inv_advectVelocityStage (dt : R) (st : Sim) :
  Inv st -> Inv (advectVelocityStage dt st).
Proof. inv_stage. Qed.

Lemma Inv_advectDyeStage (dt : R) (st : Sim) :
  Inv st -> Inv (advectDyeStage dt st).
Proof. inv_stage. Qed.

Lemma Inv_step (dt : R) (st : Sim) : Inv st -> Inv (step dt st).
Proof.
  intros H. unfold step. destruct (negb (stepProgramsBuilt st)); [assumption|].
  apply Inv_advectDyeStage, Inv_advectVelocityStage,
    Inv_gradientSubtractStage, Inv_pressureStage, Inv_clearStage,
    Inv_divergenceStage, Inv_vorticityStage, Inv_curlStage, H.
Qed.

Lemma stepProgramsBuilt_Inv (st : Sim) : Inv st -> stepProgramsBuilt st = true.
Proof.
  intros H. unfold stepProgramsBuilt. now rewrite !(inv_built st H).
Qed.

Lemma Inv_splat (x y dx dy : R) (c : Rgb.t) (st : Sim) :
  Inv st -> Inv (splat x y dx dy c st).
Proof.
  intros H. unfold splat. rewrite (inv_built st H). cbv beta iota zeta.
  simpl negb. cbv iota. revert H. inv_stage.
Qed.

Lemma Inv_device (a b : Sim) : device a = device b -> Inv a -> Inv b.
Proof.
  unfold device. intros E H. injection E as E1 E2 E3 E4 E5 E6 E7 E8 E9 E10.
  destruct H. constructor; rewrite <- ?E1, <- ?E3, <- ?E4, <- ?E5, <- ?E6,
    <- ?E7, <- ?E8, <- ?E9, <- ?E10; assumption.
Qed.

Lemma device_generateColor (st : Sim) :
  device (snd (generateColor st)) = device st.
Proof. reflexivity. Qed.

Lemma recolor_cons (p : Pointer) (ps : list Pointer) (st : Sim) :
  recolor (p :: ps) st
  = (setColor (fst (generateColor st)) p
       :: fst (recolor ps (snd (generateColor st))),
     snd (recolor ps (snd (generateColor st)))).
Proof.
  simpl. now destruct (recolor ps _).
Qed.

Lemma device_recolor (ps : list Pointer) (st : Sim) :
  device (snd (recolor ps st)) = device st.
Proof.
  revert st. induction ps as [|p ps IH]; intros st; [reflexivity|].
  rewrite recolor_cons. cbn [snd]. now rewrite IH.
Qed.

Lemma device_updateColors (dt : R) (st : Sim) :
  device (updateColors dt st) = device st.
Proof.
  unfold updateColors. destruct (negb (COLORFUL (CONFIG st))); [reflexivity|].
  destruct (Rge_dec _ 1); [|reflexivity].
  match goal with |- context [recolor ?ps ?s] =>
    pose proof (device_recolor ps s) as H; destruct (recolor ps s) as [qs s2]
  end.
  simpl in H. unfold device in *. simpl. exact H.
Qed.

Lemma Inv_updateColors (dt : R) (st : Sim) :
  Inv st -> Inv (updateColors dt st).
Proof. apply Inv_device. symmetry. apply device_updateColors. Qed.

Lemma Inv_generateColor (st : Sim) : Inv st -> Inv (snd (generateColor st)).
Proof. apply Inv_device. symmetry. apply device_generateColor. Qed.

Lemma Inv_randomSplat (st : Sim) : Inv st -> Inv (randomSplat st).
Proof.
  intros H. unfold randomSplat.
  pose proof (Inv_generateColor st H) as H1.
  destruct (generateColor st) as [c st1]. simpl in H1.
  unfold Math_random. apply Inv_splat. revert H1. inv_stage.
Qed.

Lemma Inv_multipleSplats (amount : Z) (st : Sim) :
  Inv st -> Inv (multipleSplats amount st).
Proof.
  intros H. unfold multipleSplats.
  induction (Z.to_nat amount); simpl; [assumption | now apply Inv_randomSplat].
Qed.

Lemma Inv_splatPointer (p : Pointer) (st : Sim) :
  Inv st -> Inv (splatPointer p st).
Proof. intros H. unfold splatPointer. now apply Inv_splat. Qed.

Lemma Inv_splatMoved (ps : list Pointer) (st : Sim) :
  Inv st -> Inv (snd (splatMoved ps st)).
Proof.
  revert st. induction ps as [|p ps IH]; intros st H; simpl; [assumption|].
  destruct (moved p).
  - specialize (IH _ (Inv_splatPointer (setMoved false p) st H)).
    destruct (splatMoved ps _); exact IH.
  - specialize (IH _ H). destruct (splatMoved ps st); exact IH.
Qed.

Lemma Inv_set_pointers (ps : list Pointer) (st : Sim) :
  Inv st -> Inv (set_pointers ps st).
Proof. inv_stage. Qed.

Lemma Inv_set_splatStack (l : list Z) (st : Sim) :
  Inv st -> Inv (set_splatStack l st).
Proof. inv_stage. Qed.

Lemma Inv_applyInputs (st : Sim) : Inv st -> Inv (applyInputs st).
Proof.
  intros H. unfold applyInputs.
  set (st1 := match splatStack st with
              | [] => st
              | amount :: rest => multipleSplats amount (set_splatStack rest st)
              end).
  assert (H1 : Inv st1).
  { unfold st1. destruct (splatStack st); [assumption|].
    now apply Inv_multipleSplats, Inv_set_splatStack. }
  pose proof (Inv_splatMoved (pointers st1) st1 H1) as H2.
  destruct (splatMoved (pointers st1) st1). now apply Inv_set_pointers.
Qed.

Lemma Inv_render (st : Sim) : Inv st -> Inv (render st).
Proof.
  intros H. unfold render.
  destruct (negb (built st colorProgram && built st displayProgram));
    [assumption|].
  destruct (negb (TRANSPARENT (CONFIG st))); revert H; inv_stage.
Qed.

(** ** Allocation *)

Lemma Sim_eta (s : Sim) : set_texturesCreated (texturesCreated s) s = s.
Proof. now destruct s. Qed.

Lemma createFBO_spec (w h : Z) (fmt : InternalFormat) (filt : TexFilter)
    (ex : option FBO) (s : Sim) :
  (forall e, ex = Some e -> okFBO (width e) (height e) e) ->
  okFBO w h (fst (createFBO w h fmt filt ex s))
  /\ exists n, snd (createFBO w h fmt filt ex s) = set_texturesCreated n s.
Proof.
  intros Hex. unfold createFBO.
  assert (Hfresh : forall img, okFBO w h
            (mkFBO (texturesCreated s) (texturesCreated s) w h (1 / IZR w)
               (1 / IZR h) fmt filt img)) by (intros; repeat split).
  destruct ex as [e|].
  - destruct ((width e =? w)%Z && (height e =? h)%Z) eqn:E.
    + apply andb_prop in E. destruct E as [E1 E2].
      apply Z.eqb_eq in E1, E2. specialize (Hex e eq_refl).
      rewrite E1, E2 in Hex. split; [exact Hex|].
      exists (texturesCreated s). symmetry; apply Sim_eta.
    + split; [apply Hfresh | eexists; reflexivity].
  - split; [apply Hfresh | eexists; reflexivity].
Qed.

Lemma createDoubleFBO_spec (w h : Z) (fmt : InternalFormat)
    (filt : TexFilter) (ex : option DoubleFBO) (s : Sim) :
  (forall e, ex = Some e -> okDouble (dwidth e) (dheight e) e) ->
  okDouble w h (fst (createDoubleFBO w h fmt filt ex s))
  /\ exists n,
       snd (createDoubleFBO w h fmt filt ex s) = set_texturesCreated n s.
Proof.
  intros Hex. unfold createDoubleFBO.
  assert (Hfresh :
    okDouble w h (fst (let (fbo1, s1) := createFBO w h fmt filt None s in
                       let (fbo2, s2) := createFBO w h fmt filt None s1 in
                       (mkDoubleFBO w h (texelSizeX fbo1) (texelSizeY fbo1)
                          fbo1 fbo2, s2)))
    /\ exists n,
         snd (let (fbo1, s1) := createFBO w h fmt filt None s in
              let (fbo2, s2) := createFBO w h fmt filt None s1 in
              (mkDoubleFBO w h (texelSizeX fbo1) (texelSizeY fbo1)
                 fbo1 fbo2, s2)) = set_texturesCreated n s).
  { simpl. split; [repeat split | eexists; reflexivity]. }
  destruct ex as [e|]; [|exact Hfresh].
  destruct ((dwidth e =? w)%Z && (dheight e =? h)%Z) eqn:E; [|exact Hfresh].
  apply andb_prop in E. destruct E as [E1 E2].
  apply Z.eqb_eq in E1, E2. specialize (Hex e eq_refl).
  rewrite E1, E2 in Hex. split; [exact Hex|].
  exists (texturesCreated s). symmetry; apply Sim_eta.
Qed.

Lemma Math_round_IZR (n : Z) : Math_round (IZR n) = n.
Proof. apply Zfloor_half. Qed.

Lemma getResolution_pos (res : Z) (st : Sim) :
  (0 < canvasWidth st)%Z -> (0 < canvasHeight st)%Z -> (0 < res)%Z ->
  (0 < fst (getResolution res st))%Z /\ (0 < snd (getResolution res st))%Z.
Proof.
  intros Hw Hh Hres. unfold getResolution. rewrite Math_round_IZR.
  set (a := IZR (canvasWidth st) / IZR (canvasHeight st)).
  assert (Ha : 0 < a).
  { apply Rdiv_lt_0_compat; apply IZR_lt; assumption. }
  set (a' := if Rlt_dec a 1 then 1 / a else a).
  assert (Ha' : 1 <= a').
  { unfold a'. destruct (Rlt_dec a 1) as [Hlt|Hge]; [|lra].
    apply Rmult_le_reg_r with a; [assumption|].
    unfold Rdiv. rewrite Rmult_assoc, Rinv_l by lra. lra. }
  assert (Hmax : (0 < Math_round (IZR res * a'))%Z).
  { unfold Math_round.
    assert (1 <= Zfloor (IZR res * a' + 0.5))%Z; [|lia].
    apply Zfloor_lub.
    assert (1 <= IZR res) by (apply IZR_le; lia).
    assert (IZR res * 1 <= IZR res * a');
      [apply Rmult_le_compat_l; lra | lra]. }
  destruct (canvasHeight st <? canvasWidth st)%Z; simpl; split; assumption.
Qed.
Ltac alloc_double Hd :=
  match goal with
  | |- context [createDoubleFBO ?w ?h ?f ?p ?e ?s] =>
      let Hok := fresh "Hok" in
      let n := fresh "n" in
      let Hn := fresh "Hn" in
      destruct (createDoubleFBO_spec w h f p e s) as [Hok [n Hn]];
      [ intros e0 He0; destruct Hd as [Hd|Hd];
        [ rewrite Hd in He0; discriminate
        | rewrite (proj1 Hd) in He0; injection He0 as <-; simpl;
          apply (proj2 Hd) ]
      | destruct (createDoubleFBO w h f p e s) as [? ?];
        cbn [fst snd] in Hok, Hn; subst ]
  end.

Ltac alloc_single Hd :=
  match goal with
  | |- context [createFBO ?w ?h ?f ?p ?e ?s] =>
      let Hok := fresh "Hok" in
      let n := fresh "n" in
      let Hn := fresh "Hn" in
      destruct (createFBO_spec w h f p e s) as [Hok [n Hn]];
      [ intros e0 He0; destruct Hd as [Hd|Hd];
        [ rewrite Hd in He0; discriminate
        | rewrite (proj1 Hd) in He0; injection He0 as <-; simpl;
          apply (proj2 Hd) ]
      | destruct (createFBO w h f p e s) as [? ?];
        cbn [fst snd] in Hok, Hn; subst ]
  end.

Lemma okFBO_own (w h : Z) (t : FBO) :
  okFBO w h t -> okFBO (width t) (height t) t.
Proof. intros (H1 & H2 & H3 & H4). rewrite H1, H2. now repeat split. Qed.

Lemma okDouble_own (w h : Z) (d : DoubleFBO) :
  okDouble w h d -> okDouble (dwidth d) (dheight d) d.
Proof.
  intros H. pose proof H as (H1 & H2 & _). rewrite H1, H2. exact H.
Qed.

Lemma Inv_initFramebuffers (defined : bool) (st : Sim) :
  (forall p, built st p = true) ->
  (0 < canvasWidth st)%Z -> (0 < canvasHeight st)%Z ->
  (0 < SIM_RESOLUTION (CONFIG st))%Z -> (0 < DYE_RESOLUTION (CONFIG st))%Z ->
  (defined = true -> Inv st) ->
  Inv (initFramebuffers defined st).
Proof.
  intros Hb Hcw Hch Hsr Hdr Hdef.
  destruct (getResolution_pos _ st Hcw Hch Hsr) as [Hsw Hsh].
  destruct (getResolution_pos _ st Hcw Hch Hdr) as [Hdw Hdh].
  assert (Hd : defined = false \/ (defined = true /\ Inv st)).
  { destruct defined; [right; split; auto | now left]. }
  assert (Hd1 : defined = false \/ (defined = true /\
            okDouble (dwidth (dye st)) (dheight (dye st)) (dye st))).
  { destruct Hd as [|[? H]]; [now left | right; split; [assumption|apply H]]. }
  assert (Hd2 : defined = false \/ (defined = true /\
            okDouble (dwidth (velocity st)) (dheight (velocity st))
              (velocity st))).
  { destruct Hd as [|[? H]]; [now left | right; split; [assumption|apply H]]. }
  assert (Hd3 : defined = false \/ (defined = true /\
            okFBO (width (divergence st)) (height (divergence st))
              (divergence st))).
  { destruct Hd as [|[? H]]; [now left | right; split; [assumption|]].
    eapply okFBO_own, H. }
  assert (Hd4 : defined = false \/ (defined = true /\
            okFBO (width (curl st)) (height (curl st)) (curl st))).
  { destruct Hd as [|[? H]]; [now left | right; split; [assumption|]].
    eapply okFBO_own, H. }
  assert (Hd5 : defined = false \/ (defined = true /\
            okDouble (dwidth (pressure st)) (dheight (pressure st))
              (pressure st))).
  { destruct Hd as [|[? H]]; [now left | right; split; [assumption|]].
    eapply okDouble_own, H. }
  unfold initFramebuffers. cbv zeta.
  alloc_double Hd1. alloc_double Hd2. alloc_single Hd3. alloc_single Hd4.
  alloc_double Hd5.
  pose proof Hok as (Ed1 & Ed2 & _). pose proof Hok0 as (Ev1 & Ev2 & _).
  constructor; simpl; rewrite ?Ev1, ?Ev2, ?Ed1, ?Ed2; assumption.
Qed.

Lemma Inv_boot (e : Ext) (mobile : bool) (w h : Z) (rnd : nat -> R) (t0 : Z) :
  (0 < w)%Z -> (0 < h)%Z -> Inv (boot e mobile w h rnd t0).
Proof.
  intros Hw Hh. unfold boot. cbv zeta.
  apply Inv_initFramebuffers; simpl; try assumption; try reflexivity;
    try discriminate.
  destruct (mobile || negb (supportLinearFiltering e)); reflexivity.
Qed.

Lemma Inv_calcDeltaTime (t : Z) (st : Sim) :
  Inv st -> Inv (snd (calcDeltaTime t st)).
Proof. unfold calcDeltaTime; cbn [snd]. inv_stage. Qed.

Lemma Inv_resize (f : Frame) (st : Sim) :
  visibleFrame f -> Inv st ->
  Inv (if fst (resizeCanvas f st)
       then initFramebuffers true (snd (resizeCanvas f st))
       else snd (resizeCanvas f st)).
Proof.
  intros [Hw Hh] H. unfold resizeCanvas.
  destruct (negb (canvasWidth st =? _)%Z || negb (canvasHeight st =? _)%Z);
    cbn [fst snd]; [|assumption].
  assert (H' : Inv (set_canvasHeight
                      (scaleByPixelRatio (IZR (clientHeight f))
                         (devicePixelRatio f))
                      (set_canvasWidth
                         (scaleByPixelRatio (IZR (clientWidth f))
                            (devicePixelRatio f)) st))).
  { destruct H; constructor; simpl; assumption. }
  apply Inv_initFramebuffers; try apply H'; auto.
Qed.

Lemma beforeStep_eq (f : Frame) (st : Sim) :
  beforeStep f st
  = (fst (calcDeltaTime (now f) st),
     applyInputs
       (updateColors (fst (calcDeltaTime (now f) st))
          (if fst (resizeCanvas f (snd (calcDeltaTime (now f) st)))
           then initFramebuffers true
                  (snd (resizeCanvas f (snd (calcDeltaTime (now f) st))))
           else snd (resizeCanvas f (snd (calcDeltaTime (now f) st)))))).
Proof.
  unfold beforeStep. destruct (calcDeltaTime (now f) st) as [dt st1].
  cbn [fst snd]. now destruct (resizeCanvas f st1) as [[|] st2].
Qed.

Lemma update_eq (f : Frame) (st : Sim) :
  update f st
  = render (if negb (PAUSED (CONFIG (snd (beforeStep f st))))
            then step (fst (beforeStep f st)) (snd (beforeStep f st))
            else snd (beforeStep f st)).
Proof. unfold update. now destruct (beforeStep f st). Qed.

Lemma Inv_beforeStep (f : Frame) (st : Sim) :
  visibleFrame f -> Inv st -> Inv (snd (beforeStep f st)).
Proof.
  intros Hf H. rewrite beforeStep_eq. cbn [snd].
  apply Inv_applyInputs, Inv_updateColors, Inv_resize; [assumption|].
  now apply Inv_calcDeltaTime.
Qed.

(** Every tick on a visible canvas keeps the invariant. *)
Lemma Inv_update (f : Frame) (st : Sim) :
  visibleFrame f -> Inv st -> Inv (update f st).
Proof.
  intros Hf H. rewrite update_eq. apply Inv_render.
  pose proof (Inv_beforeStep f st Hf H) as H1.
  destruct (negb _); [now apply Inv_step | assumption].
Qed.

Lemma createFBO_outside (w h : Z) (fmt : InternalFormat) (filt : TexFilter)
    (ex : option FBO) (s : Sim) :
  exists n, snd (createFBO w h fmt filt ex s) = set_texturesCreated n s.
Proof.
  unfold createFBO. destruct ex as [e|]; [|eexists; reflexivity].
  destruct (_ && _); [|eexists; reflexivity].
  exists (texturesCreated s). symmetry; apply Sim_eta.
Qed.

Lemma createDoubleFBO_outside (w h : Z) (fmt : InternalFormat)
    (filt : TexFilter) (ex : option DoubleFBO) (s : Sim) :
  exists n, snd (createDoubleFBO w h fmt filt ex s) = set_texturesCreated n s.
Proof.
  unfold createDoubleFBO. destruct ex as [e|]; [|eexists; reflexivity].
  destruct (_ && _); [|eexists; reflexivity].
  exists (texturesCreated s). symmetry; apply Sim_eta.
Qed.

Lemma outsideFields_initFramebuffers (defined : bool) (st : Sim) :
  outsideFields (initFramebuffers defined st) = outsideFields st.
Proof.
  unfold initFramebuffers. cbv zeta.
  repeat match goal with
  | |- context [createDoubleFBO ?w ?h ?f ?p ?e ?s] =>
      let n := fresh "n" in
      let Hn := fresh "Hn" in
      destruct (createDoubleFBO_outside w h f p e s) as [n Hn];
      destruct (createDoubleFBO w h f p e s) as [? ?];
      cbn [snd] in Hn; subst
  | |- context [createFBO ?w ?h ?f ?p ?e ?s] =>
      let n := fresh "n" in
      let Hn := fresh "Hn" in
      destruct (createFBO_outside w h f p e s) as [n Hn];
      destruct (createFBO w h f p e s) as [? ?];
      cbn [snd] in Hn; subst
  end.
  reflexivity.
Qed.

(** ** The timestep *)

(** C4, as the code has it: the timestep is the elapsed clock time in
    seconds when that is below the clamp, exactly the clamp otherwise, and
    it is the value the solver receives.  It is non-negative when the
    clock reading is not earlier than the previous one; the code applies
    no lower clamp. *)
Theorem calcDeltaTime_clamp (f : Frame) (st : Sim) :
  let elapsed := IZR (now f - lastUpdateTime st) / 1000 in
  let dt := fst (calcDeltaTime (now f) st) in
  (elapsed < maxDeltaTime -> dt = elapsed)
  /\ (maxDeltaTime <= elapsed -> dt = maxDeltaTime)
  /\ dt <= maxDeltaTime
  /\ ((lastUpdateTime st <= now f)%Z -> 0 <= dt)
  /\ lastUpdateTime (snd (calcDeltaTime (now f) st)) = now f
  /\ fst (beforeStep f st) = dt.
Proof.
  cbv zeta. unfold calcDeltaTime; cbn [fst snd].
  repeat split.
  - intros H. apply Rmin_left; lra.
  - intros H. apply Rmin_right; lra.
  - apply Rmin_r.
  - intros H. apply Rmin_glb; [|unfold maxDeltaTime; lra].
    apply Rmult_le_pos; [apply IZR_le; lia | lra].
  - now rewrite beforeStep_eq.
Qed.

Lemma calcDeltaTime_clamp_witness :
  let f := mkFrame 1005 300 150 1 in
  fst (calcDeltaTime (now f) loaded) = 5 / 1000
  /\ 0 <= fst (calcDeltaTime (now f) loaded).
Proof.
  cbv zeta.
  pose proof (calcDeltaTime_clamp (mkFrame 1005 300 150 1) loaded) as H.
  cbv zeta in H. change (lastUpdateTime loaded) with 1000%Z in H.
  cbn [now] in *. destruct H as (H1 & _ & _ & H4 & _).
  split.
  - rewrite H1; [simpl; lra | unfold maxDeltaTime; simpl; lra].
  - apply H4. lia.
Defined.

(** C4 as stated fails: when the clock is set back between two ticks the
    timestep is negative. *)
Lemma calcDeltaTime_negative : fst (calcDeltaTime 0 loaded) < 0.
Proof.
  unfold calcDeltaTime; cbn [fst].
  change (lastUpdateTime loaded) with 1000%Z. unfold maxDeltaTime.
  apply Rle_lt_trans with (IZR (0 - 1000) / 1000); [apply Rmin_l|].
  simpl. lra.
Qed.
Lemma clearStage_texel (st : Sim) (i j : Z) :
  Inv st ->
  (0 <= i < dwidth (velocity st))%Z -> (0 <= j < dheight (velocity st))%Z ->
  texel (read (pressure (clearStage st))) i j
  = storeTexel (internalFormat (write (pressure st)))
      (scale4 (PRESSURE (CONFIG st)) (texel (read (pressure st)) i j)).
Proof.
  intros H Hi Hj.
  destruct (inv_pressure st H) as (_ & _ & _ & _ & (Rw & Rh & _) & (Ww & Wh & _)).
  change (read (pressure (clearStage st)))
    with (renderTo (dwidth (velocity st)) (dheight (velocity st)) (mkVec2 0 0)
            (clearShader (read (pressure st)) (PRESSURE (CONFIG st)))
            (write (pressure st))).
  rewrite texel_renderTo by (rewrite ?Ww, ?Wh; lia).
  unfold clearShader.
  rewrite (sample_center_any _ _ _ _ i j (inv_simWidth st H) (inv_simHeight st H) Rw Rh).
  reflexivity.
Qed.

(** ** Splats: what they change and what they draw *)

Lemma ProgramId_eqb_refl (p : ProgramId) : ProgramId_eqb p p = true.
Proof. now destruct p. Qed.

Lemma ProgramId_eqb_eq (p q : ProgramId) : ProgramId_eqb p q = true <-> p = q.
Proof. split; [destruct p, q; simpl; congruence | intros ->; apply ProgramId_eqb_refl]. Qed.

Lemma countDraws_app (p : ProgramId) (l1 l2 : list DrawCall) :
  countDraws p (l1 ++ l2) = (countDraws p l1 + countDraws p l2)%nat.
Proof. unfold countDraws. now rewrite filter_app, length_app. Qed.

Lemma countDraws_only (p q : ProgramId) (l : list DrawCall) :
  onlyProgram q l ->
  countDraws p l = if ProgramId_eqb q p then length l else 0%nat.
Proof.
  unfold onlyProgram, countDraws. induction 1 as [|d l Hd Hl IH]; simpl.
  - now destruct (ProgramId_eqb q p).
  - rewrite Hd. destruct (ProgramId_eqb q p); simpl; now rewrite IH.
Qed.

Lemma splat_eq (x y dx dy : R) (c : Rgb.t) (st : Sim) :
  built st splatProgram = true ->
  splat x y dx dy c st
  = let aspectRatio := IZR (canvasWidth st) / IZR (canvasHeight st) in
    let radius := correctRadius (SPLAT_RADIUS (CONFIG st) / 100) st in
    set_dye
      (drawAndSwap (dwidth (dye st)) (dheight (dye st)) (mkVec2 0 0)
         (splatShader (read (dye st)) aspectRatio
            (mkVec3 (Rgb.r c) (Rgb.g c) (Rgb.b c)) (mkVec2 x y) radius)
         (dye st))
      (set_velocity
         (drawAndSwap (dwidth (velocity st)) (dheight (velocity st))
            (mkVec2 0 0)
            (splatShader (read (velocity st)) aspectRatio (mkVec3 dx dy 0)
               (mkVec2 x y) radius)
            (velocity st))
         (set_drawCalls
            (drawCalls st
             ++ [mkDrawCall splatProgram (Some (fbo (write (velocity st))));
                 mkDrawCall splatProgram (Some (fbo (write (dye st))))])
            st)).
Proof.
  intros Hb. unfold splat. rewrite Hb. cbv zeta. cbn [negb].
  unfold blit. cbn [drawCalls set_drawCalls set_velocity velocity dye].
  rewrite <- app_assoc. reflexivity.
Qed.

Lemma outsideInputs_splat (x y dx dy : R) (c : Rgb.t) (st : Sim) :
  outsideInputs (splat x y dx dy c st) = outsideInputs st.
Proof.
  unfold splat. destruct (negb (built st splatProgram)); reflexivity.
Qed.

Lemma outsideInputs_randomSplat (st : Sim) :
  outsideInputs (randomSplat st) = outsideInputs st.
Proof.
  unfold randomSplat, generateColor, Math_random. cbv zeta.
  rewrite outsideInputs_splat. reflexivity.
Qed.

Lemma outsideInputs_randomSplats (n : nat) (st : Sim) :
  outsideInputs (Nat.iter n randomSplat st) = outsideInputs st.
Proof.
  induction n; [reflexivity|]. simpl. now rewrite outsideInputs_randomSplat.
Qed.

Lemma outsideInputs_multipleSplats (amount : Z) (st : Sim) :
  outsideInputs (multipleSplats amount st) = outsideInputs st.
Proof. apply outsideInputs_randomSplats. Qed.

Lemma drawCalls_randomSplat (st : Sim) :
  built st splatProgram = true ->
  exists l, drawCalls (randomSplat st) = drawCalls st ++ l
            /\ onlyProgram splatProgram l /\ length l = 2%nat.
Proof.
  intros Hb. unfold randomSplat, generateColor, Math_random. cbv zeta.
  rewrite splat_eq by exact Hb. cbv zeta. cbn [drawCalls set_dye set_velocity
    set_drawCalls set_randomCalls set_paletteIndex velocity dye].
  eexists; split; [reflexivity|]. split; [|reflexivity].
  repeat constructor.
Qed.

Lemma fixed_of_outsideInputs (a b : Sim) :
  outsideInputs a = outsideInputs b -> fixedByInputs a = fixedByInputs b.
Proof. intros E. exact (f_equal (fun x => fst (fst x)) E). Qed.

Lemma built_of_fixed (a b : Sim) :
  fixedByInputs a = fixedByInputs b -> built a = built b.
Proof. unfold fixedByInputs. intros E. now injection E. Qed.

Lemma CONFIG_of_fixed (a b : Sim) :
  fixedByInputs a = fixedByInputs b -> CONFIG a = CONFIG b.
Proof. unfold fixedByInputs. intros E. now injection E. Qed.

Lemma pressure_of_fixed (a b : Sim) :
  fixedByInputs a = fixedByInputs b -> pressure a = pressure b.
Proof. unfold fixedByInputs. intros E. now injection E. Qed.

Lemma built_of_outsideInputs (a b : Sim) :
  outsideInputs a = outsideInputs b -> built a = built b.
Proof. intros E. now apply built_of_fixed, fixed_of_outsideInputs. Qed.

Lemma drawCalls_multipleSplats (amount : Z) (st : Sim) :
  built st splatProgram = true ->
  exists l, drawCalls (multipleSplats amount st) = drawCalls st ++ l
            /\ onlyProgram splatProgram l
            /\ length l = (2 * Z.to_nat amount)%nat.
Proof.
  intros Hb. unfold multipleSplats.
  induction (Z.to_nat amount) as [|n IH].
  - exists []. simpl. rewrite app_nil_r. repeat split. constructor.
  - destruct IH as (l & E & Hl & Hn). simpl Nat.iter.
    destruct (drawCalls_randomSplat (Nat.iter n randomSplat st))
      as (l2 & E2 & Hl2 & Hn2).
    { now rewrite (built_of_outsideInputs _ _
                     (outsideInputs_randomSplats n st)). }
    exists (l ++ l2). rewrite E2, E, app_assoc. split; [reflexivity|].
    split; [apply Forall_app; now split | rewrite length_app; lia].
Qed.

Lemma splatMoved_summary (ps : list Pointer) (st : Sim) :
  built st splatProgram = true ->
  fixedByInputs (snd (splatMoved ps st)) = fixedByInputs st
  /\ splatStack (snd (splatMoved ps st)) = splatStack st
  /\ countMoved (fst (splatMoved ps st)) = 0%nat
  /\ exists l, drawCalls (snd (splatMoved ps st)) = drawCalls st ++ l
               /\ onlyProgram splatProgram l
               /\ length l = (2 * countMoved ps)%nat.
Proof.
  revert st. induction ps as [|p ps IH]; intros st Hb.
  - simpl. repeat split. exists []. rewrite app_nil_r. repeat split.
    constructor.
  - simpl splatMoved. unfold countMoved. simpl filter.
    destruct (moved p) eqn:Hm.
    + set (st1 := splatPointer (setMoved false p) st).
      assert (E1 : outsideInputs st1 = outsideInputs st)
        by (unfold st1, splatPointer; apply outsideInputs_splat).
      assert (Hb1 : built st1 splatProgram = true)
        by now rewrite (built_of_outsideInputs _ _ E1).
      destruct (IH st1 Hb1) as (F & S & M & l & E & Hl & Hn).
      destruct (splatMoved ps st1) as [qs st2]. cbn [fst snd] in *.
      split; [now rewrite F; apply fixed_of_outsideInputs|].
      split; [rewrite S; exact (f_equal (fun x => snd (fst x)) E1)|].
      split; [exact M|].
      unfold st1, splatPointer in E. rewrite splat_eq in E by exact Hb.
      cbv zeta in E. cbn [drawCalls set_dye set_velocity set_drawCalls] in E.
      eexists. split; [rewrite E, <- app_assoc; reflexivity|].
      split; [repeat constructor; exact Hl|].
      simpl length. fold (countMoved ps). lia.
    + destruct (IH st Hb) as (F & S & M & l & E & Hl & Hn).
      destruct (splatMoved ps st) as [qs st2]. cbn [fst snd] in *.
      unfold countMoved. simpl filter. rewrite Hm. fold (countMoved qs).
      repeat split; try assumption.
      exists l. repeat split; assumption.
Qed.

Lemma applyInputs_summary (st : Sim) :
  built st splatProgram = true ->
  fixedByInputs (applyInputs st) = fixedByInputs st
  /\ countMoved (pointers (applyInputs st)) = 0%nat
  /\ splatStack (applyInputs st) = tl (splatStack st)
  /\ exists l, drawCalls (applyInputs st) = drawCalls st ++ l
               /\ onlyProgram splatProgram l
               /\ length l = (2 * pendingSplats st)%nat.
Proof.
  intros Hb. unfold applyInputs, pendingSplats.
  set (st1 := match splatStack st with
              | [] => st
              | amount :: rest => multipleSplats amount (set_splatStack rest st)
              end).
  assert (H1 : fixedByInputs st1 = fixedByInputs st
               /\ pointers st1 = pointers st
               /\ splatStack st1 = tl (splatStack st)
               /\ exists l, drawCalls st1 = drawCalls st ++ l
                  /\ onlyProgram splatProgram l
                  /\ length l
                     = (2 * match splatStack st with
                            | amount :: _ => Z.to_nat amount
                            | [] => 0
                            end)%nat).
  { unfold st1. destruct (splatStack st) as [|amount rest] eqn:Es.
    - do 2 (split; [reflexivity|]). split; [exact Es|].
      exists []. rewrite app_nil_r.
      repeat split. constructor.
    - pose proof (outsideInputs_multipleSplats amount (set_splatStack rest st))
        as E.
      split; [exact (f_equal (fun x => fst (fst x)) E)|].
      split; [exact (f_equal snd E)|].
      split; [exact (f_equal (fun x => snd (fst x)) E)|].
      apply (drawCalls_multipleSplats amount (set_splatStack rest st) Hb). }
  destruct H1 as (F1 & P1 & S1 & l1 & E1 & Hl1 & Hn1).
  assert (Hb1 : built st1 splatProgram = true)
    by now rewrite (built_of_fixed _ _ F1).
  destruct (splatMoved_summary (pointers st1) st1 Hb1)
    as (F & S & M & l & E & Hl & Hn).
  destruct (splatMoved (pointers st1) st1) as [qs st2]. cbn [fst snd] in *.
  split; [unfold fixedByInputs in *; simpl; now rewrite <- F1, <- F|].
  split; [exact M|].
  split; [simpl; now rewrite S|].
  exists (l1 ++ l). simpl. rewrite E, E1, app_assoc. split; [reflexivity|].
  split; [apply Forall_app; now split|].
  rewrite length_app, Hn1, Hn, P1. lia.
Qed.

(** ** The stages of a tick *)

Lemma beforeStep_inputs (f : Frame) (st : Sim) :
  beforeStep f st
  = (fst (calcDeltaTime (now f) st), applyInputs (beforeInputs f st)).
Proof. apply beforeStep_eq. Qed.

Lemma stable_of_outsideFields (a b : Sim) :
  outsideFields a = outsideFields b -> stable a = stable b.
Proof.
  unfold outsideFields, stable. intros E. inversion E. congruence.
Qed.

Lemma stable_of_device (a b : Sim) : device a = device b -> stable a = stable b.
Proof.
  unfold device, stable. intros E. inversion E. congruence.
Qed.

Lemma stable_beforeInputs (f : Frame) (st : Sim) :
  stable (beforeInputs f st) = stable st.
Proof.
  unfold beforeInputs. cbv zeta.
  rewrite (stable_of_device _ _ (device_updateColors _ _)).
  unfold resizeCanvas, calcDeltaTime. cbn [fst snd].
  destruct (negb _ || negb _); cbn [fst snd]; [|reflexivity].
  now rewrite (stable_of_outsideFields _ _ (outsideFields_initFramebuffers _ _)).
Qed.

Lemma resizeCanvas_sameSize (f : Frame) (st : Sim) :
  sameSize f st -> resizeCanvas f st = (false, st).
Proof.
  intros [Hw Hh]. unfold resizeCanvas. rewrite <- Hw, <- Hh.
  now rewrite !Z.eqb_refl.
Qed.

Lemma device_beforeInputs (f : Frame) (st : Sim) :
  sameSize f st -> device (beforeInputs f st) = device st.
Proof.
  intros Hs. unfold beforeInputs. cbv zeta. rewrite device_updateColors.
  rewrite resizeCanvas_sameSize by exact Hs. reflexivity.
Qed.

Lemma Inv_beforeInputs (f : Frame) (st : Sim) :
  visibleFrame f -> Inv st -> Inv (beforeInputs f st).
Proof.
  intros Hf H. unfold beforeInputs. cbv zeta.
  apply Inv_updateColors, Inv_resize; [assumption|].
  now apply Inv_calcDeltaTime.
Qed.

Lemma CONFIG_of_stable (a b : Sim) : stable a = stable b -> CONFIG a = CONFIG b.
Proof. unfold stable. intros E. now injection E. Qed.

Lemma CONFIG_beforeStep (f : Frame) (st : Sim) :
  Inv st -> visibleFrame f -> CONFIG (snd (beforeStep f st)) = CONFIG st.
Proof.
  intros H Hf. rewrite beforeStep_inputs. cbn [snd].
  pose proof (Inv_beforeInputs f st Hf H) as H1.
  destruct (applyInputs_summary _ (inv_built _ H1 splatProgram)) as (F & _).
  rewrite (CONFIG_of_fixed _ _ F).
  apply CONFIG_of_stable, stable_beforeInputs.
Qed.

(** The solver, unfolded for a state whose programs are linked. *)
Lemma step_stages (dt : R) (st : Sim) :
  Inv st ->
  step dt st
  = advectDyeStage dt
      (advectVelocityStage dt
         (gradientSubtractStage
            (pressureStage
               (clearStage
                  (divergenceStage (vorticityStage dt (curlStage st))))))).
Proof.
  intros H. unfold step. now rewrite (stepProgramsBuilt_Inv st H).
Qed.

(** An unpaused tick: inputs, the eight solver stages, the renderer. *)
Lemma update_unpaused (f : Frame) (st : Sim) :
  Inv st -> visibleFrame f -> PAUSED (CONFIG st) = false ->
  update f st
  = render (step (fst (calcDeltaTime (now f) st))
              (applyInputs (beforeInputs f st))).
Proof.
  intros H Hf Hp. rewrite update_eq, (CONFIG_beforeStep f st H Hf), Hp.
  now rewrite beforeStep_inputs.
Qed.

(** A paused tick: inputs and the renderer. *)
Lemma update_paused (f : Frame) (st : Sim) :
  Inv st -> visibleFrame f -> PAUSED (CONFIG st) = true ->
  update f st = render (applyInputs (beforeInputs f st)).
Proof.
  intros H Hf Hp. rewrite update_eq, (CONFIG_beforeStep f st H Hf), Hp.
  now rewrite beforeStep_inputs.
Qed.

(** ** The passes of a tick *)

Lemma countDraws_snoc (p q : ProgramId) (t : option nat) (l : list DrawCall) :
  countDraws p (l ++ [mkDrawCall q t])
  = (countDraws p l + if ProgramId_eqb q p then 1 else 0)%nat.
Proof.
  rewrite countDraws_app. f_equal. unfold countDraws. simpl.
  now destruct (ProgramId_eqb q p).
Qed.

Lemma drawCalls_pressureIterations (p : ProgramId) (n : nat) (st : Sim) :
  countDraws p (drawCalls (Nat.iter n pressureIteration st))
  = (countDraws p (drawCalls st)
     + if ProgramId_eqb pressureProgram p then n else 0)%nat.
Proof.
  induction n as [|n IH]; simpl Nat.iter.
  - destruct (ProgramId_eqb pressureProgram p); lia.
  - change (drawCalls (pressureIteration (Nat.iter n pressureIteration st)))
      with (drawCalls (Nat.iter n pressureIteration st)
            ++ [mkDrawCall pressureProgram
                  (Some (fbo (write (pressure
                                       (Nat.iter n pressureIteration st)))))]).
    rewrite countDraws_snoc, IH.
    destruct (ProgramId_eqb pressureProgram p); lia.
Qed.

Lemma countDraws_step (p : ProgramId) (dt : R) (st : Sim) :
  Inv st ->
  countDraws p (drawCalls (step dt st))
  = (countDraws p (drawCalls st) + solverDraws (CONFIG st) p)%nat.
Proof.
  intros H. rewrite step_stages by exact H.
  unfold advectDyeStage, advectVelocityStage, gradientSubtractStage.
  cbv zeta. cbn [drawCalls set_dye set_velocity blit set_drawCalls].
  rewrite !countDraws_snoc. unfold pressureStage.
  rewrite drawCalls_pressureIterations.
  unfold clearStage, divergenceStage, vorticityStage, curlStage.
  cbv zeta. cbn [drawCalls set_pressure set_divergence set_velocity set_curl
                 blit set_drawCalls CONFIG].
  rewrite !countDraws_snoc.
  destruct p; simpl; lia.
Qed.

Lemma countDraws_render (p : ProgramId) (st : Sim) :
  Inv st ->
  countDraws p (drawCalls (render st))
  = (countDraws p (drawCalls st) + renderDraws (CONFIG st) p)%nat.
Proof.
  intros H. unfold render. rewrite !(inv_built st H). cbn [andb negb].
  unfold drawDisplay, drawColor, drawCanvas, blit. cbv zeta.
  destruct (TRANSPARENT (CONFIG st)) eqn:Et; cbn [negb drawCalls set_screen
    set_drawCalls]; rewrite !countDraws_snoc;
    destruct p; simpl; rewrite ?Et; lia.
Qed.

Lemma countDraws_applyInputs (p : ProgramId) (st : Sim) :
  Inv st ->
  countDraws p (drawCalls (applyInputs st))
  = (countDraws p (drawCalls st)
     + if ProgramId_eqb splatProgram p then 2 * pendingSplats st else 0)%nat.
Proof.
  intros H.
  destruct (applyInputs_summary st (inv_built st H splatProgram))
    as (_ & _ & _ & l & E & Hl & Hn).
  rewrite E, countDraws_app, (countDraws_only p splatProgram l Hl), Hn.
  reflexivity.
Qed.

Lemma drawCalls_of_stable (a b : Sim) :
  stable a = stable b -> drawCalls a = drawCalls b.
Proof. unfold stable. intros E. now injection E. Qed.

(** The draw calls of a whole tick, per program: the splats of the
    inputs, the solver unless paused, the renderer. *)
Lemma countDraws_update (p : ProgramId) (f : Frame) (st : Sim) :
  Inv st -> visibleFrame f ->
  countDraws p (drawCalls (update f st))
  = (countDraws p (drawCalls st)
     + (if ProgramId_eqb splatProgram p
        then 2 * pendingSplats (beforeInputs f st) else 0)
     + (if PAUSED (CONFIG st) then 0 else solverDraws (CONFIG st) p)
     + renderDraws (CONFIG st) p)%nat.
Proof.
  intros H Hf.
  pose proof (Inv_beforeInputs f st Hf H) as H1.
  pose proof (Inv_applyInputs _ H1) as H2.
  assert (C2 : CONFIG (applyInputs (beforeInputs f st)) = CONFIG st).
  { pose proof (CONFIG_beforeStep f st H Hf) as C.
    now rewrite beforeStep_inputs in C. }
  destruct (PAUSED (CONFIG st)) eqn:Hp.
  - rewrite update_paused by assumption.
    rewrite countDraws_render, countDraws_applyInputs by assumption.
    rewrite (drawCalls_of_stable _ _ (stable_beforeInputs f st)), C2. lia.
  - rewrite update_unpaused by assumption.
    rewrite countDraws_render by now apply Inv_step.
    rewrite countDraws_step, countDraws_applyInputs by assumption.
    rewrite (drawCalls_of_stable _ _ (stable_beforeInputs f st)).
    assert (C3 : CONFIG (step (fst (calcDeltaTime (now f) st))
                           (applyInputs (beforeInputs f st))) = CONFIG st).
    { rewrite step_stages by assumption. unfold advectDyeStage,
        advectVelocityStage, gradientSubtractStage, pressureStage.
      cbv zeta. cbn [CONFIG set_dye set_velocity blit set_drawCalls].
      rewrite CONFIG_pressureIterations. exact C2. }
    rewrite C3, C2. lia.
Qed.

(** ** The edges of the domain *)

(** [field] with the decimal literals turned into fractions. *)
Ltac field_dec :=
  unfold Q2R; cbn [QArith_base.Qnum QArith_base.Qden]; field.

Section Edges.
Variables (w h i j : Z).
Hypothesis Hw : (0 < w)%Z.
Hypothesis Hh : (0 < h)%Z.
Hypothesis Hi : (0 <= i < w)%Z.
Hypothesis Hj : (0 <= j < h)%Z.

Let V := baseVertexShader (mkVec2 (1 / IZR w) (1 / IZR h)) (fragUv w h i j).

Lemma vL_x : v2x (vL V) = (IZR i - 0.5) * / IZR w.
Proof.
  assert (IZR w <> 0) by (apply not_0_IZR; lia).
  unfold V; simpl. field_dec; assumption.
Qed.

Lemma vR_x : v2x (vR V) - 1 = (IZR i + 1.5 - IZR w) * / IZR w.
Proof.
  assert (IZR w <> 0) by (apply not_0_IZR; lia).
  unfold V; simpl. field_dec; assumption.
Qed.

Lemma vT_y : v2y (vT V) - 1 = (IZR j + 1.5 - IZR h) * / IZR h.
Proof.
  assert (IZR h <> 0) by (apply not_0_IZR; lia).
  unfold V; simpl. field_dec; assumption.
Qed.

Lemma vB_y : v2y (vB V) = (IZR j - 0.5) * / IZR h.
Proof.
  assert (IZR h <> 0) by (apply not_0_IZR; lia).
  unfold V; simpl. field_dec; assumption.
Qed.

(** The left neighbour falls outside exactly on the first column. *)
Lemma left_edge (A : Type) (a b : A) :
  (if Rlt_dec (v2x (vL V)) 0 then a else b) = if (i =? 0)%Z then a else b.
Proof.
  assert (Hk : 0 < / IZR w) by (apply Rinv_0_lt_compat, IZR_lt; lia).
  rewrite vL_x. destruct (Z.eqb_spec i 0) as [->|Hne].
  - destruct (Rlt_dec _ 0) as [|Hn]; [reflexivity|]. exfalso; apply Hn.
    simpl. nra.
  - destruct (Rlt_dec _ 0) as [Hl|]; [|reflexivity]. exfalso.
    assert (1 <= IZR i) by (apply IZR_le; lia). nra.
Qed.

(** The right neighbour falls outside exactly on the last column. *)
Lemma right_edge (A : Type) (a b : A) :
  (if Rgt_dec (v2x (vR V)) 1 then a else b)
  = if (i =? w - 1)%Z then a else b.
Proof.
  assert (Hk : 0 < / IZR w) by (apply Rinv_0_lt_compat, IZR_lt; lia).
  pose proof vR_x as E. destruct (Z.eqb_spec i (w - 1)) as [Heq|Hne].
  - destruct (Rgt_dec _ 1) as [|Hn]; [reflexivity|]. exfalso; apply Hn.
    rewrite Heq, minus_IZR in E. unfold Rgt. nra.
  - destruct (Rgt_dec _ 1) as [Hl|]; [|reflexivity]. exfalso.
    assert (IZR i + 2 <= IZR w).
    { rewrite <- (plus_IZR i 2). apply IZR_le; lia. }
    unfold Rgt in Hl. nra.
Qed.

(** The upper neighbour falls outside exactly on the last row. *)
Lemma top_edge (A : Type) (a b : A) :
  (if Rgt_dec (v2y (vT V)) 1 then a else b)
  = if (j =? h - 1)%Z then a else b.
Proof.
  assert (Hk : 0 < / IZR h) by (apply Rinv_0_lt_compat, IZR_lt; lia).
  pose proof vT_y as E. destruct (Z.eqb_spec j (h - 1)) as [Heq|Hne].
  - destruct (Rgt_dec _ 1) as [|Hn]; [reflexivity|]. exfalso; apply Hn.
    rewrite Heq, minus_IZR in E. unfold Rgt. nra.
  - destruct (Rgt_dec _ 1) as [Hl|]; [|reflexivity]. exfalso.
    assert (IZR j + 2 <= IZR h).
    { rewrite <- (plus_IZR j 2). apply IZR_le; lia. }
    unfold Rgt in Hl. nra.
Qed.

(** The lower neighbour falls outside exactly on the first row. *)
Lemma bottom_edge (A : Type) (a b : A) :
  (if Rlt_dec (v2y (vB V)) 0 then a else b) = if (j =? 0)%Z then a else b.
Proof.
  assert (Hk : 0 < / IZR h) by (apply Rinv_0_lt_compat, IZR_lt; lia).
  rewrite vB_y. destruct (Z.eqb_spec j 0) as [->|Hne].
  - destruct (Rlt_dec _ 0) as [|Hn]; [reflexivity|]. exfalso; apply Hn.
    simpl. nra.
  - destruct (Rlt_dec _ 0) as [Hl|]; [|reflexivity]. exfalso.
    assert (1 <= IZR j) by (apply IZR_le; lia). nra.
Qed.
End Edges.

(** ** The solver passes, texel by texel *)

Lemma pressureIteration_texel (st : Sim) (i j : Z) :
  Inv st ->
  (0 <= i < dwidth (velocity st))%Z -> (0 <= j < dheight (velocity st))%Z ->
  let p := read (pressure st) in
  v4x (texel (read (pressure (pressureIteration st))) i j)
  = (v4x (texel p (i - 1) j) + v4x (texel p (i + 1) j)
     + v4x (texel p i (j + 1)) + v4x (texel p i (j - 1))
     - v4x (texel (divergence st) i j)) / 4.
Proof.
  intros H Hi Hj p.
  destruct (inv_pressure st H)
    as (_ & _ & _ & _ & (Rw & Rh & _) & (Ww & Wh & _)).
  destruct (inv_divergence st H) as (Dw & Dh & _).
  destruct (inv_velocity st H) as (_ & _ & Tx & Ty & _).
  pose proof (inv_simWidth st H) as Hw. pose proof (inv_simHeight st H) as Hh.
  change (read (pressure (pressureIteration st)))
    with (renderTo (dwidth (velocity st)) (dheight (velocity st))
            (simTexelSize st)
            (pressureShader (read (pressure st)) (divergence st))
            (write (pressure st))).
  rewrite texel_renderTo by (rewrite ?Ww, ?Wh; lia).
  rewrite v4x_storeTexel. unfold pressureShader, simTexelSize. cbv zeta.
  rewrite Tx, Ty.
  rewrite (sample_L _ _ _ i j Hw Hh Rw Rh), (sample_R _ _ _ i j Hw Hh Rw Rh),
    (sample_T _ _ _ i j Hw Hh Rw Rh), (sample_B _ _ _ i j Hw Hh Rw Rh),
    (sample_C _ _ _ i j Hw Hh Dw Dh).
  cbn [v4x]. fold p. lra.
Qed.

Lemma divergenceStage_texel (st : Sim) (i j : Z) :
  Inv st ->
  (0 <= i < dwidth (velocity st))%Z -> (0 <= j < dheight (velocity st))%Z ->
  let u := read (velocity st) in
  let C := texel u i j in
  let L := if (i =? 0)%Z then - v4x C else v4x (texel u (i - 1) j) in
  let R := if (i =? dwidth (velocity st) - 1)%Z
           then - v4x C else v4x (texel u (i + 1) j) in
  let T := if (j =? dheight (velocity st) - 1)%Z
           then - v4y C else v4y (texel u i (j + 1)) in
  let B := if (j =? 0)%Z then - v4y C else v4y (texel u i (j - 1)) in
  v4x (texel (divergence (divergenceStage st)) i j)
  = 0.5 * ((R - L) + (T - B)).
Proof.
  intros H Hi Hj u C L R T B.
  destruct (inv_velocity st H) as (_ & _ & Tx & Ty & (Rw & Rh & _) & _).
  destruct (inv_divergence st H) as (Dw & Dh & _).
  pose proof (inv_simWidth st H) as Hw. pose proof (inv_simHeight st H) as Hh.
  change (divergence (divergenceStage st))
    with (renderTo (dwidth (velocity st)) (dheight (velocity st))
            (simTexelSize st) (divergenceShader (read (velocity st)))
            (divergence st)).
  rewrite texel_renderTo by (rewrite ?Dw, ?Dh; lia).
  rewrite v4x_storeTexel. unfold divergenceShader, simTexelSize. cbv zeta.
  rewrite Tx, Ty.
  rewrite (sample_L _ _ _ i j Hw Hh Rw Rh), (sample_R _ _ _ i j Hw Hh Rw Rh),
    (sample_T _ _ _ i j Hw Hh Rw Rh), (sample_B _ _ _ i j Hw Hh Rw Rh),
    (sample_C _ _ _ i j Hw Hh Rw Rh).
  rewrite (left_edge _ _ i j Hw Hi), (right_edge _ _ i j Hw Hi),
    (top_edge _ _ i j Hh Hj), (bottom_edge _ _ i j Hh Hj).
  cbn [v4x xy v2x v2y]. fold u. fold C. subst L R T B. cbv zeta. lra.
Qed.

Lemma scaleByPixelRatio_one (n : Z) : scaleByPixelRatio (IZR n) 1 = n.
Proof.
  unfold scaleByPixelRatio. destruct (Req_dec_T 1 0) as [E|_]; [lra|].
  rewrite Rmult_1_r. apply Zfloor_IZR.
Qed.

Lemma visible_firstFrame : visibleFrame firstFrame.
Proof.
  unfold visibleFrame, firstFrame; simpl. rewrite !scaleByPixelRatio_one. lia.
Qed.

Lemma Inv_loaded : Inv loaded.
Proof. apply Inv_boot; lia. Qed.

(** ** Divergence *)

(** C3: the divergence pass writes [0.5 * ((R - L) + (T - B))] of the
    velocity's four neighbours at every texel, where a neighbour that
    falls outside the domain is replaced by the negated centre component
    on that axis; at interior texels the four neighbours are the texels
    themselves. *)
Theorem divergence_mirrored_edges (st : Sim) (i j : Z) :
  Inv st ->
  (0 <= i < dwidth (velocity st))%Z -> (0 <= j < dheight (velocity st))%Z ->
  let u := read (velocity st) in
  let w := dwidth (velocity st) in
  let h := dheight (velocity st) in
  let C := texel u i j in
  let L := if (i =? 0)%Z then - v4x C else v4x (texel u (i - 1) j) in
  let R := if (i =? w - 1)%Z then - v4x C else v4x (texel u (i + 1) j) in
  let T := if (j =? h - 1)%Z then - v4y C else v4y (texel u i (j + 1)) in
  let B := if (j =? 0)%Z then - v4y C else v4y (texel u i (j - 1)) in
  v4x (texel (divergence (divergenceStage st)) i j)
  = 0.5 * ((R - L) + (T - B))
  /\ ((0 < i < w - 1)%Z -> (0 < j < h - 1)%Z ->
      v4x (texel (divergence (divergenceStage st)) i j)
      = 0.5 * ((v4x (texel u (i + 1) j) - v4x (texel u (i - 1) j))
               + (v4y (texel u i (j + 1)) - v4y (texel u i (j - 1))))).
Proof.
  intros H Hi Hj u w h C L R T B.
  pose proof (divergenceStage_texel st i j H Hi Hj) as E. cbv zeta in E.
  split; [exact E|].
  intros Hi' Hj'. rewrite E. fold w h.
  destruct (Z.eqb_spec i 0); [lia|]. destruct (Z.eqb_spec i (w - 1)); [lia|].
  destruct (Z.eqb_spec j 0); [lia|]. destruct (Z.eqb_spec j (h - 1)); [lia|].
  reflexivity.
Qed.

Lemma divergence_mirrored_edges_witness :
  let u := read (velocity loaded) in
  v4x (texel (divergence (divergenceStage loaded)) 0 0)
  = 0.5 * (((if (0 =? dwidth (velocity loaded) - 1)%Z
             then - v4x (texel u 0 0) else v4x (texel u (0 + 1) 0))
            - - v4x (texel u 0 0))
           + ((if (0 =? dheight (velocity loaded) - 1)%Z
               then - v4y (texel u 0 0) else v4y (texel u 0 (0 + 1)))
              - - v4y (texel u 0 0))).
Proof.
  pose proof (inv_simWidth loaded Inv_loaded) as Hw.
  pose proof (inv_simHeight loaded Inv_loaded) as Hh.
  apply (divergence_mirrored_edges loaded 0 0 Inv_loaded); lia.
Defined.

(** ** Pressure *)

Lemma pressure_applyInputs (st : Sim) :
  Inv st -> pressure (applyInputs st) = pressure st.
Proof.
  intros H.
  destruct (applyInputs_summary st (inv_built st H splatProgram)) as (F & _).
  now apply pressure_of_fixed.
Qed.

Lemma pressure_of_device (a b : Sim) :
  device a = device b -> pressure a = pressure b.
Proof. unfold device. intros E. inversion E. congruence. Qed.

(** C2: in every unpaused tick the warm-start pass leaves, in the read
    buffer of the pressure, the old pressure multiplied texel by texel by
    [CONFIG.PRESSURE] (0.8 by default, below 1); the old read buffer
    becomes the write buffer, and a texel that was not zero is not reset
    to zero. *)
Theorem pressure_warm_start (f : Frame) (st : Sim) :
  Inv st -> visibleFrame f -> PAUSED (CONFIG st) = false ->
  let dt := fst (calcDeltaTime (now f) st) in
  let s0 := applyInputs (beforeInputs f st) in
  let s3 := divergenceStage (vorticityStage dt (curlStage s0)) in
  update f st
  = render
      (advectDyeStage dt
         (advectVelocityStage dt
            (gradientSubtractStage (pressureStage (clearStage s3)))))
  /\ pressure s3 = pressure (beforeInputs f st)
  /\ (sameSize f st -> pressure s3 = pressure st)
  /\ (forall i j,
        (0 <= i < dwidth (velocity s0))%Z ->
        (0 <= j < dheight (velocity s0))%Z ->
        v4x (texel (read (pressure (clearStage s3))) i j)
        = PRESSURE (CONFIG st) * v4x (texel (read (pressure s3)) i j)
        /\ (PRESSURE (CONFIG st) <> 0 ->
            v4x (texel (read (pressure s3)) i j) <> 0 ->
            v4x (texel (read (pressure (clearStage s3))) i j) <> 0))
  /\ write (pressure (clearStage s3)) = read (pressure s3)
  /\ texture (read (pressure (clearStage s3))) = texture (write (pressure s3))
  /\ PRESSURE defaultConfig = 0.8 /\ PRESSURE defaultConfig < 1.
Proof.
  intros H Hf Hp dt s0 s3.
  pose proof (Inv_beforeInputs f st Hf H) as H1.
  pose proof (Inv_applyInputs _ H1) as H2. fold s0 in H2.
  assert (H3 : Inv s3).
  { unfold s3. now apply Inv_divergenceStage, Inv_vorticityStage,
      Inv_curlStage. }
  assert (C3 : CONFIG s3 = CONFIG st).
  { pose proof (CONFIG_beforeStep f st H Hf) as C.
    rewrite beforeStep_inputs in C. exact C. }
  assert (P3 : pressure s3 = pressure (beforeInputs f st)).
  { change (pressure s3) with (pressure s0). now apply pressure_applyInputs. }
  split.
  { rewrite update_unpaused by assumption. fold dt s0.
    now rewrite step_stages by assumption. }
  split; [exact P3|].
  split.
  { intros Hs. rewrite P3. apply pressure_of_device.
    now apply device_beforeInputs. }
  split.
  { intros i j Hi Hj.
    assert (E : v4x (texel (read (pressure (clearStage s3))) i j)
                = PRESSURE (CONFIG st) * v4x (texel (read (pressure s3)) i j)).
    { rewrite clearStage_texel by assumption.
      rewrite v4x_storeTexel, C3. reflexivity. }
    split; [exact E|]. intros Hk Hx. rewrite E.
    now apply Rmult_integral_contrapositive_currified. }
  split; [reflexivity|]. split; [reflexivity|].
  unfold defaultConfig; cbn [PRESSURE]. split; [reflexivity | lra].
Qed.

Lemma pressure_warm_start_witness :
  let dt := fst (calcDeltaTime (now firstFrame) loaded) in
  let s0 := applyInputs (beforeInputs firstFrame loaded) in
  let s3 := divergenceStage (vorticityStage dt (curlStage s0)) in
  v4x (texel (read (pressure (clearStage s3))) 0 0)
  = PRESSURE (CONFIG loaded) * v4x (texel (read (pressure s3)) 0 0).
Proof.
  intros dt s0 s3.
  pose proof (Inv_applyInputs _
                (Inv_beforeInputs firstFrame loaded visible_firstFrame
                   Inv_loaded)) as H0.
  pose proof (inv_simWidth _ H0) as Hw. pose proof (inv_simHeight _ H0) as Hh.
  destruct (pressure_warm_start firstFrame loaded Inv_loaded
              visible_firstFrame eq_refl) as (_ & _ & _ & E & _).
  apply (E 0%Z 0%Z); lia.
Defined.

Lemma velocity_pressureIterations (n : nat) (st : Sim) :
  velocity (Nat.iter n pressureIteration st) = velocity st.
Proof. induction n; simpl; [reflexivity | assumption]. Qed.

Lemma divergence_pressureIterations (n : nat) (st : Sim) :
  divergence (Nat.iter n pressureIteration st) = divergence st.
Proof. induction n; simpl; [reflexivity | assumption]. Qed.





(** ** Resizing a target *)

Lemma storeTexel_clearColor (fmt : InternalFormat) :
  storeTexel fmt clearColor = clearColor.
Proof. now destruct fmt. Qed.

Lemma createFBO_fresh_texel (w h : Z) (fmt : InternalFormat)
    (filt : TexFilter) (s : Sim) (i j : Z) :
  (0 <= i < w)%Z -> (0 <= j < h)%Z ->
  texel (fst (createFBO w h fmt filt None s)) i j = clearColor.
Proof.
  intros Hi Hj. unfold createFBO, texel. cbn [fst image width height].
  rewrite !clampZ_inside by assumption.
  rewrite fetch_tabulate by assumption. apply storeTexel_clearColor.
Qed.

Lemma createFBO_differ (w h : Z) (fmt : InternalFormat) (filt : TexFilter)
    (e : FBO) (s : Sim) :
  width e <> w \/ height e <> h ->
  createFBO w h fmt filt (Some e) s = createFBO w h fmt filt None s.
Proof.
  intros Hd. unfold createFBO.
  destruct (Z.eqb_spec (width e) w), (Z.eqb_spec (height e) h);
    simpl; try reflexivity. tauto.
Qed.

Lemma createDoubleFBO_differ (w h : Z) (fmt : InternalFormat)
    (filt : TexFilter) (e : DoubleFBO) (s : Sim) :
  dwidth e <> w \/ dheight e <> h ->
  createDoubleFBO w h fmt filt (Some e) s
  = createDoubleFBO w h fmt filt None s.
Proof.
  intros Hd. unfold createDoubleFBO.
  destruct (Z.eqb_spec (dwidth e) w), (Z.eqb_spec (dheight e) h);
    simpl; try reflexivity. tauto.
Qed.

(** C5, as the code has it: a resize to the size the object already has
    returns that very object and allocates nothing; a resize to another
    size allocates new textures, ignores the old object altogether, and
    leaves every texel at the clear colour (0, 0, 0, 1): red, green and
    blue zero, alpha one. *)
Theorem resize_keeps_or_reallocates (w h : Z) (fmt : InternalFormat)
    (filt : TexFilter) (s : Sim) :
  (forall e : FBO,
     (width e = w -> height e = h ->
      createFBO w h fmt filt (Some e) s = (e, s))
     /\ (width e <> w \/ height e <> h ->
         let t := fst (createFBO w h fmt filt (Some e) s) in
         let s' := snd (createFBO w h fmt filt (Some e) s) in
         createFBO w h fmt filt (Some e) s = createFBO w h fmt filt None s
         /\ texture t = texturesCreated s
         /\ texturesCreated s' = S (texturesCreated s)
         /\ width t = w /\ height t = h
         /\ forall i j, (0 <= i < w)%Z -> (0 <= j < h)%Z ->
              texel t i j = mkVec4 0 0 0 1))
  /\ (forall e : DoubleFBO,
        (dwidth e = w -> dheight e = h ->
         createDoubleFBO w h fmt filt (Some e) s = (e, s))
        /\ (dwidth e <> w \/ dheight e <> h ->
            let d := fst (createDoubleFBO w h fmt filt (Some e) s) in
            let s' := snd (createDoubleFBO w h fmt filt (Some e) s) in
            createDoubleFBO w h fmt filt (Some e) s
            = createDoubleFBO w h fmt filt None s
            /\ texture (read d) = texturesCreated s
            /\ texture (write d) = S (texturesCreated s)
            /\ texturesCreated s' = S (S (texturesCreated s))
            /\ dwidth d = w /\ dheight d = h
            /\ forall i j, (0 <= i < w)%Z -> (0 <= j < h)%Z ->
                 texel (read d) i j = mkVec4 0 0 0 1
                 /\ texel (write d) i j = mkVec4 0 0 0 1)).
Proof.
  split; intros e; split.
  - intros Hw Hh. unfold createFBO. now rewrite Hw, Hh, !Z.eqb_refl.
  - intros Hd. cbv zeta. rewrite createFBO_differ by exact Hd.
    repeat split. intros i j Hi Hj. now apply createFBO_fresh_texel.
  - intros Hw Hh. unfold createDoubleFBO. now rewrite Hw, Hh, !Z.eqb_refl.
  - intros Hd. cbv zeta. rewrite createDoubleFBO_differ by exact Hd.
    repeat split.
    + apply (createFBO_fresh_texel w h fmt filt s i j); assumption.
    + apply (createFBO_fresh_texel w h fmt filt
               (set_texturesCreated (S (texturesCreated s)) s) i j);
        assumption.
Qed.

Lemma resize_keeps_or_reallocates_witness :
  createDoubleFBO (dwidth (dye loaded)) (dheight (dye loaded)) RGBA16F LINEAR
    (Some (dye loaded)) loaded
  = (dye loaded, loaded)
  /\ texel (fst (createFBO 128 128 R16F NEAREST
                   (Some (fst (createFBO 64 64 R16F NEAREST None loaded)))
                   loaded)) 0 0
     = mkVec4 0 0 0 1.
Proof.
  split.
  - apply (resize_keeps_or_reallocates (dwidth (dye loaded))
             (dheight (dye loaded)) RGBA16F LINEAR loaded); reflexivity.
  - apply (resize_keeps_or_reallocates 128 128 R16F NEAREST loaded);
      [left; simpl; lia | lia | lia].
Defined.

Lemma getResolution_loaded (res : Z) (st : Sim) :
  canvasWidth st = 300%Z -> canvasHeight st = 150%Z ->
  getResolution res st = ((2 * res)%Z, res).
Proof.
  intros Hw Hh. unfold getResolution. rewrite Hw, Hh.
  assert (Ea : IZR 300 / IZR 150 = 2) by (simpl; lra).
  rewrite Ea. destruct (Rlt_dec 2 1) as [Hlt|_]; [lra|].
  rewrite Math_round_IZR.
  replace (IZR res * 2) with (IZR (2 * res)) by (rewrite mult_IZR; simpl; lra).
  rewrite Math_round_IZR. reflexivity.
Qed.

Lemma dye_loaded_size :
  dwidth (dye loaded) = 2048%Z /\ dheight (dye loaded) = 1024%Z.
Proof.
  set (pre := mkSim (startupConfig false fullExt) fullExt (fun _ => true)
                300 150 [pointerPrototype] []
                (mkDoubleFBO 0 0 0 0 (mkFBO 0 0 0 0 0 0 RGBA NEAREST [])
                   (mkFBO 0 0 0 0 0 0 RGBA NEAREST []))
                (mkDoubleFBO 0 0 0 0 (mkFBO 0 0 0 0 0 0 RGBA NEAREST [])
                   (mkFBO 0 0 0 0 0 0 RGBA NEAREST []))
                (mkFBO 0 0 0 0 0 0 RGBA NEAREST [])
                (mkFBO 0 0 0 0 0 0 RGBA NEAREST [])
                (mkDoubleFBO 0 0 0 0 (mkFBO 0 0 0 0 0 0 RGBA NEAREST [])
                   (mkFBO 0 0 0 0 0 0 RGBA NEAREST []))
                0 1000 0 0 [] [] (fun _ => 0.5) 0).
  change (dwidth (dye loaded)) with (fst (getResolution 1024 pre)).
  change (dheight (dye loaded)) with (snd (getResolution 1024 pre)).
  now rewrite (getResolution_loaded 1024 pre eq_refl eq_refl).
Qed.

(** C5 as stated fails: the dye target reallocated by a resize is not
    cleared to zero, its alpha channel is one. *)
Lemma resize_alpha_not_zero :
  let d := fst (createDoubleFBO 1024 1024 RGBA16F LINEAR (Some (dye loaded))
                  loaded) in
  dwidth (dye loaded) <> 1024%Z
  /\ v4w (texel (read d) 0 0) = 1
  /\ texel (read d) 0 0 <> zero4.
Proof.
  cbv zeta. destruct dye_loaded_size as [Ew Eh].
  split; [rewrite Ew; lia|].
  rewrite createDoubleFBO_differ by (left; rewrite Ew; lia).
  assert (E : texel (read (fst (createDoubleFBO 1024 1024 RGBA16F LINEAR None
                                  loaded))) 0 0 = clearColor).
  { apply (createFBO_fresh_texel 1024 1024 RGBA16F LINEAR loaded 0 0); lia. }
  rewrite E. split; [reflexivity|].
  unfold clearColor, zero4. intros C. injection C as C. lra.
Qed.

(** ** The radius of a splat *)









(** ** The colour generator *)

Lemma afterColors_counters (i : nat) (st : Sim) :
  paletteIndex (afterColors i st) = (paletteIndex st + Z.of_nat i)%Z
  /\ randomCalls (afterColors i st) = (randomCalls st + i)%nat
  /\ random (afterColors i st) = random st.
Proof.
  induction i as [|i (IH1 & IH2 & IH3)].
  - simpl. repeat split; lia.
  - change (afterColors (S i) st)
      with (snd (generateColor (afterColors i st))).
    set (s := afterColors i st) in *.
    change (paletteIndex (snd (generateColor s)))
      with (paletteIndex s + 1)%Z.
    change (randomCalls (snd (generateColor s))) with (S (randomCalls s)).
    change (random (snd (generateColor s))) with (random s).
    rewrite IH1, IH2, IH3. repeat split; lia.
Qed.

Lemma palettePick_round_robin (index : Z) :
  (0 <= index)%Z ->
  palettePick index = nth (Z.to_nat index mod 4) PALETTE (Hsv.mk 0 0 0).
Proof.
  intros H. unfold palettePick. f_equal.
  change (Z.of_nat (length PALETTE)) with 4%Z.
  rewrite Z.rem_mod_nonneg by lia.
  rewrite Z2Nat.inj_mod by lia. reflexivity.
Qed.

Lemma hueJitter_bound (rnd : R) : 0 <= rnd < 1 -> Rabs (hueJitter rnd) <= 0.03.
Proof. intros H. unfold hueJitter. apply Rabs_le. lra. Qed.

(** C8: across consecutive calls of [generateColor] the palette entries
    are taken in round-robin order, the [i]-th call from a state of index
    [start] taking [PALETTE[(start + i) mod 4]], and the hue jitter of
    each call is at most 0.03 in absolute value. *)
Theorem generateColor_round_robin (st : Sim) (i : nat) :
  (0 <= paletteIndex st)%Z ->
  (forall k, 0 <= random st k < 1) ->
  let start := Z.to_nat (paletteIndex st) in
  let jitter := hueJitter (random st (randomCalls st + i)) in
  fst (generateColor (afterColors i st))
  = jitteredColor (nth ((start + i) mod 4) PALETTE (Hsv.mk 0 0 0)) jitter
  /\ Rabs jitter <= 0.03
  /\ paletteIndex (snd (generateColor (afterColors i st)))
     = (paletteIndex st + Z.of_nat i + 1)%Z
  /\ length PALETTE = 4%nat.
Proof.
  intros Hp Hr start jitter.
  destruct (afterColors_counters i st) as (E1 & E2 & E3).
  split.
  { change (fst (generateColor (afterColors i st)))
      with (jitteredColor (palettePick (paletteIndex (afterColors i st)))
              (hueJitter (random (afterColors i st)
                            (randomCalls (afterColors i st))))).
    rewrite E1, E2, E3, palettePick_round_robin by lia.
    unfold start. now rewrite Z2Nat.inj_add, Nat2Z.id by lia. }
  split; [apply hueJitter_bound, Hr|].
  split; [|reflexivity].
  change (paletteIndex (snd (generateColor (afterColors i st))))
    with (paletteIndex (afterColors i st) + 1)%Z.
  now rewrite E1.
Qed.

Lemma generateColor_round_robin_witness :
  fst (generateColor (afterColors 5 loaded))
  = jitteredColor (nth 1 PALETTE (Hsv.mk 0 0 0)) (hueJitter 0.5)
  /\ Rabs (hueJitter 0.5) <= 0.03.
Proof.
  assert (Hr : forall k : nat, 0 <= random loaded k < 1)
    by (intros k; simpl; lra).
  destruct (generateColor_round_robin loaded 5 (Z.le_refl 0) Hr)
    as (E & B & _).
  split; [exact E | exact B].
Defined.

(** ** The colour timer *)

Lemma recolor_generated (ps : list Pointer) (st : Sim) :
  snd (recolor ps st) = afterColors (length ps) st
  /\ length (fst (recolor ps st)) = length ps
  /\ forall k p, nth_error ps k = Some p ->
       nth_error (fst (recolor ps st)) k
       = Some (setColor (fst (generateColor (afterColors k st))) p).
Proof.
  revert st. induction ps as [|q ps IH]; intros st.
  - simpl. repeat split. intros [|k] p; discriminate.
  - rewrite recolor_cons. cbn [fst snd length].
    destruct (IH (snd (generateColor st))) as (E1 & E2 & E3).
    assert (Sh : forall n, afterColors n (snd (generateColor st))
                           = afterColors (S n) st).
    { intros n. unfold afterColors. symmetry. apply Nat.iter_succ_r. }
    split; [now rewrite E1, Sh|]. split; [now rewrite E2|].
    intros [|k] p Hk.
    + cbn [nth_error] in *. injection Hk as <-. reflexivity.
    + cbn [nth_error] in *. rewrite (E3 k p Hk), Sh. reflexivity.
Qed.

Lemma updateColors_below (dt : R) (st : Sim) :
  COLORFUL (CONFIG st) = true ->
  colorUpdateTimer st + dt * COLOR_UPDATE_SPEED (CONFIG st) < 1 ->
  updateColors dt st
  = set_colorUpdateTimer
      (colorUpdateTimer st + dt * COLOR_UPDATE_SPEED (CONFIG st)) st.
Proof.
  intros Hc Ht. unfold updateColors. rewrite Hc. cbn [negb].
  destruct (Rge_dec _ 1) as [Hge|_]; [lra | reflexivity].
Qed.

Lemma updateColors_cross (dt : R) (st : Sim) :
  COLORFUL (CONFIG st) = true ->
  1 <= colorUpdateTimer st + dt * COLOR_UPDATE_SPEED (CONFIG st) ->
  let st' :=
    set_colorUpdateTimer
      (wrap (colorUpdateTimer st + dt * COLOR_UPDATE_SPEED (CONFIG st)) 0 1)
      st in
  updateColors dt st
  = set_pointers (fst (recolor (pointers st) st'))
      (snd (recolor (pointers st) st')).
Proof.
  intros Hc Ht st'. unfold updateColors. rewrite Hc. cbn [negb].
  destruct (Rge_dec _ 1) as [_|Hn]; [|lra].
  fold st'. change (pointers st') with (pointers st).
  now destruct (recolor (pointers st) st').
Qed.

Lemma js_rem_unit (a : R) :
  0 <= a -> js_rem a (1 - 0) = a - IZR (Zfloor a).
Proof.
  intros Ha. unfold js_rem, truncR.
  replace (a / (1 - 0)) with a by (unfold Rdiv; field).
  destruct (Rle_dec 0 a) as [_|Hn]; [ring | lra].
Qed.

Lemma wrap_unit (t : R) : 1 <= t < 2 -> wrap t 0 1 = t - 1.
Proof.
  intros Ht. unfold wrap. cbv zeta.
  destruct (Req_dec_T (1 - 0) 0) as [E|_]; [lra|].
  replace (t - 0) with t by ring.
  assert (F : Zfloor t = 1%Z) by (apply Zfloor_eq; simpl; lra).
  rewrite (js_rem_unit t) by lra. rewrite F.
  replace (t - IZR 1 + (1 - 0)) with t by (simpl; ring).
  rewrite (js_rem_unit t) by lra. rewrite F. simpl. ring.
Qed.

(** C9, as the code has it: with palette cycling on, the pointer colours
    change only in a tick where the accumulated timer reaches 1, and two
    such ticks are never consecutive; in such a tick every pointer of the
    list, whether it is down or not, is given the next generated colour,
    in list order. *)
Theorem updateColors_threshold (dt : R) (st : Sim) :
  let timer := colorUpdateTimer st + dt * COLOR_UPDATE_SPEED (CONFIG st) in
  let st' := updateColors dt st in
  (COLORFUL (CONFIG st) = false -> st' = st)
  /\ (COLORFUL (CONFIG st) = true -> timer < 1 ->
      pointers st' = pointers st
      /\ paletteIndex st' = paletteIndex st
      /\ colorUpdateTimer st' = timer)
  /\ (COLORFUL (CONFIG st) = true -> 1 <= timer ->
      length (pointers st') = length (pointers st)
      /\ (forall k p, nth_error (pointers st) k = Some p ->
            nth_error (pointers st') k
            = Some (setColor
                      (jitteredColor
                         (palettePick (paletteIndex st + Z.of_nat k))
                         (hueJitter (random st (randomCalls st + k)%nat)))
                      p))
      /\ paletteIndex st'
         = (paletteIndex st + Z.of_nat (length (pointers st)))%Z
      /\ colorUpdateTimer st' = wrap timer 0 1)
  /\ (COLORFUL (CONFIG st) = true -> COLOR_UPDATE_SPEED (CONFIG st) = 9 ->
      0 <= colorUpdateTimer st < 1 -> dt <= maxDeltaTime -> 1 <= timer ->
      forall dt', dt' <= maxDeltaTime ->
        colorUpdateTimer st' + dt' * COLOR_UPDATE_SPEED (CONFIG st') < 1).
Proof.
  intros timer st'.
  assert (Cross : COLORFUL (CONFIG st) = true -> 1 <= timer ->
            let s1 := set_colorUpdateTimer (wrap timer 0 1) st in
            st' = set_pointers (fst (recolor (pointers st) s1))
                    (snd (recolor (pointers st) s1))).
  { intros Hc Ht. apply updateColors_cross; assumption. }
  split.
  { intros Hc. unfold st', updateColors. now rewrite Hc. }
  split.
  { intros Hc Ht. unfold st'. rewrite updateColors_below by assumption.
    repeat split. }
  split.
  { intros Hc Ht. rewrite (Cross Hc Ht). cbv zeta.
    set (s1 := set_colorUpdateTimer (wrap timer 0 1) st).
    destruct (recolor_generated (pointers st) s1) as (E1 & E2 & E3).
    destruct (afterColors_counters (length (pointers st)) s1) as (A1 & A2 & A3).
    cbn [pointers set_pointers paletteIndex colorUpdateTimer].
    split; [exact E2|]. split.
    { intros k p Hk. rewrite (E3 k p Hk).
      destruct (afterColors_counters k s1) as (B1 & B2 & B3).
      change (fst (generateColor (afterColors k s1)))
        with (jitteredColor (palettePick (paletteIndex (afterColors k s1)))
                (hueJitter (random (afterColors k s1)
                              (randomCalls (afterColors k s1))))).
      rewrite B1, B2, B3. reflexivity. }
    rewrite E1. split; [exact A1|].
    clear - s1. induction (length (pointers st)) as [|n IH]; [reflexivity|].
    exact IH. }
  intros Hc Hs Ht Hd Hx dt' Hd'.
  assert (Ew : colorUpdateTimer st' = wrap timer 0 1).
  { rewrite (Cross Hc Hx). cbv zeta.
    set (s1 := set_colorUpdateTimer (wrap timer 0 1) st).
    destruct (recolor_generated (pointers st) s1) as (E1 & _).
    cbn [colorUpdateTimer set_pointers]. rewrite E1.
    clear. induction (length (pointers st)) as [|n IH]; [reflexivity|].
    exact IH. }
  assert (Ec : CONFIG st' = CONFIG st).
  { unfold st'. apply CONFIG_of_stable, stable_of_device, device_updateColors. }
  rewrite Ew, Ec, Hs. unfold timer in *. rewrite Hs in *.
  unfold maxDeltaTime in *. rewrite wrap_unit by lra. lra.
Qed.

Lemma Sim_eta_timer (st : Sim) :
  set_colorUpdateTimer (colorUpdateTimer st) st = st.
Proof. now destruct st. Qed.

(** Ticks that stay below the threshold only advance the timer. *)
Lemma updateColors_quiet (k : nat) (dt : R) (st : Sim) :
  COLORFUL (CONFIG st) = true ->
  0 <= dt * COLOR_UPDATE_SPEED (CONFIG st) ->
  colorUpdateTimer st + INR k * (dt * COLOR_UPDATE_SPEED (CONFIG st)) < 1 ->
  Nat.iter k (updateColors dt) st
  = set_colorUpdateTimer
      (colorUpdateTimer st + INR k * (dt * COLOR_UPDATE_SPEED (CONFIG st)))
      st.
Proof.
  intros Hc Hd. induction k as [|k IH]; intros Hk.
  - simpl. rewrite Rmult_0_l, Rplus_0_r. symmetry. apply Sim_eta_timer.
  - rewrite S_INR in Hk. simpl Nat.iter. rewrite IH by nra.
    rewrite updateColors_below.
    + cbn [colorUpdateTimer CONFIG set_colorUpdateTimer].
      match goal with
      | |- set_colorUpdateTimer ?x (set_colorUpdateTimer ?y st) = _ =>
          change (set_colorUpdateTimer x (set_colorUpdateTimer y st))
            with (set_colorUpdateTimer x st)
      end.
      f_equal. rewrite S_INR. ring.
    + exact Hc.
    + cbn [colorUpdateTimer CONFIG set_colorUpdateTimer]. nra.
Qed.

Lemma dueState_eq : dueState = set_colorUpdateTimer 0.9 loaded.
Proof.
  unfold dueState. rewrite updateColors_quiet.
  - change (colorUpdateTimer loaded) with 0.
    change (COLOR_UPDATE_SPEED (CONFIG loaded)) with 9.
    f_equal. simpl. lra.
  - reflexivity.
  - change (COLOR_UPDATE_SPEED (CONFIG loaded)) with 9. lra.
  - change (colorUpdateTimer loaded) with 0.
    change (COLOR_UPDATE_SPEED (CONFIG loaded)) with 9. simpl. lra.
Qed.

(** The first colour of the palette, drawn with the oracle at 0.5. *)
Lemma first_color_red :
  Rgb.r (jitteredColor (palettePick 0) (hueJitter 0.5)) = 0.04.
Proof.
  unfold hueJitter. replace ((0.5 - 0.5) * 0.06) with 0 by lra.
  change (palettePick 0) with (Hsv.mk (195 / 360) 0.95 1).
  unfold jitteredColor. cbn [Hsv.h Hsv.s Hsv.v].
  assert (E : js_rem (195 / 360 + 0 + 1) 1 = 195 / 360).
  { unfold js_rem, truncR.
    destruct (Rle_dec 0 ((195 / 360 + 0 + 1) / 1)) as [_|Hn]; [|lra].
    replace (Zfloor ((195 / 360 + 0 + 1) / 1)) with 1%Z
      by (symmetry; apply Zfloor_eq; simpl; lra).
    simpl. lra. }
  rewrite E. unfold HSVtoRGB. cbv zeta.
  replace (Zfloor (195 / 360 * 6)) with 3%Z
    by (symmetry; apply Zfloor_eq; simpl; lra).
  change (Z.rem 3 6) with 3%Z. cbv iota. unfold Rgb.scale. cbn [Rgb.r].
  lra.
Qed.

Lemma updateColors_threshold_witness :
  nth_error (pointers (updateColors (16 / 1000) dueState)) 0
  = Some (setColor
            (jitteredColor (palettePick (paletteIndex dueState + Z.of_nat 0))
               (hueJitter (random dueState (randomCalls dueState + 0)%nat)))
            pointerPrototype).
Proof.
  destruct (updateColors_threshold (16 / 1000) dueState) as (_ & _ & H & _).
  assert (Hc : COLORFUL (CONFIG dueState) = true).
  { rewrite dueState_eq. reflexivity. }
  assert (Ht : 1 <= colorUpdateTimer dueState
                    + 16 / 1000 * COLOR_UPDATE_SPEED (CONFIG dueState)).
  { rewrite dueState_eq. cbn [colorUpdateTimer CONFIG set_colorUpdateTimer].
    change (COLOR_UPDATE_SPEED (CONFIG loaded)) with 9. lra. }
  destruct (H Hc Ht) as (_ & E & _).
  apply (E 0%nat pointerPrototype).
  rewrite dueState_eq. reflexivity.
Defined.

Lemma dueState_first_pointer :
  nth_error (pointers (updateColors (16 / 1000) dueState)) 0
  = Some (setColor (jitteredColor (palettePick 0) (hueJitter 0.5))
            pointerPrototype).
Proof.
  rewrite dueState_eq. rewrite updateColors_cross.
  - cbv zeta.
    match goal with |- context [recolor ?ps ?s] =>
      destruct (recolor_generated ps s) as (_ & _ & E)
    end.
    cbn [pointers set_pointers]. rewrite (E 0%nat pointerPrototype eq_refl).
    reflexivity.
  - reflexivity.
  - cbn [colorUpdateTimer CONFIG set_colorUpdateTimer].
    change (COLOR_UPDATE_SPEED (CONFIG loaded)) with 9. lra.
Qed.

(** C9 as stated fails: when the timer crosses the threshold the pointer
    of the list that is not down has its colour replaced too. *)
Lemma updateColors_recolors_idle_pointer :
  map down (pointers dueState) = [false]
  /\ map color (pointers (updateColors (16 / 1000) dueState))
     <> map color (pointers dueState).
Proof.
  pose proof dueState_first_pointer as W.
  assert (E3 : pointers dueState = [pointerPrototype])
    by (rewrite dueState_eq; reflexivity).
  rewrite E3. split; [reflexivity|].
  destruct (pointers (updateColors (16 / 1000) dueState)) as [|q qs];
    [discriminate|].
  cbn [nth_error] in W. injection W as ->. cbn [map color setColor].
  intros C.
  apply (f_equal (fun l => match l with c :: _ => Rgb.r c | [] => 0 end)) in C.
  rewrite first_color_red in C.
  cbn [color pointerPrototype Rgb.r] in C. lra.
Qed.

(** ** Splats, texel by texel *)

Lemma splat_velocity (x y dx dy : R) (c : Rgb.t) (st : Sim) :
  Inv st ->
  velocity (splat x y dx dy c st)
  = drawAndSwap (dwidth (velocity st)) (dheight (velocity st)) (mkVec2 0 0)
      (splatShader (read (velocity st))
         (IZR (canvasWidth st) / IZR (canvasHeight st)) (mkVec3 dx dy 0)
         (mkVec2 x y) (correctRadius (SPLAT_RADIUS (CONFIG st) / 100) st))
      (velocity st).
Proof.
  intros H. rewrite splat_eq by apply (inv_built st H). reflexivity.
Qed.


(** The first channel a splat pass leaves in the buffer it wrote. *)
Lemma splat_pass_texel (d : DoubleFBO) (a : R) (c : vec3) (point : vec2)
    (r : R) (i j : Z) :
  okDouble (dwidth d) (dheight d) d ->
  (0 <= i < dwidth d)%Z -> (0 <= j < dheight d)%Z ->
  v4x (texel (read (drawAndSwap (dwidth d) (dheight d) (mkVec2 0 0)
                      (splatShader (read d) a c point r) d)) i j)
  = v4x (texel (read d) i j)
    + splatWeight a point r (fragUv (dwidth d) (dheight d) i j) * v3x c.
Proof.
  intros (_ & _ & _ & _ & (Rw & Rh & _) & (Ww & Wh & _)) Hi Hj.
  change (read (drawAndSwap (dwidth d) (dheight d) (mkVec2 0 0)
                  (splatShader (read d) a c point r) d))
    with (renderTo (dwidth d) (dheight d) (mkVec2 0 0)
            (splatShader (read d) a c point r) (write d)).
  rewrite texel_renderTo by (rewrite ?Ww, ?Wh; lia).
  rewrite v4x_storeTexel. unfold splatShader. cbv zeta.
  rewrite (sample_center_any (read d) (mkVec2 0 0) (dwidth d) (dheight d) i j)
    by (assumption || lia).
  cbn [v4x v3x add3 scale3 xyz vUv baseVertexShader]. ring.
Qed.

Lemma countMoved_recolor (ps : list Pointer) (st : Sim) :
  countMoved (fst (recolor ps st)) = countMoved ps.
Proof.
  revert st. induction ps as [|p ps IH]; intros st; [reflexivity|].
  rewrite recolor_cons. cbn [fst]. unfold countMoved in *. cbn [filter].
  change (moved (setColor (fst (generateColor st)) p)) with (moved p).
  destruct (moved p); cbn [length]; now rewrite IH.
Qed.

Lemma pointers_of_outsideFields (a b : Sim) :
  outsideFields a = outsideFields b -> pointers a = pointers b.
Proof. unfold outsideFields. intros E. inversion E. congruence. Qed.

Lemma splatStack_of_stable (a b : Sim) :
  stable a = stable b -> splatStack a = splatStack b.
Proof. unfold stable. intros E. now injection E. Qed.

(** The splats pending at the inputs of a tick are those pending when
    the tick starts. *)
Lemma pendingSplats_beforeInputs (f : Frame) (st : Sim) :
  pendingSplats (beforeInputs f st) = pendingSplats st.
Proof.
  unfold pendingSplats.
  rewrite (splatStack_of_stable _ _ (stable_beforeInputs f st)). f_equal.
  unfold beforeInputs. cbv zeta.
  set (s2 := if fst (resizeCanvas f _) then _ else _).
  assert (E2 : pointers s2 = pointers st).
  { unfold s2, resizeCanvas, calcDeltaTime. cbn [fst snd].
    destruct (negb _ || negb _); cbn [fst snd]; [|reflexivity].
    now rewrite (pointers_of_outsideFields _ _
                   (outsideFields_initFramebuffers _ _)). }
  rewrite <- E2. unfold updateColors.
  destruct (negb (COLORFUL (CONFIG s2))); [reflexivity|].
  destruct (Rge_dec _ 1); [|reflexivity].
  match goal with |- context [recolor ?ps ?s] =>
    pose proof (countMoved_recolor ps s) as E; destruct (recolor ps s)
  end.
  exact E.
Qed.

Lemma outsideRender_render (st : Sim) :
  outsideRender (render st) = outsideRender st.
Proof.
  unfold render. destruct (negb _); [reflexivity|].
  destruct (negb (TRANSPARENT _)); reflexivity.
Qed.

Lemma fields_of_outsideRender (a b : Sim) :
  outsideRender a = outsideRender b ->
  dye a = dye b /\ velocity a = velocity b /\ divergence a = divergence b
  /\ curl a = curl b /\ pressure a = pressure b /\ pointers a = pointers b
  /\ splatStack a = splatStack b /\ CONFIG a = CONFIG b
  /\ canvasWidth a = canvasWidth b /\ canvasHeight a = canvasHeight b.
Proof. unfold outsideRender. intros E. inversion E. repeat split; congruence. Qed.

Lemma Inv_pause (b : bool) (st : Sim) :
  Inv st -> Inv (set_CONFIG (setPaused b (CONFIG st)) st).
Proof. inv_stage. Qed.



(** ** The paused tick *)

Lemma splatMoved_none (ps : list Pointer) (st : Sim) :
  countMoved ps = 0%nat -> splatMoved ps st = (ps, st).
Proof.
  unfold countMoved. induction ps as [|p ps IH]; [reflexivity|].
  cbn [filter splatMoved]. destruct (moved p); [discriminate|].
  intros Hn. now rewrite IH.
Qed.

Lemma Sim_eta_pointers (st : Sim) : set_pointers (pointers st) st = st.
Proof. now destruct st. Qed.

Lemma applyInputs_idle (st : Sim) : idle st -> applyInputs st = st.
Proof.
  intros [Hs Hm]. unfold applyInputs. rewrite Hs.
  rewrite splatMoved_none by exact Hm. apply Sim_eta_pointers.
Qed.

Lemma idle_beforeInputs (f : Frame) (st : Sim) :
  idle st -> idle (beforeInputs f st).
Proof.
  intros [Hs Hm]. pose proof (pendingSplats_beforeInputs f st) as E.
  unfold pendingSplats in E.
  rewrite (splatStack_of_stable _ _ (stable_beforeInputs f st)), Hs, Hm in E.
  split; [|exact E].
  now rewrite (splatStack_of_stable _ _ (stable_beforeInputs f st)).
Qed.

Lemma fields_of_device (a b : Sim) : device a = device b -> fields a = fields b.
Proof. unfold device, fields. intros E. inversion E. congruence. Qed.

Lemma canvas_of_device (a b : Sim) :
  device a = device b ->
  canvasWidth a = canvasWidth b /\ canvasHeight a = canvasHeight b.
Proof. unfold device. intros E. inversion E. split; congruence. Qed.

(** The canvas after the renderer: every pixel is the display shader's
    colour for the dye being read. *)
Lemma screen_render (st : Sim) (i j : Z) :
  Inv st ->
  (0 <= i < canvasWidth st)%Z -> (0 <= j < canvasHeight st)%Z ->
  let ts := mkVec2 (1 / IZR (canvasWidth st)) (1 / IZR (canvasHeight st)) in
  fetch (screen (render st)) i j
  = storeCanvas
      (displayShader (read (dye st)) ts
         (if SHADING (CONFIG st) then 0.65 else 0)
         (baseVertexShader ts
            (fragUv (canvasWidth st) (canvasHeight st) i j))).
Proof.
  intros H Hi Hj ts. unfold render. rewrite !(inv_built st H).
  cbn [andb negb].
  assert (Li : (i <? canvasWidth st)%Z = true) by (apply Z.ltb_lt; lia).
  assert (Lj : (j <? canvasHeight st)%Z = true) by (apply Z.ltb_lt; lia).
  destruct (negb (TRANSPARENT (CONFIG st)));
    unfold drawDisplay, drawColor, drawCanvas, blit; cbv zeta;
    cbn [screen set_screen set_drawCalls canvasWidth canvasHeight dye CONFIG];
    rewrite fetch_tabulate by assumption; now rewrite Li, Lj.
Qed.

(** A paused tick with nothing pending on a canvas that keeps its size
    leaves the targets as they are, and the same holds of the next. *)
Lemma paused_idle_tick (f : Frame) (st : Sim) :
  Inv st -> visibleFrame f -> PAUSED (CONFIG st) = true ->
  sameSize f st -> idle st ->
  fields (update f st) = fields st
  /\ idle (update f st)
  /\ PAUSED (CONFIG (update f st)) = true
  /\ canvasWidth (update f st) = canvasWidth st
  /\ canvasHeight (update f st) = canvasHeight st.
Proof.
  intros H Hf Hp Hs Hi.
  rewrite update_paused by assumption.
  rewrite applyInputs_idle by now apply idle_beforeInputs.
  destruct (fields_of_outsideRender _ _
              (outsideRender_render (beforeInputs f st)))
    as (Ed & Ev & Edv & Ec & Ep & Epp & Es & Ecf & Ew & Eh).
  pose proof (device_beforeInputs f st Hs) as D.
  pose proof (fields_of_device _ _ D) as F.
  destruct (canvas_of_device _ _ D) as [Cw Ch].
  destruct (idle_beforeInputs f st Hi) as [I1 I2].
  split; [unfold fields in *; now rewrite Ed, Ev, Edv, Ec, Ep|].
  split; [split; [now rewrite Es | now rewrite Epp]|].
  split.
  { rewrite Ecf, (CONFIG_of_stable _ _ (stable_beforeInputs f st)).
    exact Hp. }
  split; congruence.
Qed.

Lemma sameSize_update (f g : Frame) (st : Sim) :
  sameSize g st ->
  canvasWidth (update f st) = canvasWidth st ->
  canvasHeight (update f st) = canvasHeight st ->
  sameSize g (update f st).
Proof. intros [Hw Hh] Ew Eh. split; congruence. Qed.

(** C6, as the code has it: a paused tick draws with no solver program
    and leaves the pressure, divergence and curl targets as the inputs
    stage found them; the input stage and the renderer still run, the
    canvas being redrawn from the dye.  The velocity, dye and pressure
    are identical from one tick to the next when, in addition, no splat is
    pending and the canvas keeps its size. *)
Theorem paused_tick_skips_solver (f : Frame) (st : Sim) :
  Inv st -> visibleFrame f -> PAUSED (CONFIG st) = true ->
  let st' := update f st in
  (forall p, isSolverProgram p = true ->
     countDraws p (drawCalls st') = countDraws p (drawCalls st))
  /\ (pressure st' = pressure (beforeInputs f st)
      /\ divergence st' = divergence (beforeInputs f st)
      /\ curl st' = curl (beforeInputs f st))
  /\ (sameSize f st -> idle st ->
      velocity st' = velocity st /\ dye st' = dye st
      /\ pressure st' = pressure st)
  /\ (sameSize f st -> idle st ->
      forall g, visibleFrame g -> sameSize g st ->
        velocity (update g st') = velocity st'
        /\ dye (update g st') = dye st'
        /\ pressure (update g st') = pressure st')
  /\ countMoved (pointers st') = 0%nat
  /\ countDraws displayProgram (drawCalls st')
     = S (countDraws displayProgram (drawCalls st))
  /\ (forall i j,
        (0 <= i < canvasWidth st')%Z -> (0 <= j < canvasHeight st')%Z ->
        let ts :=
          mkVec2 (1 / IZR (canvasWidth st')) (1 / IZR (canvasHeight st')) in
        fetch (screen st') i j
        = storeCanvas
            (displayShader (read (dye st')) ts
               (if SHADING (CONFIG st) then 0.65 else 0)
               (baseVertexShader ts
                  (fragUv (canvasWidth st') (canvasHeight st') i j)))).
Proof.
  intros H Hf Hp st'.
  pose proof (Inv_beforeInputs f st Hf H) as H1.
  pose proof (Inv_applyInputs _ H1) as H2.
  assert (E : st' = render (applyInputs (beforeInputs f st)))
    by now apply update_paused.
  destruct (fields_of_outsideRender _ _
              (outsideRender_render (applyInputs (beforeInputs f st))))
    as (Ed & Ev & Edv & Ec & Ep & Epp & Es & Ecf & Ew & Eh).
  destruct (applyInputs_summary _ (inv_built _ H1 splatProgram))
    as (F & M & _).
  split.
  { intros p Hsp. unfold st'. rewrite countDraws_update by assumption.
    rewrite Hp.
    destruct p; try discriminate; cbn [ProgramId_eqb renderDraws]; lia. }
  split.
  { rewrite E, Ep, Edv, Ec. unfold fixedByInputs in F. inversion F.
    repeat split; congruence. }
  split.
  { intros Hs Hi.
    destruct (paused_idle_tick f st H Hf Hp Hs Hi) as (Fl & _).
    unfold fields in Fl. fold st' in Fl. inversion Fl. repeat split; congruence. }
  split.
  { intros Hs Hi g Hg Hsg.
    destruct (paused_idle_tick f st H Hf Hp Hs Hi) as (_ & I' & P' & Cw & Ch).
    fold st' in I', P', Cw, Ch.
    assert (Hsg' : sameSize g st') by now apply sameSize_update.
    destruct (paused_idle_tick g st' (Inv_update f st Hf H) Hg P' Hsg' I')
      as (Fl & _).
    unfold fields in Fl. inversion Fl. repeat split; congruence. }
  split; [rewrite E, Epp; exact M|].
  split.
  { unfold st'. rewrite countDraws_update by assumption. rewrite Hp.
    cbn [ProgramId_eqb renderDraws]. lia. }
  intros i j Hi Hj ts. subst ts. revert Hi Hj. rewrite E, Ew, Eh, Ed.
  intros Hi Hj. rewrite screen_render by assumption.
  assert (Ec2 : CONFIG (applyInputs (beforeInputs f st)) = CONFIG st).
  { pose proof (CONFIG_beforeStep f st H Hf) as C.
    now rewrite beforeStep_inputs in C. }
  now rewrite Ec2.
Qed.

Lemma idle_loaded : idle (FluidField.pause loaded).
Proof. split; reflexivity. Qed.

Lemma sameSize_loaded : sameSize firstFrame (FluidField.pause loaded).
Proof.
  unfold sameSize, firstFrame. cbn [clientWidth clientHeight devicePixelRatio].
  rewrite !scaleByPixelRatio_one. split; reflexivity.
Qed.

Lemma paused_tick_skips_solver_witness :
  velocity (update firstFrame (FluidField.pause loaded))
  = velocity (FluidField.pause loaded)
  /\ dye (update firstFrame (FluidField.pause loaded))
     = dye (FluidField.pause loaded)
  /\ pressure (update firstFrame (FluidField.pause loaded))
     = pressure (FluidField.pause loaded).
Proof.
  destruct (paused_tick_skips_solver firstFrame (FluidField.pause loaded)
              (Inv_pause true loaded Inv_loaded) visible_firstFrame eq_refl)
    as (_ & _ & E & _).
  exact (E sameSize_loaded idle_loaded).
Defined.

Lemma createDoubleFBO_fresh_texel (w h : Z) (fmt : InternalFormat)
    (filt : TexFilter) (s : Sim) (i j : Z) :
  (0 <= i < w)%Z -> (0 <= j < h)%Z ->
  texel (read (fst (createDoubleFBO w h fmt filt None s))) i j = clearColor.
Proof.
  intros Hi Hj.
  apply (createFBO_fresh_texel w h fmt filt s i j); assumption.
Qed.

Lemma velocity_first_init (st : Sim) :
  exists s',
    velocity (initFramebuffers false st)
    = fst (createDoubleFBO
             (fst (getResolution (SIM_RESOLUTION (CONFIG st)) st))
             (snd (getResolution (SIM_RESOLUTION (CONFIG st)) st))
             (formatRG (ext st))
             (if supportLinearFiltering (ext st) then LINEAR else NEAREST)
             None s').
Proof.
  unfold initFramebuffers. cbv beta iota zeta.
  match goal with
  | |- context [createDoubleFBO ?w ?h ?f ?p None st] =>
      destruct (createDoubleFBO_outside w h f p None st) as [n Hn];
      destruct (createDoubleFBO w h f p None st) as [d s1];
      cbn [snd] in Hn; subst s1
  end.
  exists (set_dye d (set_texturesCreated n st)).
  match goal with
  | |- context [createDoubleFBO ?w ?h ?f ?p None ?s] =>
      destruct (createDoubleFBO_outside w h f p None s) as [n2 Hn2];
      destruct (createDoubleFBO w h f p None s) as [v s2];
      cbn [snd] in Hn2; subst s2
  end.
  repeat match goal with
  | |- context [createDoubleFBO ?w ?h ?f ?p ?e ?s] =>
      let n := fresh "n" in
      let Hn := fresh "Hn" in
      destruct (createDoubleFBO_outside w h f p e s) as [n Hn];
      destruct (createDoubleFBO w h f p e s) as [? ?];
      cbn [snd] in Hn; subst
  | |- context [createFBO ?w ?h ?f ?p ?e ?s] =>
      let n := fresh "n" in
      let Hn := fresh "Hn" in
      destruct (createFBO_outside w h f p e s) as [n Hn];
      destruct (createFBO w h f p e s) as [? ?];
      cbn [snd] in Hn; subst
  end.
  reflexivity.
Qed.

Lemma velocity_loaded_cleared (i j : Z) :
  (0 <= i < dwidth (velocity loaded))%Z ->
  (0 <= j < dheight (velocity loaded))%Z ->
  texel (read (velocity loaded)) i j = clearColor.
Proof.
  unfold loaded, boot. cbv zeta.
  match goal with |- context [initFramebuffers false ?s] =>
    destruct (velocity_first_init s) as [s' E]
  end.
  rewrite E. intros Hi Hj. apply createDoubleFBO_fresh_texel.
  - unfold createDoubleFBO in Hi. exact Hi.
  - unfold createDoubleFBO in Hj. exact Hj.
Qed.

(** In a paused tick a single moved pointer is splatted. *)
Lemma paused_pointer_splat (f : Frame) (st : Sim) (p : Pointer) :
  Inv st -> visibleFrame f -> PAUSED (CONFIG st) = true ->
  pointers (beforeInputs f st) = [p] -> moved p = true ->
  splatStack st = [] ->
  velocity (update f st)
  = velocity (splatPointer (setMoved false p) (beforeInputs f st)).
Proof.
  intros H Hf Hp Hps Hm Hs. rewrite update_paused by assumption.
  destruct (fields_of_outsideRender _ _
              (outsideRender_render (applyInputs (beforeInputs f st))))
    as (_ & Ev & _).
  rewrite Ev.
  assert (Es : splatStack (beforeInputs f st) = [])
    by now rewrite (splatStack_of_stable _ _ (stable_beforeInputs f st)).
  unfold applyInputs. rewrite Es, Hps. cbn [splatMoved]. rewrite Hm.
  reflexivity.
Qed.

Lemma device_mousedown (x y r : R) (st : Sim) :
  device (mousedown x y r st) = device st.
Proof. unfold mousedown. destruct (pointers st); reflexivity. Qed.

Lemma device_mousemove (x y r : R) (st : Sim) :
  device (mousemove x y r st) = device st.
Proof.
  unfold mousemove. destruct (pointers st) as [|p ps]; [reflexivity|].
  destruct (negb (down p)); reflexivity.
Qed.

(** ** The events keep the invariant *)

Lemma Inv_keydown (k : Key) (st : Sim) : Inv st -> Inv (keydown k st).
Proof.
  intros H. destruct k; cbn [keydown]; [| now apply Inv_pause | assumption].
  unfold Math_random. revert H. inv_stage.
Qed.

Lemma Inv_mousedown (x y r : R) (st : Sim) :
  Inv st -> Inv (mousedown x y r st).
Proof. apply Inv_device. symmetry. apply device_mousedown. Qed.

Lemma Inv_mousemove (x y r : R) (st : Sim) :
  Inv st -> Inv (mousemove x y r st).
Proof. apply Inv_device. symmetry. apply device_mousemove. Qed.

Lemma Inv_mouseup (st : Sim) : Inv st -> Inv (mouseup st).
Proof.
  intros H. unfold mouseup. destruct (pointers st); [assumption|].
  now apply Inv_set_pointers.
Qed.

Lemma Inv_splatNormalized (x y dx dy : R) (c : option Rgb.t) (st : Sim) :
  Inv st -> Inv (FluidField.splatNormalized x y dx dy c st).
Proof.
  intros H. unfold FluidField.splatNormalized. cbv zeta.
  destruct c as [c|]; [now apply Inv_splat|].
  pose proof (Inv_generateColor st H) as H1.
  destruct (generateColor st) as [col st1]. now apply Inv_splat.
Qed.

Lemma Inv_addRandomSplats (n : Z) (st : Sim) :
  Inv st -> Inv (FluidField.addRandomSplats n st).
Proof. apply Inv_multipleSplats. Qed.

Lemma Inv_dragged : Inv dragged.
Proof.
  unfold dragged.
  apply (Inv_device (mousedown 150 75 1 (FluidField.pause loaded)));
    [symmetry; apply device_mousemove|].
  apply (Inv_device (FluidField.pause loaded));
    [symmetry; apply device_mousedown|].
  apply Inv_pause, Inv_loaded.
Qed.

Lemma mousedown_pointer (x y r : R) (st : Sim) (p : Pointer)
    (ps : list Pointer) :
  pointers st = p :: ps ->
  pointers (mousedown x y r st)
  = mkPointer (-1)
      (IZR (scaleByPixelRatio x r) / IZR (canvasWidth st))
      (1 - IZR (scaleByPixelRatio y r) / IZR (canvasHeight st))
      (IZR (scaleByPixelRatio x r) / IZR (canvasWidth st))
      (1 - IZR (scaleByPixelRatio y r) / IZR (canvasHeight st))
      0 0 true false (fst (generateColor st)) :: ps.
Proof. intros E. unfold mousedown. rewrite E. reflexivity. Qed.

Lemma mousemove_pointer (x y r : R) (st : Sim) (p : Pointer)
    (ps : list Pointer) :
  pointers st = p :: ps -> down p = true ->
  pointers (mousemove x y r st)
  = updatePointerMoveData p (IZR (scaleByPixelRatio x r))
      (IZR (scaleByPixelRatio y r)) st :: ps.
Proof. intros E Hd. unfold mousemove. rewrite E, Hd. reflexivity. Qed.

Lemma updatePointerMoveData_moved (p : Pointer) (posX posY : R) (st : Sim) :
  0 < Rabs (deltaX (updatePointerMoveData p posX posY st)) ->
  moved (updatePointerMoveData p posX posY st) = true.
Proof.
  unfold updatePointerMoveData. cbn [deltaX moved]. intros H.
  destruct (Rgt_dec _ 0) as [_|Hn]; [reflexivity | now exfalso; apply Hn].
Qed.

Lemma pointers_dragged :
  exists p, pointers dragged = [p] /\ moved p = true
            /\ deltaX p = 160 / 300 - 150 / 300.
Proof.
  set (s0 := FluidField.pause loaded).
  set (s1 := mousedown 150 75 1 s0).
  assert (E1 : pointers s1
               = [mkPointer (-1)
                    (IZR (scaleByPixelRatio 150 1) / IZR (canvasWidth s0))
                    (1 - IZR (scaleByPixelRatio 75 1) / IZR (canvasHeight s0))
                    (IZR (scaleByPixelRatio 150 1) / IZR (canvasWidth s0))
                    (1 - IZR (scaleByPixelRatio 75 1) / IZR (canvasHeight s0))
                    0 0 true false (fst (generateColor s0))])
    by (apply (mousedown_pointer 150 75 1 s0 pointerPrototype []);
        reflexivity).
  pose proof (mousemove_pointer 160 75 1 s1 _ _ E1 eq_refl) as E2.
  fold dragged in E2.
  destruct (canvas_of_device _ _ (device_mousedown 150 75 1 s0)) as [Cw Ch].
  fold s1 in Cw, Ch.
  change (canvasWidth s0) with 300%Z in *.
  change (canvasHeight s0) with 150%Z in *.
  rewrite !scaleByPixelRatio_one in *.
  eexists. split; [exact E2|].
  assert (Ed : deltaX (updatePointerMoveData
                         (mkPointer (-1) (IZR 150 / IZR 300)
                            (1 - IZR 75 / IZR 150) (IZR 150 / IZR 300)
                            (1 - IZR 75 / IZR 150) 0 0 true false
                            (fst (generateColor s0)))
                         (IZR 160) (IZR 75) s1)
               = 160 / 300 - 150 / 300).
  { unfold updatePointerMoveData, correctDeltaX. cbn [deltaX texcoordX].
    rewrite Cw, Ch.
    destruct (Rlt_dec (IZR 300 / IZR 150) 1) as [Hl|_]; [simpl in Hl; lra|].
    reflexivity. }
  split; [|exact Ed].
  apply updatePointerMoveData_moved. rewrite Ed, Rabs_right; lra.
Qed.

Lemma pointers_beforeInputs (f : Frame) (st : Sim) :
  sameSize f st -> COLORFUL (CONFIG st) = true ->
  colorUpdateTimer st
  + fst (calcDeltaTime (now f) st) * COLOR_UPDATE_SPEED (CONFIG st) < 1 ->
  pointers (beforeInputs f st) = pointers st.
Proof.
  intros Hs Hc Ht. unfold beforeInputs. cbv zeta.
  assert (Hs' : sameSize f (snd (calcDeltaTime (now f) st))) by exact Hs.
  rewrite (resizeCanvas_sameSize _ _ Hs'). cbn [fst snd].
  rewrite updateColors_below; [reflexivity | exact Hc | exact Ht].
Qed.

Lemma velocity_of_device (a b : Sim) :
  device a = device b -> velocity a = velocity b.
Proof.
  intros E. pose proof (fields_of_device _ _ E) as F.
  exact (f_equal (fun t => fst (fst (fst (fst t)))) F).
Qed.

Lemma sameSize_dragged : sameSize firstFrame dragged.
Proof.
  destruct (canvas_of_device _ _ (device_mousemove 160 75 1
              (mousedown 150 75 1 (FluidField.pause loaded)))) as [Cw Ch].
  destruct (canvas_of_device _ _ (device_mousedown 150 75 1
              (FluidField.pause loaded))) as [Cw' Ch'].
  fold dragged in Cw, Ch. destruct sameSize_loaded as [Sw Sh].
  split; congruence.
Qed.

Lemma dragged_device : device dragged = device (FluidField.pause loaded).
Proof. unfold dragged. now rewrite device_mousemove, device_mousedown. Qed.

Lemma dragged_config : CONFIG dragged = CONFIG (FluidField.pause loaded).
Proof. apply CONFIG_of_stable, stable_of_device, dragged_device. Qed.

Lemma velocity_pause (st : Sim) : velocity (FluidField.pause st) = velocity st.
Proof. reflexivity. Qed.

Lemma dragged_velocity : velocity dragged = velocity loaded.
Proof.
  exact (eq_trans (velocity_of_device _ _ dragged_device)
           (velocity_pause loaded)).
Qed.

Lemma dragged_cleared : v4x (texel (read (velocity dragged)) 0 0) = 0.
Proof.
  rewrite dragged_velocity, velocity_loaded_cleared; [reflexivity | |].
  - pose proof (inv_simWidth _ Inv_loaded). lia.
  - pose proof (inv_simHeight _ Inv_loaded). lia.
Qed.

Lemma dragged_stack : splatStack dragged = [].
Proof.
  rewrite (splatStack_of_stable _ _ (stable_of_device _ _ dragged_device)).
  reflexivity.
Qed.

Lemma dragged_timer : colorUpdateTimer dragged = 0.
Proof. reflexivity. Qed.

Lemma dragged_inputs (p : Pointer) :
  pointers dragged = [p] ->
  pointers (beforeInputs firstFrame dragged) = [p].
Proof.
  intros Ep.
  rewrite pointers_beforeInputs; [exact Ep | apply sameSize_dragged | |].
  - rewrite dragged_config. reflexivity.
  - rewrite dragged_timer, dragged_config.
    change (COLOR_UPDATE_SPEED _) with 9.
    pose proof (Rmin_r (IZR (now firstFrame - lastUpdateTime dragged) / 1000)
                  maxDeltaTime) as B.
    unfold calcDeltaTime; cbn [fst]. unfold maxDeltaTime in *. lra.
Qed.

(** C6 as stated fails: in a paused tick a pending pointer move is still
    splatted, so the velocity read after the tick differs from the one
    read before it. *)
Lemma paused_drag_changes_velocity :
  PAUSED (CONFIG dragged) = true
  /\ v4x (texel (read (velocity dragged)) 0 0) = 0
  /\ 0 < v4x (texel (read (velocity (update firstFrame dragged))) 0 0)
  /\ velocity (update firstFrame dragged) <> velocity dragged.
Proof.
  pose proof Inv_dragged as H.
  assert (Hp : PAUSED (CONFIG dragged) = true)
    by (rewrite dragged_config; reflexivity).
  pose proof dragged_cleared as X0.
  destruct pointers_dragged as (p & Ep & Hm & Hd).
  pose proof (dragged_inputs p Ep) as Eps.
  pose proof (Inv_beforeInputs firstFrame dragged visible_firstFrame H) as H1.
  pose proof (velocity_of_device _ _
                (device_beforeInputs firstFrame dragged sameSize_dragged))
    as V1.
  pose proof (eq_trans
                (CONFIG_of_stable _ _ (stable_beforeInputs firstFrame dragged))
                dragged_config) as C1.
  assert (Xn : 0 < v4x (texel (read (velocity (update firstFrame dragged)))
                          0 0)).
  { rewrite (paused_pointer_splat firstFrame dragged p H visible_firstFrame
               Hp Eps Hm dragged_stack).
    unfold splatPointer. rewrite splat_velocity by exact H1.
    rewrite splat_pass_texel.
    - rewrite V1, X0. cbn [v3x deltaX setMoved]. rewrite Hd, C1.
      change (SPLAT_FORCE (CONFIG (FluidField.pause loaded))) with 6000.
      match goal with |- 0 < 0 + splatWeight ?a ?b ?c ?d * _ =>
        assert (0 < splatWeight a b c d) by (unfold splatWeight; apply exp_pos)
      end.
      nra.
    - apply H1.
    - pose proof (inv_simWidth _ H1). lia.
    - pose proof (inv_simHeight _ H1). lia. }
  repeat split; try assumption.
  intros C. rewrite C, X0 in Xn. lra.
Qed.

(** * Further properties *)

(** ** Remainders and wrapping *)

Lemma js_rem_bounds (a b : R) :
  0 < b ->
  (0 <= a -> 0 <= js_rem a b < b) /\ (a < 0 -> - b < js_rem a b <= 0).
Proof.
  intros Hb. unfold js_rem, truncR.
  assert (Ea : a = b * (a / b)) by (field; lra).
  assert (Hk : 0 < / b) by now apply Rinv_0_lt_compat.
  split; intros Ha.
  - assert (Hq : 0 <= a / b) by (unfold Rdiv; nra).
    destruct (Rle_dec 0 (a / b)) as [_|Hn]; [|lra].
    pose proof (Zfloor_bound (a / b)) as B.
    set (q := a / b) in *. set (n := IZR (Zfloor q)) in *. nra.
  - assert (Hq : a / b < 0) by (unfold Rdiv; nra).
    destruct (Rle_dec 0 (a / b)) as [Hn|_]; [lra|].
    pose proof (Zfloor_bound (- (a / b))) as B. rewrite opp_IZR.
    set (q := a / b) in *. set (n := IZR (Zfloor (- q))) in *. nra.
Qed.


Lemma wrap_bounds (value min max : R) :
  min < max -> min <= wrap value min max < max.
Proof.
  intros H. unfold wrap. cbv zeta.
  destruct (Req_dec_T (max - min) 0) as [E|_]; [lra|].
  set (range := max - min). assert (Hr : 0 < range) by (unfold range; lra).
  set (r1 := js_rem (value - min) range).
  assert (B1 : - range < r1 < range).
  { destruct (js_rem_bounds (value - min) range Hr) as [P N].
    unfold r1.
    destruct (Rle_dec 0 (value - min)) as [Hv|Hv];
      [specialize (P Hv) | assert (Hv' : value - min < 0) by lra;
                           specialize (N Hv')]; lra. }
  destruct (js_rem_bounds (r1 + range) range Hr) as [P _].
  assert (Hp : 0 <= r1 + range) by lra. specialize (P Hp).
  assert (Er : range = max - min) by reflexivity.
  lra.
Qed.



(** ** Colours *)

Lemma Zfloor_frac (x : R) : 0 <= x - IZR (Zfloor x) < 1.
Proof. pose proof (Zfloor_bound x). lra. Qed.

Lemma maxChannel_eq (c : Rgb.t) (m : R) :
  (Rgb.r c = m \/ Rgb.g c = m \/ Rgb.b c = m) ->
  Rgb.r c <= m -> Rgb.g c <= m -> Rgb.b c <= m -> maxChannel c = m.
Proof.
  intros H Hr Hg Hb. unfold maxChannel, Rmax.
  repeat destruct (Rle_dec _ _); lra.
Qed.

Lemma minChannel_eq (c : Rgb.t) (m : R) :
  (Rgb.r c = m \/ Rgb.g c = m \/ Rgb.b c = m) ->
  m <= Rgb.r c -> m <= Rgb.g c -> m <= Rgb.b c -> minChannel c = m.
Proof.
  intros H Hr Hg Hb. unfold minChannel, Rmin.
  repeat destruct (Rle_dec _ _); lra.
Qed.

Lemma HSVtoRGB_channels (h s v : R) :
  0 <= s <= 1 -> 0 <= v ->
  maxChannel (HSVtoRGB h s v) = v
  /\ minChannel (HSVtoRGB h s v) = v * (1 - s).
Proof.
  intros Hs Hv. unfold HSVtoRGB. cbv zeta.
  pose proof (Zfloor_frac (h * 6)) as Hf.
  set (f := h * 6 - IZR (Zfloor (h * 6))) in *.
  assert (Hp : v * (1 - s) <= v) by nra.
  assert (Hq : v * (1 - s) <= v * (1 - f * s) <= v) by nra.
  assert (Ht : v * (1 - s) <= v * (1 - (1 - f) * s) <= v) by nra.
  destruct (Z.rem (Zfloor (h * 6)) 6) as [|p|p];
    [| destruct p as [[[p|p|]|[p|p|]|]|[[p|p|]|[p|p|]|]|] |];
    (split; [apply maxChannel_eq | apply minChannel_eq]); cbn [Rgb.r Rgb.g Rgb.b];
    tauto || lra.
Qed.

Lemma channels_between (c : Rgb.t) :
  minChannel c <= Rgb.r c <= maxChannel c
  /\ minChannel c <= Rgb.g c <= maxChannel c
  /\ minChannel c <= Rgb.b c <= maxChannel c.
Proof.
  unfold minChannel, maxChannel, Rmin, Rmax.
  repeat destruct (Rle_dec _ _); lra.
Qed.

(** X2: for a saturation in [[0, 1]] and a non-negative value, the
    largest channel of [HSVtoRGB h s v] is [v] and the smallest is
    [v * (1 - s)], every channel lying between the two, for every hue,
    also outside [[0, 1)]. *)
Theorem HSVtoRGB_extremes (h s v : R) :
  0 <= s <= 1 -> 0 <= v ->
  let c := HSVtoRGB h s v in
  maxChannel c = v /\ minChannel c = v * (1 - s)
  /\ v * (1 - s) <= Rgb.r c <= v /\ v * (1 - s) <= Rgb.g c <= v
  /\ v * (1 - s) <= Rgb.b c <= v.
Proof.
  intros Hs Hv c.
  destruct (HSVtoRGB_channels h s v Hs Hv) as [Emax Emin]. fold c in Emax, Emin.
  pose proof (channels_between c) as B. rewrite Emax, Emin in B.
  split; [exact Emax|]. split; [exact Emin | exact B].
Qed.

Lemma HSVtoRGB_extremes_witness :
  maxChannel (HSVtoRGB (195 / 360) 0.95 1) = 1
  /\ minChannel (HSVtoRGB (195 / 360) 0.95 1) = 1 * (1 - 0.95).
Proof.
  destruct (HSVtoRGB_extremes (195 / 360) 0.95 1) as (E1 & E2 & _);
    [lra | lra |].
  split; [exact E1 | exact E2].
Defined.

Lemma PALETTE_entries (h : Hsv.t) :
  In h PALETTE -> 0 <= Hsv.s h <= 1 /\ 0 <= Hsv.v h <= 1.
Proof.
  unfold PALETTE. cbn [In].
  intros [<-|[<-|[<-|[<-|[]]]]]; cbn [Hsv.s Hsv.v]; lra.
Qed.

Lemma palettePick_In (index : Z) :
  (0 <= index)%Z -> In (palettePick index) PALETTE.
Proof.
  intros H. rewrite palettePick_round_robin by exact H.
  apply nth_In. change (length PALETTE) with 4%nat.
  apply Nat.mod_upper_bound. discriminate.
Qed.

Lemma maxChannel_scale (k : R) (c : Rgb.t) :
  0 <= k -> maxChannel (Rgb.scale k c) = maxChannel c * k.
Proof.
  intros Hk. unfold maxChannel, Rgb.scale, Rmax. cbn [Rgb.r Rgb.g Rgb.b].
  repeat destruct (Rle_dec _ _); nra.
Qed.

Lemma minChannel_scale (k : R) (c : Rgb.t) :
  0 <= k -> minChannel (Rgb.scale k c) = minChannel c * k.
Proof.
  intros Hk. unfold minChannel, Rgb.scale, Rmin. cbn [Rgb.r Rgb.g Rgb.b].
  repeat destruct (Rle_dec _ _); nra.
Qed.

(** X3: with a non-negative palette index, the colour [generateColor]
    returns has the brightness and the saturation of the palette entry it
    picked, whatever the random jitter: its largest channel is
    [0.8 * v], its smallest [0.8 * v * (1 - s)], and every channel lies
    in [[0, 0.8]]. *)
Theorem generateColor_range (st : Sim) :
  (0 <= paletteIndex st)%Z ->
  let pick := palettePick (paletteIndex st) in
  let c := fst (generateColor st) in
  maxChannel c = 0.8 * Hsv.v pick
  /\ minChannel c = 0.8 * Hsv.v pick * (1 - Hsv.s pick)
  /\ 0 <= Rgb.r c <= 0.8 /\ 0 <= Rgb.g c <= 0.8 /\ 0 <= Rgb.b c <= 0.8.
Proof.
  intros Hi pick c.
  destruct (PALETTE_entries pick (palettePick_In _ Hi)) as [Hs Hv].
  change c with (jitteredColor pick
                   (hueJitter (random st (randomCalls st)))).
  unfold jitteredColor.
  set (hue := js_rem _ 1).
  destruct (HSVtoRGB_channels hue (Hsv.s pick) (Hsv.v pick) Hs (proj1 Hv))
    as [Emax Emin].
  assert (Hmax : maxChannel (Rgb.scale 0.8 (HSVtoRGB hue (Hsv.s pick) (Hsv.v pick)))
                 = 0.8 * Hsv.v pick)
    by (rewrite maxChannel_scale, Emax by lra; ring).
  assert (Hmin : minChannel (Rgb.scale 0.8 (HSVtoRGB hue (Hsv.s pick) (Hsv.v pick)))
                 = 0.8 * Hsv.v pick * (1 - Hsv.s pick))
    by (rewrite minChannel_scale, Emin by lra; ring).
  pose proof (channels_between
                (Rgb.scale 0.8 (HSVtoRGB hue (Hsv.s pick) (Hsv.v pick)))) as B.
  rewrite Hmax, Hmin in B.
  split; [exact Hmax|]. split; [exact Hmin|].
  assert (0 <= 0.8 * Hsv.v pick * (1 - Hsv.s pick)) by nra.
  assert (0.8 * Hsv.v pick <= 0.8) by nra.
  lra.
Qed.

Lemma generateColor_range_witness :
  maxChannel (fst (generateColor loaded))
  = 0.8 * Hsv.v (palettePick (paletteIndex loaded)).
Proof. apply (generateColor_range loaded). apply Z.le_refl. Defined.

(** ** The resolution of the grids *)

Lemma Math_round_near (x : R) : - 0.5 < IZR (Math_round x) - x <= 0.5.
Proof. unfold Math_round. pose proof (Zfloor_bound (x + 0.5)). lra. Qed.

Lemma Math_round_ge (n : Z) (x : R) : IZR n <= x -> (n <= Math_round x)%Z.
Proof. intros H. unfold Math_round. apply Zfloor_lub. lra. Qed.

Section Resolution.
Variables (resolution : Z) (st : Sim).
Hypothesis Hw : (0 < canvasWidth st)%Z.
Hypothesis Hh : (0 < canvasHeight st)%Z.
Hypothesis Hres : (0 < resolution)%Z.

Let cw := IZR (canvasWidth st).
Let ch := IZR (canvasHeight st).

Lemma aspect_facts :
  0 < cw /\ 0 < ch /\ 1 <= IZR resolution /\ cw = ch * (cw / ch)
  /\ ch / cw = 1 / (cw / ch) /\ 0 < cw / ch.
Proof.
  assert (Pw : 0 < cw) by (apply IZR_lt; exact Hw).
  assert (Ph : 0 < ch) by (apply IZR_lt; exact Hh).
  repeat split; try assumption.
  - apply IZR_le; lia.
  - field; lra.
  - field; lra.
  - apply Rdiv_lt_0_compat; assumption.
Qed.

(** A canvas wider than tall. *)
Lemma getResolution_wide :
  (canvasHeight st < canvasWidth st)%Z ->
  snd (getResolution resolution st) = resolution
  /\ (resolution <= fst (getResolution resolution st))%Z
  /\ - 0.5 < IZR (fst (getResolution resolution st))
              - IZR resolution * (cw / ch) <= 0.5.
Proof.
  intros Hc. destruct aspect_facts as (Pw & Ph & Pr & Ea & Ei & Pa).
  unfold getResolution. rewrite Math_round_IZR. fold cw. fold ch.
  replace (canvasHeight st <? canvasWidth st)%Z with true
    by (symmetry; apply Z.ltb_lt; exact Hc).
  cbn [fst snd].
  assert (Lt : ch < cw) by (apply IZR_lt; exact Hc).
  destruct (Rlt_dec (cw / ch) 1) as [Hl|_]; [nra|].
  split; [reflexivity|].
  split; [apply Math_round_ge; nra | apply Math_round_near].
Qed.

(** A canvas that is square or taller than wide. *)
Lemma getResolution_tall :
  (canvasWidth st <= canvasHeight st)%Z ->
  fst (getResolution resolution st) = resolution
  /\ (resolution <= snd (getResolution resolution st))%Z
  /\ - 0.5 < IZR (snd (getResolution resolution st))
              - IZR resolution * (ch / cw) <= 0.5.
Proof.
  intros Hc. destruct aspect_facts as (Pw & Ph & Pr & Ea & Ei & Pa).
  unfold getResolution. rewrite Math_round_IZR. fold cw. fold ch.
  replace (canvasHeight st <? canvasWidth st)%Z with false
    by (symmetry; apply Z.ltb_ge; exact Hc).
  cbn [fst snd].
  assert (Le : cw <= ch) by (apply IZR_le; exact Hc).
  assert (P1 : 1 <= ch / cw).
  { apply Rmult_le_reg_r with cw; [exact Pw|].
    unfold Rdiv. rewrite Rmult_assoc, Rinv_l by lra. lra. }
  destruct (Rlt_dec (cw / ch) 1) as [Hl|Hn].
  - rewrite <- Ei. split; [reflexivity|].
    split; [apply Math_round_ge; nra | apply Math_round_near].
  - assert (E1 : cw / ch = ch / cw).
    { assert (Ec : cw = ch) by nra. rewrite <- Ec. reflexivity. }
    rewrite E1. split; [reflexivity|].
    split; [apply Math_round_ge; nra | apply Math_round_near].
Qed.
End Resolution.



(** ** Pointer moves *)

Lemma correctDeltaX_small (delta : R) (st : Sim) :
  (0 < canvasWidth st)%Z -> (0 < canvasHeight st)%Z ->
  Rabs (correctDeltaX delta st) <= Rabs delta
  /\ (correctDeltaX delta st = 0 <-> delta = 0).
Proof.
  intros Hw Hh. unfold correctDeltaX. cbv zeta.
  assert (Pa : 0 < IZR (canvasWidth st) / IZR (canvasHeight st))
    by (apply Rdiv_lt_0_compat; apply IZR_lt; assumption).
  set (a := IZR (canvasWidth st) / IZR (canvasHeight st)) in *.
  destruct (Rlt_dec a 1) as [Ha|Ha]; [|split; [lra | tauto]].
  split.
  - rewrite Rabs_mult, (Rabs_right a) by lra.
    pose proof (Rabs_pos delta). nra.
  - split; intros E; [|subst; ring].
    destruct (Rmult_integral _ _ E); lra.
Qed.

Lemma correctDeltaY_small (delta : R) (st : Sim) :
  (0 < canvasWidth st)%Z -> (0 < canvasHeight st)%Z ->
  Rabs (correctDeltaY delta st) <= Rabs delta
  /\ (correctDeltaY delta st = 0 <-> delta = 0).
Proof.
  intros Hw Hh. unfold correctDeltaY. cbv zeta.
  assert (Pa : 0 < IZR (canvasWidth st) / IZR (canvasHeight st))
    by (apply Rdiv_lt_0_compat; apply IZR_lt; assumption).
  set (a := IZR (canvasWidth st) / IZR (canvasHeight st)) in *.
  destruct (Rgt_dec a 1) as [Ha|Ha]; [|split; [lra | tauto]].
  assert (Pi : 0 < / a < 1).
  { split; [now apply Rinv_0_lt_compat|].
    rewrite <- Rinv_1. apply Rinv_lt_contravar; lra. }
  unfold Rdiv. split.
  - rewrite Rabs_mult, (Rabs_right (/ a)) by lra.
    pose proof (Rabs_pos delta). nra.
  - split; intros E; [|subst; ring].
    destruct (Rmult_integral _ _ E); lra.
Qed.

Lemma Rabs_gt_0_dec (x : R) :
  (if Rgt_dec (Rabs x) 0 then true else false) = true <-> x <> 0.
Proof.
  destruct (Rgt_dec (Rabs x) 0) as [H|H].
  - split; [|reflexivity]. intros _ E. subst. rewrite Rabs_R0 in H. lra.
  - split; [discriminate|]. intros Hx. exfalso. apply H.
    now apply Rabs_pos_lt.
Qed.

Lemma moved_updatePointerMoveData (p : Pointer) (posX posY : R) (st : Sim) :
  (0 < canvasWidth st)%Z -> (0 < canvasHeight st)%Z ->
  let q := updatePointerMoveData p posX posY st in
  moved q = true
  <-> texcoordX q <> texcoordX p \/ texcoordY q <> texcoordY p.
Proof.
  intros Hw Hh q. subst q. unfold updatePointerMoveData.
  cbn [moved texcoordX texcoordY].
  set (tx := posX / IZR (canvasWidth st)).
  set (ty := 1 - posY / IZR (canvasHeight st)).
  destruct (correctDeltaX_small (tx - texcoordX p) st Hw Hh) as [_ Zx].
  destruct (correctDeltaY_small (ty - texcoordY p) st Hw Hh) as [_ Zy].
  pose proof (Rabs_gt_0_dec (correctDeltaX (tx - texcoordX p) st)) as Dx.
  pose proof (Rabs_gt_0_dec (correctDeltaY (ty - texcoordY p) st)) as Dy.
  destruct (Rgt_dec (Rabs (correctDeltaX (tx - texcoordX p) st)) 0) as [Gx|Gx].
  - split; [|reflexivity]. intros _. left. intros E.
    apply (proj1 Dx eq_refl), Zx. lra.
  - destruct (Rgt_dec (Rabs (correctDeltaY (ty - texcoordY p) st)) 0)
      as [Gy|Gy].
    + split; [|reflexivity]. intros _. right. intros E.
      apply (proj1 Dy eq_refl), Zy. lra.
    + split; [discriminate|]. intros [N|N]; exfalso.
      * assert (Hn : correctDeltaX (tx - texcoordX p) st <> 0)
          by (intros E; apply N; apply Zx in E; lra).
        apply Dx in Hn. discriminate.
      * assert (Hn : correctDeltaY (ty - texcoordY p) st <> 0)
          by (intros E; apply N; apply Zy in E; lra).
        apply Dy in Hn. discriminate.
Qed.

(** X5: on a canvas that is not empty, [updatePointerMoveData] keeps the
    old position as the previous one, records a displacement that is
    never larger in absolute value than the change of the texture
    coordinates, and sets [moved] exactly when the position changed: a
    move to the position the pointer already has clears the flag. *)
Theorem updatePointerMoveData_effect (p : Pointer) (posX posY : R)
    (st : Sim) :
  (0 < canvasWidth st)%Z -> (0 < canvasHeight st)%Z ->
  let q := updatePointerMoveData p posX posY st in
  prevTexcoordX q = texcoordX p /\ prevTexcoordY q = texcoordY p
  /\ Rabs (deltaX q) <= Rabs (texcoordX q - texcoordX p)
  /\ Rabs (deltaY q) <= Rabs (texcoordY q - texcoordY p)
  /\ (moved q = true
      <-> texcoordX q <> texcoordX p \/ texcoordY q <> texcoordY p)
  /\ pointerId q = pointerId p /\ down q = down p /\ color q = color p.
Proof.
  intros Hw Hh q.
  split; [reflexivity|]. split; [reflexivity|].
  split; [apply correctDeltaX_small; assumption|].
  split; [apply correctDeltaY_small; assumption|].
  split; [now apply moved_updatePointerMoveData|].
  repeat split.
Qed.

Lemma updatePointerMoveData_effect_witness :
  Rabs (deltaX (updatePointerMoveData pointerPrototype 30 15 loaded))
  <= Rabs (texcoordX (updatePointerMoveData pointerPrototype 30 15 loaded)
           - texcoordX pointerPrototype).
Proof.
  apply (updatePointerMoveData_effect pointerPrototype 30 15 loaded);
    reflexivity.
Defined.

(** ** The mouse *)

Lemma scaled_texcoordX (a b : Z) (st : Sim) :
  (0 < canvasWidth st)%Z ->
  IZR a / IZR (canvasWidth st) <> IZR b / IZR (canvasWidth st) <-> a <> b.
Proof.
  intros Hw. assert (Pw : 0 < IZR (canvasWidth st)) by now apply IZR_lt.
  split; intros N E; apply N.
  - now subst.
  - apply eq_IZR. apply Rmult_eq_reg_r with (/ IZR (canvasWidth st));
      [exact E | apply Rinv_neq_0_compat; lra].
Qed.

Lemma scaled_texcoordY (a b : Z) (st : Sim) :
  (0 < canvasHeight st)%Z ->
  1 - IZR a / IZR (canvasHeight st) <> 1 - IZR b / IZR (canvasHeight st)
  <-> a <> b.
Proof.
  intros Hh. assert (Ph : 0 < IZR (canvasHeight st)) by now apply IZR_lt.
  split; intros N E; apply N.
  - now subst.
  - apply eq_IZR. apply Rmult_eq_reg_r with (/ IZR (canvasHeight st));
      [unfold Rdiv in E; lra | apply Rinv_neq_0_compat; lra].
Qed.

(** X6: a press followed by a move of the mouse leaves the first pointer
    down, and flags it as moved exactly when the move reaches another
    device pixel than the press; once the button is released, moves of
    the mouse change nothing. *)
Theorem mouse_drag (x y x' y' x'' y'' ratio : R) (st : Sim) (p : Pointer)
    (ps : list Pointer) :
  (0 < canvasWidth st)%Z -> (0 < canvasHeight st)%Z ->
  pointers st = p :: ps ->
  let s2 := mousemove x' y' ratio (mousedown x y ratio st) in
  exists q,
    pointers s2 = q :: ps /\ down q = true
    /\ (moved q = true
        <-> scaleByPixelRatio x' ratio <> scaleByPixelRatio x ratio
            \/ scaleByPixelRatio y' ratio <> scaleByPixelRatio y ratio)
    /\ mousemove x'' y'' ratio (mouseup s2) = mouseup s2.
Proof.
  intros Hw Hh Ep s2.
  set (s1 := mousedown x y ratio st) in *.
  pose proof (mousedown_pointer x y ratio st p ps Ep) as E1. fold s1 in E1.
  pose proof (mousemove_pointer x' y' ratio s1 _ _ E1 eq_refl) as E2.
  change (mousemove x' y' ratio s1) with s2 in E2.
  destruct (canvas_of_device _ _ (device_mousedown x y ratio st)) as [Cw Ch].
  fold s1 in Cw, Ch.
  assert (Hw1 : (0 < canvasWidth s1)%Z) by now rewrite Cw.
  assert (Hh1 : (0 < canvasHeight s1)%Z) by now rewrite Ch.
  eexists. split; [exact E2|]. split; [reflexivity|]. split.
  - rewrite (moved_updatePointerMoveData _ _ _ s1 Hw1 Hh1).
    cbn [updatePointerMoveData texcoordX texcoordY]. rewrite Cw, Ch.
    now rewrite (scaled_texcoordX _ _ st Hw), (scaled_texcoordY _ _ st Hh).
  - unfold mouseup. rewrite E2. unfold mousemove.
    cbn [pointers set_pointers updatePointerUpData setDown down negb].
    reflexivity.
Qed.

Lemma mouse_drag_witness :
  exists q,
    pointers (mousemove 160 75 1 (mousedown 150 75 1 loaded)) = q :: []
    /\ down q = true
    /\ (moved q = true
        <-> scaleByPixelRatio 160 1 <> scaleByPixelRatio 150 1
            \/ scaleByPixelRatio 75 1 <> scaleByPixelRatio 75 1)
    /\ mousemove 0 0 1
         (mouseup (mousemove 160 75 1 (mousedown 150 75 1 loaded)))
       = mouseup (mousemove 160 75 1 (mousedown 150 75 1 loaded)).
Proof.
  apply (mouse_drag 150 75 160 75 0 0 1 loaded pointerPrototype []);
    reflexivity.
Defined.

(** ** Touches *)

Lemma pressTouches_cons (t : Touch) (ts : list Touch) (p : Pointer)
    (ps : list Pointer) (ratio : R) (st : Sim) :
  let posX := IZR (scaleByPixelRatio (touchX t) ratio) in
  let posY := IZR (scaleByPixelRatio (touchY t) ratio) in
  let q := fst (updatePointerDownData p (identifier t) posX posY st) in
  let st1 := snd (generateColor st) in
  pressTouches (t :: ts) (p :: ps) ratio st
  = (q :: fst (fst (pressTouches ts ps ratio st1)),
     snd (fst (pressTouches ts ps ratio st1)),
     snd (pressTouches ts ps ratio st1)).
Proof.
  cbv zeta. cbn [pressTouches]. unfold updatePointerDownData.
  cbv zeta. destruct (generateColor st) as [c st1]. cbn [fst snd].
  now destruct (pressTouches ts ps ratio st1) as [[qs st2] threw].
Qed.

Lemma pressTouches_spec (ts : list Touch) (ratio : R) :
  forall (ps : list Pointer) (st : Sim),
  (length ts <= length ps)%nat ->
  let r := pressTouches ts ps ratio st in
  snd r = false
  /\ length (fst (fst r)) = length ps
  /\ Forall2 (fun t q => pressedBy t ratio st q) ts
       (firstn (length ts) (fst (fst r)))
  /\ skipn (length ts) (fst (fst r)) = skipn (length ts) ps
  /\ device (snd (fst r)) = device st
  /\ paletteIndex (snd (fst r)) = (paletteIndex st + Z.of_nat (length ts))%Z
  /\ randomCalls (snd (fst r)) = (randomCalls st + length ts)%nat.
Proof.
  induction ts as [|t ts IH]; intros ps st Hl r; subst r.
  - cbn [pressTouches fst snd length firstn skipn].
    repeat split; try constructor; try lia.
  - destruct ps as [|p ps]; [cbn [length] in Hl; lia|].
    rewrite pressTouches_cons. cbv zeta. cbn [fst snd length firstn skipn].
    cbn [length] in Hl.
    destruct (IH ps (snd (generateColor st)) ltac:(lia))
      as (Ht & Hn & Hp & Hs & Hd & Hi & Hr).
    split; [exact Ht|]. split; [now rewrite Hn|].
    split.
    { constructor; [repeat split|].
      eapply Forall2_impl; [|exact Hp]. intros a b Hab. exact Hab. }
    split; [exact Hs|].
    split; [now rewrite Hd, device_generateColor|].
    split; [rewrite Hi; cbn [generateColor paletteIndex snd Math_random
                             set_randomCalls set_paletteIndex]; lia|].
    rewrite Hr. cbn [generateColor randomCalls snd Math_random
                     set_randomCalls set_paletteIndex]. lia.
Qed.

Lemma length_growPointers (n : nat) (ps : list Pointer) :
  length (growPointers n ps) = Nat.max (length ps) (S n).
Proof. unfold growPointers. rewrite length_app, repeat_length. lia. Qed.

Lemma touchstart_eq (touches : list Touch) (ratio : R) (st : Sim)
    (p0 : Pointer) (rest : list Pointer) :
  pointers st = p0 :: rest ->
  let slots := rest ++ repeat pointerPrototype (length touches - length rest) in
  let r := pressTouches touches slots ratio st in
  touchstart touches ratio st
  = (set_pointers (p0 :: fst (fst r)) (snd (fst r)), snd r).
Proof.
  intros Ep. cbv zeta. unfold touchstart, growPointers. rewrite Ep.
  cbn [length app Nat.sub].
  now destruct (pressTouches _ _ ratio st) as [[qs st1] threw].
Qed.

(** X7: [touchstart] never fails, whatever the number of touches: it
    grows the pointer list to one more than the number of touches when
    it is shorter, leaves the first pointer (the mouse) as it is, presses
    slot [i + 1] for touch [i] with the identifier and the position of
    the touch, leaves the later slots alone, and draws one colour, hence
    one random number, per touch. *)
Theorem touchstart_presses (touches : list Touch) (ratio : R) (st : Sim)
    (p0 : Pointer) (rest : list Pointer) :
  pointers st = p0 :: rest ->
  let st' := fst (touchstart touches ratio st) in
  let n := length touches in
  snd (touchstart touches ratio st) = false
  /\ length (pointers st') = Nat.max (length (pointers st)) (S n)
  /\ (exists slots,
        pointers st' = p0 :: slots
        /\ Forall2 (fun t q => pressedBy t ratio st q) touches
             (firstn n slots)
        /\ skipn n slots = skipn n rest)
  /\ device st' = device st
  /\ paletteIndex st' = (paletteIndex st + Z.of_nat n)%Z
  /\ randomCalls st' = (randomCalls st + n)%nat.
Proof.
  intros Ep st' n. subst st' n.
  rewrite (touchstart_eq touches ratio st p0 rest Ep). cbv zeta.
  set (slots := rest ++ repeat pointerPrototype (length touches - length rest)).
  assert (Hl : (length touches <= length slots)%nat)
    by (unfold slots; rewrite length_app, repeat_length; lia).
  destruct (pressTouches_spec touches ratio slots st Hl)
    as (Ht & Hn & Hp & Hs & Hd & Hi & Hr).
  cbn [fst snd pointers set_pointers].
  split; [exact Ht|].
  split.
  { cbn [length]. rewrite Hn, Ep. unfold slots.
    rewrite length_app, repeat_length. cbn [length]. lia. }
  split.
  { eexists. split; [reflexivity|]. split; [exact Hp|].
    rewrite Hs. unfold slots. set (n := length touches).
    rewrite skipn_app.
    destruct (Nat.le_gt_cases n (length rest)) as [Hle|Hgt].
    - replace (n - length rest)%nat with 0%nat by lia.
      cbn [repeat skipn]. now rewrite app_nil_r.
    - rewrite (skipn_all2 rest) by lia.
      rewrite skipn_all2 by (rewrite repeat_length; lia). reflexivity. }
  split; [exact Hd|]. split; [exact Hi | exact Hr].
Qed.

Lemma touchstart_presses_witness :
  snd (touchstart [mkTouch 0 10 20; mkTouch 1 30 40] 1 loaded) = false
  /\ length (pointers (fst (touchstart [mkTouch 0 10 20; mkTouch 1 30 40] 1
                              loaded)))
     = Nat.max (length (pointers loaded)) (S 2).
Proof.
  destruct (touchstart_presses [mkTouch 0 10 20; mkTouch 1 30 40] 1 loaded
              pointerPrototype [] eq_refl) as (H1 & H2 & _).
  split; [exact H1 | exact H2].
Defined.

Lemma moveTouches_cons (t : Touch) (ts : list Touch) (p : Pointer)
    (ps : list Pointer) (ratio : R) (st : Sim) :
  moveTouches (t :: ts) (p :: ps) ratio st
  = ((if down p
      then updatePointerMoveData p (IZR (scaleByPixelRatio (touchX t) ratio))
             (IZR (scaleByPixelRatio (touchY t) ratio)) st
      else p) :: fst (moveTouches ts ps ratio st),
     snd (moveTouches ts ps ratio st)).
Proof.
  cbn [moveTouches]. now destruct (moveTouches ts ps ratio st).
Qed.

Lemma moveTouches_threw (ts : list Touch) (ratio : R) (st : Sim) :
  forall ps : list Pointer,
  snd (moveTouches ts ps ratio st) = true <-> (length ps < length ts)%nat.
Proof.
  induction ts as [|t ts IH]; intros ps.
  - cbn [moveTouches snd length]. split; [discriminate | lia].
  - destruct ps as [|p ps].
    + cbn [moveTouches snd length]. split; [lia | reflexivity].
    + rewrite moveTouches_cons. cbn [snd length]. rewrite IH. lia.
Qed.

Lemma touchmove_threw (touches : list Touch) (ratio : R) (st : Sim) :
  snd (touchmove touches ratio st) = true
  <-> touches <> [] /\ (length (pointers st) <= length touches)%nat.
Proof.
  unfold touchmove. destruct touches as [|t ts].
  - cbn [snd]. split; [discriminate | intros [N _]; now elim N].
  - destruct (pointers st) as [|p0 slots].
    + cbn [snd length]. split; [split; [discriminate|lia] | reflexivity].
    + pose proof (moveTouches_threw (t :: ts) ratio st slots) as M.
      destruct (moveTouches (t :: ts) slots ratio st) as [qs threw].
      cbn [snd length] in *. rewrite M.
      split; [intros H; split; [discriminate | lia] | intros [_ H]; lia].
Qed.

(** X8: [touchmove] fails (it reads [down] of a missing pointer) exactly
    when there is a touch and at least as many touches as pointers; it
    does not fail for as many touches as the last [touchstart] had, or
    fewer. *)
Theorem touchmove_fails_iff (moves : list Touch) (ratio : R) (st : Sim) :
  (snd (touchmove moves ratio st) = true
   <-> moves <> [] /\ (length (pointers st) <= length moves)%nat)
  /\ forall (touches : list Touch) (r0 : R),
       pointers st <> [] ->
       (length moves <= length touches)%nat ->
       snd (touchmove moves ratio (fst (touchstart touches r0 st))) = false.
Proof.
  split; [apply touchmove_threw|].
  intros touches r0 Hne Hl.
  destruct (pointers st) as [|p0 rest] eqn:Ep; [now elim Hne|].
  destruct (snd (touchmove moves ratio (fst (touchstart touches r0 st))))
    eqn:E; [|reflexivity].
  apply touchmove_threw in E. destruct E as [_ E].
  rewrite (touchstart_eq touches r0 st p0 rest Ep) in E. cbv zeta in E.
  set (slots := rest ++ repeat pointerPrototype (length touches - length rest))
    in E.
  assert (Hs : (length touches <= length slots)%nat)
    by (unfold slots; rewrite length_app, repeat_length; lia).
  destruct (pressTouches_spec touches r0 slots st Hs) as (_ & Hn & _).
  cbn [fst pointers set_pointers length] in E. rewrite Hn in E. lia.
Qed.

Lemma touchmove_fails_iff_witness :
  snd (touchmove [mkTouch 0 11 21] 1
         (fst (touchstart [mkTouch 0 10 20] 1 loaded))) = false.
Proof.
  apply (touchmove_fails_iff [mkTouch 0 11 21] 1 loaded);
    [discriminate | apply Nat.le_refl].
Defined.

Lemma releasedBy_more (id : Z) (ids : list Z) (p q : Pointer) :
  releasedBy ids p q -> releasedBy (ids ++ [id]) p q.
Proof.
  intros [E|[E H]]; [now left | right; split; [exact E|]].
  apply in_or_app. now left.
Qed.

Lemma releaseFirst_spec (id : Z) (ids : list Z) (ps0 : list Pointer) :
  forall ps : list Pointer,
  Forall2 (releasedBy ids) ps0 ps ->
  Forall2 (releasedBy (ids ++ [id])) ps0 (releaseFirst id ps).
Proof.
  induction 1 as [|p q ps0 ps Hpq Hrest IH].
  - constructor.
  - cbn [releaseFirst]. destruct (pointerId q =? id)%Z eqn:E.
    + constructor.
      * apply Z.eqb_eq in E. destruct Hpq as [->|[-> H]].
        -- right. split; [reflexivity|]. apply in_or_app. right.
           now left.
        -- right. split; [reflexivity|]. apply in_or_app. now left.
      * eapply Forall2_impl; [|exact Hrest].
        intros a b. apply releasedBy_more.
    + constructor; [now apply releasedBy_more | exact IH].
Qed.

Lemma releaseAll_spec (ids : list Z) (ps0 : list Pointer) :
  forall (done : list Z) (ps : list Pointer),
  Forall2 (releasedBy done) ps0 ps ->
  Forall2 (releasedBy (done ++ ids)) ps0
    (fold_left (fun ps id => releaseFirst id ps) ids ps).
Proof.
  induction ids as [|id ids IH]; intros done ps H.
  - cbn [fold_left]. now rewrite app_nil_r.
  - cbn [fold_left].
    replace (done ++ id :: ids) with ((done ++ [id]) ++ ids)
      by (rewrite <- app_assoc; reflexivity).
    apply IH. now apply releaseFirst_spec.
Qed.

Lemma releaseFirst_map (id : Z) (ps : list Pointer) :
  NoDup (map pointerId ps) ->
  releaseFirst id ps = map (releaseIn [id]) ps.
Proof.
  induction ps as [|p ps IH]; intros Hn; [reflexivity|].
  cbn [map] in Hn. inversion Hn as [|x l Hnot Hn' E]; subst x l.
  cbn [releaseFirst map]. unfold releaseIn at 1. cbn [existsb].
  rewrite orb_false_r. destruct (pointerId p =? id)%Z eqn:E.
  - f_equal. apply Z.eqb_eq in E. rewrite <- (map_id ps) at 1.
    apply map_ext_in. intros q Hq. unfold releaseIn. cbn [existsb].
    rewrite orb_false_r. destruct (pointerId q =? id)%Z eqn:Eq;
      [|reflexivity].
    apply Z.eqb_eq in Eq. exfalso. apply Hnot. rewrite E, <- Eq.
    now apply in_map.
  - f_equal. now apply IH.
Qed.

Lemma releaseIn_cons (id : Z) (ids : list Z) (p : Pointer) :
  releaseIn ids (releaseIn [id] p) = releaseIn (id :: ids) p.
Proof.
  unfold releaseIn. cbn [existsb]. rewrite orb_false_r.
  destruct (pointerId p =? id)%Z; cbn [orb]; [|reflexivity].
  cbn [updatePointerUpData setDown pointerId].
  now destruct (existsb (Z.eqb (pointerId p)) ids).
Qed.

Lemma pointerId_releaseIn (ids : list Z) (ps : list Pointer) :
  map pointerId (map (releaseIn ids) ps) = map pointerId ps.
Proof.
  rewrite map_map. apply map_ext. intros p. unfold releaseIn.
  now destruct (existsb _ ids).
Qed.

Lemma releaseAll_map (ids : list Z) :
  forall ps : list Pointer,
  NoDup (map pointerId ps) ->
  fold_left (fun ps id => releaseFirst id ps) ids ps
  = map (releaseIn ids) ps.
Proof.
  induction ids as [|id ids IH]; intros ps Hn.
  - cbn [fold_left]. rewrite <- (map_id ps) at 1. now apply map_ext.
  - cbn [fold_left]. rewrite releaseFirst_map by exact Hn.
    rewrite IH by now rewrite pointerId_releaseIn.
    rewrite map_map. apply map_ext. intros p. apply releaseIn_cons.
Qed.

Lemma Forall2_refl_releasedBy (ps : list Pointer) :
  Forall2 (releasedBy []) ps ps.
Proof. induction ps; constructor; [now left | assumption]. Qed.

(** X9: [touchend] changes nothing but [down] flags, and clears them only
    for pointers that carry an identifier of the ended touches; when the
    pointers carry distinct identifiers, it releases every pointer that
    carries one of them. *)
Theorem touchend_releases (ids : list Z) (st : Sim) :
  Forall2 (releasedBy ids) (pointers st) (pointers (touchend ids st))
  /\ set_pointers (pointers st) (touchend ids st) = st
  /\ (NoDup (map pointerId (pointers st)) ->
      pointers (touchend ids st) = map (releaseIn ids) (pointers st)).
Proof.
  unfold touchend. cbn [pointers set_pointers].
  split; [|split].
  - apply (releaseAll_spec ids (pointers st) [] (pointers st)).
    apply Forall2_refl_releasedBy.
  - now destruct st.
  - apply releaseAll_map.
Qed.

Lemma touchend_releases_witness :
  pointers (touchend [7%Z] loaded) = map (releaseIn [7%Z]) (pointers loaded).
Proof.
  apply (touchend_releases [7%Z] loaded).
  repeat constructor. intros [].
Defined.

(** X10: the slots are addressed by the position of a touch in the list
    of current touches, not by its identifier.  After two fingers are
    pressed and the first is lifted, the slot of the second is still
    down, but its moves (it now comes first in the list) are looked up
    in the released slot of the first and are dropped: [touchmove]
    changes nothing. *)
Theorem lifted_finger_freezes_the_other (a b b' : Touch) (ratio : R)
    (st : Sim) (p0 : Pointer) (rest : list Pointer) :
  pointers st = p0 :: rest -> pointerId p0 <> identifier a ->
  let s1 := fst (touchstart [a; b] ratio st) in
  let s2 := touchend [identifier a] s1 in
  (exists qa qb tail,
     pointers s2 = p0 :: qa :: qb :: tail
     /\ down qa = false /\ down qb = true /\ pointerId qb = identifier b)
  /\ touchmove [b'] ratio s2 = (s2, false).
Proof.
  intros Ep Hid s1 s2.
  assert (E1 : exists qa qb tail,
            pointers s1 = p0 :: qa :: qb :: tail
            /\ pointerId qa = identifier a
            /\ down qb = true /\ pointerId qb = identifier b).
  { unfold s1. rewrite (touchstart_eq [a; b] ratio st p0 rest Ep).
    cbv zeta. cbn [fst pointers set_pointers].
    set (slots := rest ++ repeat pointerPrototype (length [a; b] - length rest)).
    assert (Hl : (length [a; b] <= length slots)%nat)
      by (unfold slots; rewrite length_app, repeat_length; lia).
    destruct (pressTouches_spec [a; b] ratio slots st Hl)
      as (_ & Hn & Hp & _).
    destruct (fst (fst (pressTouches [a; b] slots ratio st)))
      as [|qa [|qb tail]];
      [rewrite <- Hn in Hl; cbn [length] in Hl; lia ..|].
    cbn [length firstn] in Hp.
    inversion Hp as [|? ? ? ? Ha Hp']; subst.
    inversion Hp' as [|? ? ? ? Hb _]; subst.
    exists qa, qb, tail. split; [reflexivity|].
    split; [apply Ha|]. split; apply Hb. }
  destruct E1 as (qa & qb & tail & E1 & Ia & Db & Ib).
  assert (E2 : pointers s2
               = p0 :: updatePointerUpData qa :: qb :: tail).
  { unfold s2, touchend. cbn [pointers set_pointers fold_left].
    rewrite E1. cbn [releaseFirst].
    replace (pointerId p0 =? identifier a)%Z with false
      by (symmetry; now apply Z.eqb_neq).
    now rewrite Ia, Z.eqb_refl. }
  split.
  - exists (updatePointerUpData qa), qb, tail. now repeat split.
  - unfold touchmove. rewrite E2.
    cbn [moveTouches updatePointerUpData setDown down].
    rewrite <- E2. now rewrite Sim_eta_pointers.
Qed.

Lemma lifted_finger_freezes_the_other_witness :
  touchmove [mkTouch 1 35 45] 1
    (touchend [identifier (mkTouch 0 10 20)]
       (fst (touchstart [mkTouch 0 10 20; mkTouch 1 30 40] 1 loaded)))
  = (touchend [identifier (mkTouch 0 10 20)]
       (fst (touchstart [mkTouch 0 10 20; mkTouch 1 30 40] 1 loaded)),
     false).
Proof.
  apply (lifted_finger_freezes_the_other (mkTouch 0 10 20) (mkTouch 1 30 40)
           (mkTouch 1 35 45) 1 loaded pointerPrototype []);
    [reflexivity | discriminate].
Defined.

(** ** What the solver leaves alone *)

Lemma outsideSolver_pressureIterations (n : nat) (st : Sim) :
  outsideSolver (Nat.iter n pressureIteration st) = outsideSolver st.
Proof. induction n as [|n IH]; [reflexivity|]. simpl Nat.iter. exact IH. Qed.

Lemma outsideSolver_stages (dt : R) (st : Sim) :
  outsideSolver (curlStage st) = outsideSolver st
  /\ outsideSolver (vorticityStage dt st) = outsideSolver st
  /\ outsideSolver (divergenceStage st) = outsideSolver st
  /\ outsideSolver (clearStage st) = outsideSolver st
  /\ outsideSolver (pressureStage st) = outsideSolver st
  /\ outsideSolver (gradientSubtractStage st) = outsideSolver st
  /\ outsideSolver (advectVelocityStage dt st) = outsideSolver st
  /\ outsideSolver (advectDyeStage dt st) = outsideSolver st.
Proof.
  repeat split; try reflexivity. apply outsideSolver_pressureIterations.
Qed.

Lemma outsideSolver_step (dt : R) (st : Sim) :
  outsideSolver (step dt st) = outsideSolver st.
Proof.
  unfold step. destruct (negb (stepProgramsBuilt st)); [reflexivity|].
  cbv zeta.
  repeat match goal with
  | |- outsideSolver (?stage ?s) = _ =>
      first [ rewrite (proj1 (outsideSolver_stages dt s))
            | rewrite (proj1 (proj2 (proj2 (outsideSolver_stages dt s))))
            | rewrite (proj1 (proj2 (proj2 (proj2 (outsideSolver_stages dt s)))))
            | rewrite (proj1 (proj2 (proj2 (proj2 (proj2
                         (outsideSolver_stages dt s))))))
            | rewrite (proj1 (proj2 (proj2 (proj2 (proj2 (proj2
                         (outsideSolver_stages dt s))))))) ]
  | |- outsideSolver (?stage dt ?s) = _ =>
      first [ rewrite (proj1 (proj2 (outsideSolver_stages dt s)))
            | rewrite (proj1 (proj2 (proj2 (proj2 (proj2 (proj2 (proj2
                         (outsideSolver_stages dt s))))))))
            | rewrite (proj2 (proj2 (proj2 (proj2 (proj2 (proj2 (proj2
                         (outsideSolver_stages dt s)))))))) ]
  end.
  reflexivity.
Qed.

Lemma splatStack_of_outsideSolver (a b : Sim) :
  outsideSolver a = outsideSolver b ->
  splatStack a = splatStack b /\ pointers a = pointers b
  /\ lastUpdateTime a = lastUpdateTime b
  /\ texturesCreated a = texturesCreated b
  /\ paletteIndex a = paletteIndex b /\ randomCalls a = randomCalls b
  /\ colorUpdateTimer a = colorUpdateTimer b.
Proof. unfold outsideSolver. intros E. inversion E. repeat split; congruence. Qed.

(** The tick, as the renderer applied to the state the solver (or the
    pause) leaves. *)
Lemma update_cases (f : Frame) (st : Sim) :
  Inv st -> visibleFrame f ->
  exists s, update f st = render s
            /\ outsideSolver s = outsideSolver (applyInputs (beforeInputs f st)).
Proof.
  intros H Hf. destruct (PAUSED (CONFIG st)) eqn:Hp.
  - rewrite update_paused by assumption. eexists; split; reflexivity.
  - rewrite update_unpaused by assumption. eexists; split; [reflexivity|].
    apply outsideSolver_step.
Qed.

Lemma splatStack_update (f : Frame) (st : Sim) :
  Inv st -> visibleFrame f ->
  splatStack (update f st) = tl (splatStack st).
Proof.
  intros H Hf. destruct (update_cases f st H Hf) as (s & -> & Es).
  destruct (fields_of_outsideRender _ _ (outsideRender_render s))
    as (_ & _ & _ & _ & _ & _ & E & _). rewrite E.
  destruct (splatStack_of_outsideSolver _ _ Es) as (-> & _).
  pose proof (Inv_beforeInputs f st Hf H) as H1.
  destruct (applyInputs_summary _ (inv_built _ H1 splatProgram))
    as (_ & _ & -> & _).
  now rewrite (splatStack_of_stable _ _ (stable_beforeInputs f st)).
Qed.

(** ** The keyboard *)

Lemma burst_size (rnd : R) :
  0 <= rnd < 1 -> (5 <= truncR (rnd * 20) + 5 <= 24)%Z.
Proof.
  intros Hr. unfold truncR. destruct (Rle_dec 0 (rnd * 20)) as [_|N]; [|lra].
  assert (0 <= Zfloor (rnd * 20))%Z by (apply Zfloor_lub; simpl; lra).
  assert (Zfloor (rnd * 20) < 20)%Z.
  { apply lt_IZR. pose proof (Zfloor_bound (rnd * 20)). lra. }
  lia.
Qed.

(** X11: with [Math.random] in [[0, 1)], the space bar pushes a burst of
    5 to 24 splats on the stack; the next tick pops it and issues two
    splat draws for each splat of the burst and for each moved pointer,
    paused or not. *)
Theorem space_burst (f : Frame) (st : Sim) :
  Inv st -> visibleFrame f -> 0 <= random st (randomCalls st) < 1 ->
  let st' := keydown Space st in
  exists amount : Z,
    splatStack st' = amount :: splatStack st
    /\ (5 <= amount <= 24)%Z
    /\ splatStack (update f st') = splatStack st
    /\ countDraws splatProgram (drawCalls (update f st'))
       = (countDraws splatProgram (drawCalls st)
          + 2 * (Z.to_nat amount + countMoved (pointers st)))%nat.
Proof.
  intros H Hf Hr st'.
  pose proof (Inv_keydown Space st H) as H'. fold st' in H'.
  exists (truncR (random st (randomCalls st) * 20) + 5)%Z.
  assert (Es : splatStack st'
               = (truncR (random st (randomCalls st) * 20) + 5)%Z
                 :: splatStack st) by reflexivity.
  split; [exact Es|]. split; [now apply burst_size|].
  split; [rewrite splatStack_update by assumption; now rewrite Es|].
  rewrite (countDraws_update splatProgram f st' H' Hf).
  rewrite pendingSplats_beforeInputs. unfold pendingSplats. rewrite Es.
  change (pointers st') with (pointers st).
  change (drawCalls st') with (drawCalls st).
  change (CONFIG st') with (CONFIG st).
  cbn [ProgramId_eqb solverDraws renderDraws].
  destruct (PAUSED (CONFIG st)); lia.
Qed.

Lemma space_burst_witness :
  exists amount : Z,
    splatStack (keydown Space loaded) = amount :: splatStack loaded
    /\ (5 <= amount <= 24)%Z
    /\ splatStack (update firstFrame (keydown Space loaded))
       = splatStack loaded
    /\ countDraws splatProgram
         (drawCalls (update firstFrame (keydown Space loaded)))
       = (countDraws splatProgram (drawCalls loaded)
          + 2 * (Z.to_nat amount + countMoved (pointers loaded)))%nat.
Proof.
  apply (space_burst firstFrame loaded Inv_loaded visible_firstFrame).
  simpl. lra.
Defined.

(** ** The page as a sequence of events *)

Lemma device_pressTouches (ts : list Touch) (ratio : R) :
  forall (ps : list Pointer) (st : Sim),
  device (snd (fst (pressTouches ts ps ratio st))) = device st.
Proof.
  induction ts as [|t ts IH]; intros ps st; [reflexivity|].
  destruct ps as [|p ps]; [reflexivity|].
  rewrite pressTouches_cons. cbv zeta. cbn [fst snd].
  now rewrite IH, device_generateColor.
Qed.

Lemma device_touchstart (touches : list Touch) (ratio : R) (st : Sim) :
  device (fst (touchstart touches ratio st)) = device st.
Proof.
  unfold touchstart.
  destruct (growPointers (length touches) (pointers st)) as [|p0 slots];
    [reflexivity|].
  pose proof (device_pressTouches touches ratio slots st) as D.
  destruct (pressTouches touches slots ratio st) as [[qs st1] threw].
  exact D.
Qed.

Lemma device_touchmove (touches : list Touch) (ratio : R) (st : Sim) :
  device (fst (touchmove touches ratio st)) = device st.
Proof.
  unfold touchmove. destruct touches as [|t ts]; [reflexivity|].
  destruct (pointers st) as [|p0 slots]; [reflexivity|].
  now destruct (moveTouches (t :: ts) slots ratio st).
Qed.

Lemma Inv_handle (e : Event) (st : Sim) :
  visibleEvent e -> Inv st -> Inv (handle e st).
Proof.
  intros He H. destruct e; cbn [handle].
  - now apply Inv_update.
  - now apply Inv_multipleSplats.
  - now apply Inv_mousedown.
  - now apply Inv_mousemove.
  - now apply Inv_mouseup.
  - apply (Inv_device st); [symmetry; apply device_touchstart | exact H].
  - apply (Inv_device st); [symmetry; apply device_touchmove | exact H].
  - unfold touchend. now apply Inv_set_pointers.
  - now apply Inv_keydown.
  - now apply Inv_splatNormalized.
  - now apply Inv_addRandomSplats.
  - now apply Inv_pause.
  - now apply Inv_pause.
Qed.

Lemma run_snoc (es : list Event) (e : Event) (st : Sim) :
  run (es ++ [e]) st = handle e (run es st).
Proof. unfold run. now rewrite fold_left_app. Qed.

(** X12: every state the page can reach from a canvas that is not empty,
    through any sequence of animation frames with a visible canvas,
    mouse, touch and keyboard events, the initial splats and the calls
    of [window.FluidField], is well formed: the programs are linked, the
    grids are not empty, the divergence, curl and pressure have the size
    of the velocity, and every texel size is the reciprocal of its
    grid's size. *)
Theorem reachable_well_formed (e : Ext) (mobile : bool) (w h : Z)
    (rnd : nat -> R) (t0 : Z) (es : list Event) :
  (0 < w)%Z -> (0 < h)%Z -> Forall visibleEvent es ->
  Inv (run es (boot e mobile w h rnd t0)).
Proof.
  intros Hw Hh. induction es as [|ev es IH] using rev_ind; intros Hv.
  - now apply Inv_boot.
  - apply Forall_app in Hv. destruct Hv as [Hes Hev].
    rewrite run_snoc. apply Inv_handle; [now inversion Hev | now apply IH].
Qed.

Lemma reachable_well_formed_witness :
  Inv (run [KeyDown Space; Tick firstFrame; TouchStart [mkTouch 0 10 20] 1]
         (boot fullExt false 300 150 (fun _ => 0.5) 1000)).
Proof.
  apply reachable_well_formed; [reflexivity | reflexivity |].
  repeat constructor; apply visible_firstFrame.
Defined.

(** ** The textures never alias *)

Lemma distinct_sameTextures (a b : Sim) :
  sameTextures a b -> distinctTextures b -> distinctTextures a.
Proof.
  intros [P E] [N F]. apply Permutation_sym in P. split.
  - now apply (Permutation_NoDup P).
  - rewrite E. now apply (Permutation_Forall P).
Qed.

Lemma sameTextures_trans (a b c : Sim) :
  sameTextures a b -> sameTextures b c -> sameTextures a c.
Proof.
  intros [P1 E1] [P2 E2].
  split; [now apply (Permutation_trans P1) | congruence].
Qed.

Lemma sameTextures_fields (a b : Sim) :
  fields a = fields b -> texturesCreated a = texturesCreated b ->
  sameTextures a b.
Proof.
  unfold fields, sameTextures, textures. intros E Et. inversion E.
  split; [apply Permutation_refl | exact Et].
Qed.

Ltac perm_textures :=
  split; [|reflexivity]; unfold textures;
  cbn [dye velocity divergence curl pressure read write texture
       curlStage vorticityStage divergenceStage clearStage
       pressureIteration gradientSubtractStage advectVelocityStage
       advectDyeStage
       set_dye set_velocity set_divergence set_curl set_pressure
       set_drawCalls blit simPassSwap simPass drawAndSwap swap renderTo];
  repeat first [ apply Permutation_refl | apply perm_skip | apply perm_swap ].

Lemma sameTextures_curlStage (st : Sim) : sameTextures (curlStage st) st.
Proof. perm_textures. Qed.

Lemma sameTextures_vorticityStage (dt : R) (st : Sim) :
  sameTextures (vorticityStage dt st) st.
Proof. perm_textures. Qed.

Lemma sameTextures_divergenceStage (st : Sim) :
  sameTextures (divergenceStage st) st.
Proof. perm_textures. Qed.

Lemma sameTextures_clearStage (st : Sim) : sameTextures (clearStage st) st.
Proof. perm_textures. Qed.

Lemma sameTextures_pressureIteration (st : Sim) :
  sameTextures (pressureIteration st) st.
Proof. perm_textures. Qed.

Lemma sameTextures_gradientSubtractStage (st : Sim) :
  sameTextures (gradientSubtractStage st) st.
Proof. perm_textures. Qed.

Lemma sameTextures_advectVelocityStage (dt : R) (st : Sim) :
  sameTextures (advectVelocityStage dt st) st.
Proof. perm_textures. Qed.

Lemma sameTextures_advectDyeStage (dt : R) (st : Sim) :
  sameTextures (advectDyeStage dt st) st.
Proof. perm_textures. Qed.

Lemma sameTextures_pressureStage (st : Sim) :
  sameTextures (pressureStage st) st.
Proof.
  unfold pressureStage. generalize (Z.to_nat (PRESSURE_ITERATIONS (CONFIG st))).
  intros n. induction n as [|n IH].
  - split; [apply Permutation_refl | reflexivity].
  - simpl Nat.iter.
    exact (sameTextures_trans _ _ _ (sameTextures_pressureIteration _) IH).
Qed.

Lemma sameTextures_step (dt : R) (st : Sim) : sameTextures (step dt st) st.
Proof.
  unfold step. destruct (negb (stepProgramsBuilt st)).
  { split; [apply Permutation_refl | reflexivity]. }
  cbv zeta.
  refine (sameTextures_trans _ _ _ (sameTextures_advectDyeStage _ _) _).
  refine (sameTextures_trans _ _ _ (sameTextures_advectVelocityStage _ _) _).
  refine (sameTextures_trans _ _ _ (sameTextures_gradientSubtractStage _) _).
  refine (sameTextures_trans _ _ _ (sameTextures_pressureStage _) _).
  refine (sameTextures_trans _ _ _ (sameTextures_clearStage _) _).
  refine (sameTextures_trans _ _ _ (sameTextures_divergenceStage _) _).
  refine (sameTextures_trans _ _ _ (sameTextures_vorticityStage _ _) _).
  apply sameTextures_curlStage.
Qed.

Lemma sameTextures_splat (x y dx dy : R) (c : Rgb.t) (st : Sim) :
  sameTextures (splat x y dx dy c st) st.
Proof.
  unfold splat. destruct (negb (built st splatProgram)).
  { split; [apply Permutation_refl | reflexivity]. }
  cbv zeta. split; [|reflexivity]. unfold textures.
  cbn [dye velocity divergence curl pressure read write texture
       set_dye set_velocity set_drawCalls blit drawAndSwap swap renderTo].
  eapply Permutation_trans; [apply perm_swap|].
  do 2 apply perm_skip. apply perm_swap.
Qed.

Lemma sameTextures_device (a b : Sim) : device a = device b -> sameTextures a b.
Proof.
  intros E. apply sameTextures_fields; [now apply fields_of_device|].
  unfold device in E. inversion E. congruence.
Qed.

Lemma sameTextures_refl (a : Sim) : sameTextures a a.
Proof. split; [apply Permutation_refl | reflexivity]. Qed.

Lemma sameTextures_randomSplat (st : Sim) : sameTextures (randomSplat st) st.
Proof.
  unfold randomSplat, generateColor, Math_random. cbv zeta.
  refine (sameTextures_trans _ _ _ (sameTextures_splat _ _ _ _ _ _) _).
  now apply sameTextures_fields.
Qed.

Lemma sameTextures_multipleSplats (amount : Z) (st : Sim) :
  sameTextures (multipleSplats amount st) st.
Proof.
  unfold multipleSplats. induction (Z.to_nat amount) as [|n IH].
  - apply sameTextures_refl.
  - simpl Nat.iter.
    exact (sameTextures_trans _ _ _ (sameTextures_randomSplat _) IH).
Qed.

Lemma sameTextures_splatMoved (ps : list Pointer) :
  forall st : Sim, sameTextures (snd (splatMoved ps st)) st.
Proof.
  induction ps as [|p ps IH]; intros st; [apply sameTextures_refl|].
  cbn [splatMoved]. destruct (moved p).
  - specialize (IH (splatPointer (setMoved false p) st)).
    destruct (splatMoved ps _) as [qs st2]. cbn [snd] in *.
    refine (sameTextures_trans _ _ _ IH _).
    unfold splatPointer. apply sameTextures_splat.
  - specialize (IH st). now destruct (splatMoved ps st).
Qed.

Lemma sameTextures_applyInputs (st : Sim) : sameTextures (applyInputs st) st.
Proof.
  unfold applyInputs.
  set (st1 := match splatStack st with
              | [] => st
              | amount :: rest => multipleSplats amount (set_splatStack rest st)
              end).
  assert (H1 : sameTextures st1 st).
  { unfold st1. destruct (splatStack st) as [|amount rest];
      [apply sameTextures_refl|].
    refine (sameTextures_trans _ _ _ (sameTextures_multipleSplats _ _) _).
    now apply sameTextures_fields. }
  pose proof (sameTextures_splatMoved (pointers st1) st1) as H2.
  destruct (splatMoved (pointers st1) st1) as [qs st2]. cbn [snd] in H2.
  refine (sameTextures_trans _ _ _ _ (sameTextures_trans _ _ _ H2 H1)).
  now apply sameTextures_fields.
Qed.

Lemma sameTextures_render (st : Sim) : sameTextures (render st) st.
Proof.
  pose proof (outsideRender_render st) as E. unfold outsideRender in E.
  inversion E. apply sameTextures_fields; [unfold fields|]; congruence.
Qed.

(** Splitting the facts about the eight textures into atoms. *)
Ltac split_not_or :=
  repeat match goal with
  | H : ~ (_ \/ _) |- _ =>
      let H1 := fresh "D" in
      let H2 := fresh "D" in
      apply Decidable.not_or in H; destruct H as [H1 H2]
  | H : ~ False |- _ => clear H
  end.

Ltac open_distinct H :=
  let N := fresh "N" in
  let F := fresh "F" in
  destruct H as [N F]; unfold textures in N, F;
  repeat (apply NoDup_cons_iff in N;
          let X := fresh "X" in destruct N as [X N]; cbn [In] in X);
  clear N;
  repeat (apply Forall_cons_iff in F;
          let B := fresh "B" in destruct F as [B F]);
  clear F; split_not_or.

Ltac close_distinct :=
  split;
  [ repeat (apply NoDup_cons;
            [ cbn [In]; intros Hin;
              repeat (destruct Hin as [Hin|Hin]);
              try contradiction;
              first [ congruence
                    | repeat match goal with D : _ <> _ |- _ => clear D end;
                      lia ] | ]);
    apply NoDup_nil
  | repeat (apply Forall_cons; [lia|]); apply Forall_nil ].

Lemma createFBO_cases (w h : Z) (fmt : InternalFormat) (filt : TexFilter)
    (ex : option FBO) (s : Sim) :
  (ex = Some (fst (createFBO w h fmt filt ex s))
   /\ snd (createFBO w h fmt filt ex s) = s)
  \/ (texture (fst (createFBO w h fmt filt ex s)) = texturesCreated s
      /\ snd (createFBO w h fmt filt ex s)
         = set_texturesCreated (S (texturesCreated s)) s).
Proof.
  unfold createFBO. destruct ex as [e|]; [|right; split; reflexivity].
  destruct (_ && _); [left | right]; split; reflexivity.
Qed.

Lemma createDoubleFBO_cases (w h : Z) (fmt : InternalFormat)
    (filt : TexFilter) (ex : option DoubleFBO) (s : Sim) :
  (ex = Some (fst (createDoubleFBO w h fmt filt ex s))
   /\ snd (createDoubleFBO w h fmt filt ex s) = s)
  \/ (texture (read (fst (createDoubleFBO w h fmt filt ex s)))
      = texturesCreated s
      /\ texture (write (fst (createDoubleFBO w h fmt filt ex s)))
         = S (texturesCreated s)
      /\ snd (createDoubleFBO w h fmt filt ex s)
         = set_texturesCreated (S (S (texturesCreated s))) s).
Proof.
  unfold createDoubleFBO. destruct ex as [e|]; [|right; repeat split].
  destruct (_ && _); [left; split; reflexivity | right; repeat split].
Qed.

Ltac alloc_cases :=
  match goal with
  | |- context [createDoubleFBO ?w ?h ?f ?p ?e ?s] =>
      let E1 := fresh "E" in
      let E2 := fresh "E" in
      let E3 := fresh "E" in
      destruct (createDoubleFBO_cases w h f p e s) as [[E1 E2]|(E1 & E2 & E3)];
      destruct (createDoubleFBO w h f p e s) as [? ?];
      cbn [fst snd] in *;
      [ first [ discriminate E1 | injection E1 as E1; subst ] | subst ]
  | |- context [createFBO ?w ?h ?f ?p ?e ?s] =>
      let E1 := fresh "E" in
      let E2 := fresh "E" in
      destruct (createFBO_cases w h f p e s) as [[E1 E2]|[E1 E2]];
      destruct (createFBO w h f p e s) as [? ?];
      cbn [fst snd] in *;
      [ first [ discriminate E1 | injection E1 as E1; subst ] | subst ]
  end;
  cbn [set_dye set_velocity set_divergence set_curl set_pressure
       set_texturesCreated dye velocity divergence curl pressure
       texturesCreated CONFIG ext canvasWidth canvasHeight] in *.

Lemma distinctTextures_initFramebuffers (st : Sim) :
  distinctTextures st -> distinctTextures (initFramebuffers true st).
Proof.
  intros H. open_distinct H.
  unfold initFramebuffers. cbv beta zeta iota.
  alloc_cases; alloc_cases; alloc_cases; alloc_cases; alloc_cases;
    unfold distinctTextures, textures;
    cbn [set_dye set_velocity set_divergence set_curl set_pressure
         set_texturesCreated dye velocity divergence curl pressure
         texturesCreated];
    repeat match goal with E : texture _ = _ |- _ => rewrite E; clear E end;
    close_distinct.
Qed.

Lemma distinctTextures_boot (e : Ext) (mobile : bool) (w h : Z)
    (rnd : nat -> R) (t0 : Z) :
  distinctTextures (boot e mobile w h rnd t0).
Proof.
  unfold boot. cbv zeta. unfold initFramebuffers. cbv beta zeta iota.
  alloc_cases; alloc_cases; alloc_cases; alloc_cases; alloc_cases;
    unfold distinctTextures, textures;
    cbn [set_dye set_velocity set_divergence set_curl set_pressure
         set_texturesCreated dye velocity divergence curl pressure
         texturesCreated];
    repeat match goal with E : texture _ = _ |- _ => rewrite E; clear E end;
    close_distinct.
Qed.

Lemma distinctTextures_resize (f : Frame) (st : Sim) :
  distinctTextures st ->
  distinctTextures (if fst (resizeCanvas f st)
                    then initFramebuffers true (snd (resizeCanvas f st))
                    else snd (resizeCanvas f st)).
Proof.
  intros H. unfold resizeCanvas.
  destruct (negb (canvasWidth st =? _)%Z || negb (canvasHeight st =? _)%Z);
    cbn [fst snd]; [|exact H].
  apply distinctTextures_initFramebuffers. exact H.
Qed.

Lemma distinctTextures_update (f : Frame) (st : Sim) :
  distinctTextures st -> distinctTextures (update f st).
Proof.
  intros H. rewrite update_eq, beforeStep_eq. cbn [fst snd].
  apply (distinct_sameTextures _ _ (sameTextures_render _)).
  assert (H1 : distinctTextures
                 (applyInputs
                    (updateColors (fst (calcDeltaTime (now f) st))
                       (if fst (resizeCanvas f (snd (calcDeltaTime (now f) st)))
                        then initFramebuffers true
                               (snd (resizeCanvas f
                                       (snd (calcDeltaTime (now f) st))))
                        else snd (resizeCanvas f
                                    (snd (calcDeltaTime (now f) st))))))).
  { apply (distinct_sameTextures _ _ (sameTextures_applyInputs _)).
    apply (distinct_sameTextures _ _
             (sameTextures_device _ _ (device_updateColors _ _))).
    apply distinctTextures_resize. exact H. }
  destruct (negb _); [|exact H1].
  apply (distinct_sameTextures _ _ (sameTextures_step _ _)). exact H1.
Qed.

Lemma sameTextures_handle (e : Event) (st : Sim) :
  (forall f, e <> Tick f) -> sameTextures (handle e st) st.
Proof.
  intros Hn.
  destruct e as [f| |x y r|x y r| |ts r|ts r|ids|k|x y dx dy col|amount| | ];
    cbn [handle].
  - now elim (Hn f).
  - apply sameTextures_multipleSplats.
  - apply sameTextures_device, device_mousedown.
  - apply sameTextures_device, device_mousemove.
  - unfold mouseup. destruct (pointers st); [apply sameTextures_refl|].
    now apply sameTextures_fields.
  - apply sameTextures_device, device_touchstart.
  - apply sameTextures_device, device_touchmove.
  - now apply sameTextures_fields.
  - destruct k; cbn [keydown]; try apply sameTextures_refl;
      now apply sameTextures_fields.
  - unfold FluidField.splatNormalized. cbv zeta.
    destruct col as [c|]; [apply sameTextures_splat|].
    unfold generateColor, Math_random. cbv zeta.
    refine (sameTextures_trans _ _ _ (sameTextures_splat _ _ _ _ _ _) _).
    now apply sameTextures_fields.
  - apply sameTextures_multipleSplats.
  - now apply sameTextures_fields.
  - now apply sameTextures_fields.
Qed.

Lemma distinctTextures_handle (e : Event) (st : Sim) :
  distinctTextures st -> distinctTextures (handle e st).
Proof.
  intros H. destruct e;
    try (apply (distinct_sameTextures _ st);
         [apply sameTextures_handle; discriminate | exact H]).
  cbn [handle]. now apply distinctTextures_update.
Qed.

Lemma distinctTextures_run (e : Ext) (mobile : bool) (w h : Z)
    (rnd : nat -> R) (t0 : Z) (es : list Event) :
  distinctTextures (run es (boot e mobile w h rnd t0)).
Proof.
  induction es as [|ev es IH] using rev_ind.
  - apply distinctTextures_boot.
  - rewrite run_snoc. now apply distinctTextures_handle.
Qed.

(** X13: in every state the page can reach from a canvas that is not
    empty, the eight textures behind the dye, the velocity, the
    divergence, the curl and the pressure are pairwise distinct objects
    the script has created, so that the buffer a pass writes is never one
    it samples; resizing allocates new textures and never reuses the
    texture of another target. *)
Theorem textures_never_alias (e : Ext) (mobile : bool) (w h : Z)
    (rnd : nat -> R) (t0 : Z) (es : list Event) :
  (0 < w)%Z -> (0 < h)%Z -> Forall visibleEvent es ->
  let st := run es (boot e mobile w h rnd t0) in
  NoDup (textures st)
  /\ texture (read (velocity st)) <> texture (write (velocity st))
  /\ texture (read (dye st)) <> texture (write (dye st))
  /\ texture (read (pressure st)) <> texture (write (pressure st))
  /\ Forall (fun t => (t < texturesCreated st)%nat) (textures st).
Proof.
  intros _ _ _ st.
  pose proof (distinctTextures_run e mobile w h rnd t0 es) as H. fold st in H.
  pose proof H as [N F]. split; [exact N|].
  open_distinct H.
  repeat split; try assumption; apply not_eq_sym; assumption.
Qed.

Lemma textures_never_alias_witness :
  NoDup (textures (run [KeyDown Space; Tick firstFrame]
                     (boot fullExt false 300 150 (fun _ => 0.5) 1000))).
Proof.
  apply (textures_never_alias fullExt false 300 150 (fun _ => 0.5) 1000
           [KeyDown Space; Tick firstFrame]);
    [reflexivity | reflexivity |].
  repeat constructor; apply visible_firstFrame.
Defined.

(** ** The frame on the canvas *)

Lemma tabulate_ext (w h : Z) (f g : Z -> Z -> vec4) :
  (forall i j, (0 <= i < w)%Z -> (0 <= j < h)%Z -> f i j = g i j) ->
  tabulate w h f = tabulate w h g.
Proof.
  intros E. unfold tabulate. apply map_ext_in. intros j Hj.
  apply map_ext_in. intros i Hi.
  apply in_seq in Hi, Hj. apply E; lia.
Qed.

Lemma screen_render_displayed (st : Sim) :
  built st colorProgram = true -> built st displayProgram = true ->
  screen (render st) = displayed st.
Proof.
  intros Hc Hd. unfold render. rewrite Hc, Hd. cbn [andb negb].
  unfold displayed. cbv zeta.
  destruct (negb (TRANSPARENT (CONFIG st)));
    unfold drawDisplay, drawColor, drawCanvas, blit; cbv zeta;
    cbn [screen set_screen set_drawCalls canvasWidth canvasHeight dye CONFIG];
    apply tabulate_ext; intros i j Hi Hj;
    (replace (i <? canvasWidth st)%Z with true
       by (symmetry; apply Z.ltb_lt; lia));
    (replace (j <? canvasHeight st)%Z with true
       by (symmetry; apply Z.ltb_lt; lia));
    reflexivity.
Qed.

Lemma clamp_unit (x : R) : 0 <= clamp x 0 1 <= 1.
Proof.
  unfold clamp, Rmin, Rmax.
  repeat destruct (Rle_dec _ _); lra.
Qed.

Lemma clamp_one : clamp 1 0 1 = 1.
Proof.
  unfold clamp, Rmin, Rmax.
  repeat destruct (Rle_dec _ _); lra.
Qed.

(** X14: with the programs linked, the frame [render] leaves on the
    canvas is the image of the display pass of the dye alone: it does not
    depend on [BACK_COLOR], on [TRANSPARENT] or on what the canvas showed
    before (the background pass is fully overwritten, blending being
    off), every pixel is opaque and every channel lies in [[0, 1]]. *)
Theorem render_overwrites_background (st : Sim) (c : Rgb.t)
    (transparent : bool) (old : list (list vec4)) :
  built st colorProgram = true -> built st displayProgram = true ->
  screen (render (set_screen old
                    (set_CONFIG (withBackground c transparent (CONFIG st))
                       st)))
  = screen (render st)
  /\ forall i j, (0 <= i < canvasWidth st)%Z -> (0 <= j < canvasHeight st)%Z ->
       let px := fetch (screen (render st)) i j in
       v4w px = 1
       /\ 0 <= v4x px <= 1 /\ 0 <= v4y px <= 1 /\ 0 <= v4z px <= 1.
Proof.
  intros Hc Hd. split.
  - rewrite !screen_render_displayed by assumption. reflexivity.
  - intros i j Hi Hj px. subst px.
    rewrite screen_render_displayed by assumption.
    unfold displayed. cbv zeta. rewrite fetch_tabulate by assumption.
    unfold storeCanvas, displayShader. cbv zeta. cbn [v4x v4y v4z v4w].
    split; [apply clamp_one|].
    repeat split; apply clamp_unit.
Qed.

Lemma render_overwrites_background_witness :
  screen (render (set_screen []
                    (set_CONFIG
                       (withBackground (Rgb.mk 255 0 0) true (CONFIG loaded))
                       loaded)))
  = screen (render loaded).
Proof.
  apply (render_overwrites_background loaded (Rgb.mk 255 0 0) true []);
    reflexivity.
Defined.

Lemma mix_same (c : vec4) (t : R) : mix c c t = c.
Proof.
  destruct c as [x y z w]. unfold mix. cbn [v4x v4y v4z v4w]. f_equal; ring.
Qed.

(** Sampling an image whose texels all hold the same colour. *)
Lemma texture2D_uniform (t : FBO) (c : vec4) (uv : vec2) :
  (forall i j, texel t i j = c) -> texture2D t uv = c.
Proof.
  intros H. unfold texture2D. cbv zeta. destruct (param t).
  - apply H.
  - now rewrite !H, !mix_same.
Qed.

Lemma length2_texelSize_pos (w h : Z) :
  (0 < w)%Z -> 0 < length2 (mkVec2 (1 / IZR w) (1 / IZR h)).
Proof.
  intros Hw. unfold length2, dot2. cbn [v2x v2y].
  apply sqrt_lt_R0.
  assert (0 < 1 / IZR w)
    by (apply Rdiv_lt_0_compat; [lra | now apply IZR_lt]).
  nra.
Qed.

Lemma clamp_shading (shading : bool) :
  clamp (1 + (if shading then 0.65 else 0)) 0.3 1.25
  = if shading then 1.25 else 1.
Proof.
  unfold clamp, Rmin, Rmax. destruct shading;
    repeat destruct (Rle_dec _ _); lra.
Qed.

Lemma texel_clamped (t : FBO) (i j : Z) :
  (0 < width t)%Z -> (0 < height t)%Z ->
  exists i' j', (0 <= i' < width t)%Z /\ (0 <= j' < height t)%Z
                /\ texel t i j = texel t i' j'.
Proof.
  intros Hw Hh.
  exists (clampZ 0 (width t - 1) i), (clampZ 0 (height t - 1) j).
  assert (Ci : (0 <= clampZ 0 (width t - 1) i < width t)%Z)
    by (unfold clampZ; lia).
  assert (Cj : (0 <= clampZ 0 (height t - 1) j < height t)%Z)
    by (unfold clampZ; lia).
  split; [exact Ci|]. split; [exact Cj|].
  unfold texel.
  now rewrite (clampZ_inside _ _ Ci), (clampZ_inside _ _ Cj).
Qed.

(** A property of the texels of a grid holds of every lookup, the
    lookups outside the grid being clamped to its edge. *)
Lemma texel_everywhere (t : FBO) (P : vec4 -> Prop) :
  (0 < width t)%Z -> (0 < height t)%Z ->
  (forall i j, (0 <= i < width t)%Z -> (0 <= j < height t)%Z ->
     P (texel t i j)) ->
  forall i j, P (texel t i j).
Proof.
  intros Hw Hh H i j.
  destruct (texel_clamped t i j Hw Hh) as (i' & j' & Hi & Hj & ->).
  now apply H.
Qed.

Lemma dye_read_size (st : Sim) :
  Inv st ->
  width (read (dye st)) = dwidth (dye st)
  /\ height (read (dye st)) = dheight (dye st).
Proof.
  intros H. destruct (inv_dye st H) as (_ & _ & _ & _ & (Rw & Rh & _) & _).
  now split.
Qed.

(** X15: where the dye is one colour everywhere, the frame is flat: the
    display pass finds no gradient, its normal points at the viewer, and
    every pixel of the canvas is the dye colour times 1.25 with
    [SHADING] (the clamp of 1 + 0.65) and times 1 without, opaque and
    clamped to [[0, 1]]. *)
Theorem display_uniform_dye (st : Sim) (c : vec4) (i j : Z) :
  Inv st ->
  (forall i j, (0 <= i < dwidth (dye st))%Z -> (0 <= j < dheight (dye st))%Z ->
     texel (read (dye st)) i j = c) ->
  (0 <= i < canvasWidth st)%Z -> (0 <= j < canvasHeight st)%Z ->
  let k := if SHADING (CONFIG st) then 1.25 else 1 in
  fetch (screen (render st)) i j
  = storeCanvas (mkVec4 (k * v4x c) (k * v4y c) (k * v4z c) 1).
Proof.
  intros H Hc0 Hi Hj k.
  destruct (dye_read_size st H) as [Rw Rh].
  assert (Hc : forall i j, texel (read (dye st)) i j = c).
  { apply (texel_everywhere (read (dye st)) (fun x => x = c));
      rewrite ?Rw, ?Rh; [apply H | apply H | exact Hc0]. }
  rewrite screen_render_displayed by apply (inv_built st H).
  unfold displayed. cbv zeta. rewrite fetch_tabulate by assumption.
  f_equal. unfold displayShader. cbv zeta.
  rewrite !(texture2D_uniform _ c _ Hc).
  replace (length3 (xyz c) - length3 (xyz c)) with 0 by ring.
  pose proof (length2_texelSize_pos (canvasWidth st) (canvasHeight st)
                (inv_canvasWidth st H)) as Hl.
  set (l := length2 _) in *.
  assert (El : length3 (mkVec3 0 0 l) = l).
  { unfold length3. cbn [v3x v3y v3z].
    replace (0 * 0 + 0 * 0 + l * l) with (l * l) by ring.
    apply sqrt_square. lra. }
  rewrite El. cbn [scale3 v3x v3y v3z xyz].
  replace (/ l * l) with 1 by (field; lra).
  rewrite clamp_shading. reflexivity.
Qed.

(** ** The state after the first allocation *)

Ltac skip_allocs :=
  repeat match goal with
  | |- context [createDoubleFBO ?w ?h ?f ?p ?e ?s] =>
      let n := fresh "n" in
      let Hn := fresh "Hn" in
      destruct (createDoubleFBO_outside w h f p e s) as [n Hn];
      destruct (createDoubleFBO w h f p e s) as [? ?];
      cbn [snd] in Hn; subst
  | |- context [createFBO ?w ?h ?f ?p ?e ?s] =>
      let n := fresh "n" in
      let Hn := fresh "Hn" in
      destruct (createFBO_outside w h f p e s) as [n Hn];
      destruct (createFBO w h f p e s) as [? ?];
      cbn [snd] in Hn; subst
  end.

Lemma dye_first_init (st : Sim) :
  dye (initFramebuffers false st)
  = fst (createDoubleFBO
           (fst (getResolution (DYE_RESOLUTION (CONFIG st)) st))
           (snd (getResolution (DYE_RESOLUTION (CONFIG st)) st))
           (formatRGBA (ext st))
           (if supportLinearFiltering (ext st) then LINEAR else NEAREST)
           None st).
Proof.
  unfold initFramebuffers. cbv beta iota zeta.
  match goal with
  | |- context [createDoubleFBO ?w ?h ?f ?p None st] =>
      destruct (createDoubleFBO w h f p None st) as [d s1]
  end.
  skip_allocs. reflexivity.
Qed.

Lemma pressure_first_init (st : Sim) :
  exists s',
    pressure (initFramebuffers false st)
    = fst (createDoubleFBO
             (fst (getResolution (SIM_RESOLUTION (CONFIG st)) st))
             (snd (getResolution (SIM_RESOLUTION (CONFIG st)) st))
             (formatR (ext st)) NEAREST None s').
Proof.
  unfold initFramebuffers. cbv beta iota zeta.
  do 2 match goal with
  | |- context [createDoubleFBO ?w ?h ?f ?p None ?s] =>
      let n := fresh "n" in
      let Hn := fresh "Hn" in
      destruct (createDoubleFBO_outside w h f p None s) as [n Hn];
      destruct (createDoubleFBO w h f p None s) as [? ?];
      cbn [snd] in Hn; subst
  end.
  do 2 match goal with
  | |- context [createFBO ?w ?h ?f ?p None ?s] =>
      let n := fresh "n" in
      let Hn := fresh "Hn" in
      destruct (createFBO_outside w h f p None s) as [n Hn];
      destruct (createFBO w h f p None s) as [? ?];
      cbn [snd] in Hn; subst
  end.
  eexists.
  match goal with
  | |- context [createDoubleFBO ?w ?h ?f ?p None ?s] =>
      destruct (createDoubleFBO w h f p None s) as [? ?] eqn:E
  end.
  cbn [pressure set_pressure]. rewrite E. reflexivity.
Qed.

(** The page starts with every texel of the dye, the velocity and the
    pressure at the clear colour. *)
Lemma boot_cleared (e : Ext) (mobile : bool) (w h : Z) (rnd : nat -> R)
    (t0 : Z) :
  let st := boot e mobile w h rnd t0 in
  (forall i j, (0 <= i < dwidth (dye st))%Z -> (0 <= j < dheight (dye st))%Z ->
     texel (read (dye st)) i j = clearColor)
  /\ (forall i j, (0 <= i < dwidth (velocity st))%Z ->
        (0 <= j < dheight (velocity st))%Z ->
        texel (read (velocity st)) i j = clearColor)
  /\ (forall i j, (0 <= i < dwidth (pressure st))%Z ->
        (0 <= j < dheight (pressure st))%Z ->
        texel (read (pressure st)) i j = clearColor).
Proof.
  intros st. unfold st, boot. cbv zeta.
  match goal with |- context [initFramebuffers false ?s] =>
    rewrite (dye_first_init s);
    destruct (velocity_first_init s) as [s1 ->];
    destruct (pressure_first_init s) as [s2 ->]
  end.
  repeat split; intros i j Hi Hj; apply createDoubleFBO_fresh_texel;
    assumption.
Qed.

Lemma display_uniform_dye_witness :
  fetch (screen (render loaded)) 0 0
  = storeCanvas
      (mkVec4 ((if SHADING (CONFIG loaded) then 1.25 else 1) * v4x clearColor)
         ((if SHADING (CONFIG loaded) then 1.25 else 1) * v4y clearColor)
         ((if SHADING (CONFIG loaded) then 1.25 else 1) * v4z clearColor) 1).
Proof.
  apply (display_uniform_dye loaded clearColor 0 0 Inv_loaded
           (proj1 (boot_cleared fullExt false 300 150 (fun _ => 0.5) 1000)));
    split; reflexivity.
Defined.

(** ** Curl, vorticity and the pressure gradient, texel by texel *)

Lemma v4y_storeTexel (f : InternalFormat) (c : vec4) :
  f <> R16F -> v4y (storeTexel f c) = v4y c.
Proof. destruct f; [contradiction | reflexivity ..]. Qed.

Lemma curlStage_texel (st : Sim) (i j : Z) :
  Inv st ->
  (0 <= i < dwidth (velocity st))%Z -> (0 <= j < dheight (velocity st))%Z ->
  let u := read (velocity st) in
  v4x (texel (curl (curlStage st)) i j)
  = 0.5 * (v4y (texel u (i + 1) j) - v4y (texel u (i - 1) j)
           - v4x (texel u i (j + 1)) + v4x (texel u i (j - 1))).
Proof.
  intros H Hi Hj u.
  destruct (inv_velocity st H) as (_ & _ & Tx & Ty & (Rw & Rh & _) & _).
  destruct (inv_curl st H) as (Cw & Ch & _).
  pose proof (inv_simWidth st H) as Hw. pose proof (inv_simHeight st H) as Hh.
  change (curl (curlStage st))
    with (renderTo (dwidth (velocity st)) (dheight (velocity st))
            (simTexelSize st) (curlShader (read (velocity st))) (curl st)).
  rewrite texel_renderTo by (rewrite ?Cw, ?Ch; lia).
  rewrite v4x_storeTexel. unfold curlShader, simTexelSize. cbv zeta.
  rewrite Tx, Ty.
  rewrite (sample_L _ _ _ i j Hw Hh Rw Rh), (sample_R _ _ _ i j Hw Hh Rw Rh),
    (sample_T _ _ _ i j Hw Hh Rw Rh), (sample_B _ _ _ i j Hw Hh Rw Rh).
  reflexivity.
Qed.

(** X16: the curl pass writes, at every texel,
    [0.5 * (R.y - L.y - T.x + B.x)] of the four neighbours of the
    velocity, the neighbour of an edge texel being that texel itself
    (the lookup is clamped, no wall is mirrored); a velocity that is the
    same everywhere has zero curl, edges included. *)
Theorem curl_stage_texels (st : Sim) (i j : Z) :
  Inv st ->
  (0 <= i < dwidth (velocity st))%Z -> (0 <= j < dheight (velocity st))%Z ->
  let u := read (velocity st) in
  let w := dwidth (velocity st) in
  let h := dheight (velocity st) in
  v4x (texel (curl (curlStage st)) i j)
  = 0.5 * (v4y (texel u (Z.min (i + 1) (w - 1)) j)
           - v4y (texel u (Z.max (i - 1) 0) j)
           - v4x (texel u i (Z.min (j + 1) (h - 1)))
           + v4x (texel u i (Z.max (j - 1) 0)))
  /\ ((forall a b, texel u a b = texel u i j) ->
      v4x (texel (curl (curlStage st)) i j) = 0).
Proof.
  intros H Hi Hj u w h.
  destruct (inv_velocity st H) as (_ & _ & _ & _ & (Rw & Rh & _) & _).
  rewrite (curlStage_texel st i j H Hi Hj). cbv zeta. fold u.
  split.
  - assert (E : forall a b, texel u a b
                = texel u (clampZ 0 (w - 1) a) (clampZ 0 (h - 1) b)).
    { intros a b. unfold texel, u, w, h. rewrite Rw, Rh.
      f_equal; unfold clampZ; lia. }
    rewrite (E (i + 1)%Z j), (E (i - 1)%Z j), (E i (j + 1)%Z),
      (E i (j - 1)%Z).
    replace (clampZ 0 (w - 1) (i + 1)) with (Z.min (i + 1) (w - 1))
      by (unfold clampZ, w; lia).
    replace (clampZ 0 (w - 1) (i - 1)) with (Z.max (i - 1) 0)
      by (unfold clampZ, w; lia).
    replace (clampZ 0 (h - 1) (j + 1)) with (Z.min (j + 1) (h - 1))
      by (unfold clampZ, h; lia).
    replace (clampZ 0 (h - 1) (j - 1)) with (Z.max (j - 1) 0)
      by (unfold clampZ, h; lia).
    replace (clampZ 0 (w - 1) i) with i by (unfold clampZ, w; lia).
    replace (clampZ 0 (h - 1) j) with j by (unfold clampZ, h; lia).
    reflexivity.
  - intros Hu.
    rewrite (Hu (i + 1)%Z j), (Hu (i - 1)%Z j), (Hu i (j + 1)%Z),
      (Hu i (j - 1)%Z). lra.
Qed.

Lemma curl_stage_texels_witness :
  v4x (texel (curl (curlStage loaded)) 0 0)
  = 0.5 * (v4y (texel (read (velocity loaded))
                  (Z.min (0 + 1) (dwidth (velocity loaded) - 1)) 0)
           - v4y (texel (read (velocity loaded)) (Z.max (0 - 1) 0) 0)
           - v4x (texel (read (velocity loaded)) 0
                    (Z.min (0 + 1) (dheight (velocity loaded) - 1)))
           + v4x (texel (read (velocity loaded)) 0 (Z.max (0 - 1) 0))).
Proof.
  apply (curl_stage_texels loaded 0 0 Inv_loaded).
  - split; [reflexivity | apply (inv_simWidth loaded Inv_loaded)].
  - split; [reflexivity | apply (inv_simHeight loaded Inv_loaded)].
Defined.

Lemma length2_nonneg (a : vec2) : 0 <= length2 a.
Proof. apply sqrt_pos. Qed.

Lemma component_le_length2 (a : vec2) :
  Rabs (v2x a) <= length2 a /\ Rabs (v2y a) <= length2 a.
Proof.
  unfold length2, dot2. split.
  - rewrite <- sqrt_Rsqr_abs. apply sqrt_le_1_alt. unfold Rsqr.
    pose proof (Rle_0_sqr (v2y a)) as P. unfold Rsqr in P. lra.
  - rewrite <- sqrt_Rsqr_abs. apply sqrt_le_1_alt. unfold Rsqr.
    pose proof (Rle_0_sqr (v2x a)) as P. unfold Rsqr in P. lra.
Qed.

Lemma confinement_unit (L R T B : R) :
  Rabs (v2x (confinement L R T B)) <= 1
  /\ Rabs (v2y (confinement L R T B)) <= 1.
Proof.
  unfold confinement. cbv zeta.
  set (f := scale2 0.5 (mkVec2 (Rabs T - Rabs B) (Rabs R - Rabs L))).
  destruct (component_le_length2 f) as [Hx Hy].
  pose proof (length2_nonneg f) as Hl.
  set (l := length2 f) in *.
  assert (Hk : 0 < / (l + 0.0001)) by (apply Rinv_0_lt_compat; lra).
  assert (Hk1 : / (l + 0.0001) * (l + 0.0001) = 1) by (field; lra).
  cbn [scale2 v2x v2y].
  split.
  - rewrite Rabs_mult, (Rabs_right (/ (l + 0.0001))) by lra.
    pose proof (Rabs_pos (v2x f)). nra.
  - rewrite !Rabs_mult, (Rabs_right (/ (l + 0.0001))) by lra.
    replace (Rabs (-1)) with 1 by (rewrite Rabs_left; lra).
    pose proof (Rabs_pos (v2y f)). nra.
Qed.

Lemma vorticityStage_texel (dt : R) (st : Sim) (i j : Z) :
  Inv st ->
  (0 <= i < dwidth (velocity st))%Z -> (0 <= j < dheight (velocity st))%Z ->
  let c := curl st in
  let g := confinement (v4x (texel c (i - 1) j)) (v4x (texel c (i + 1) j))
             (v4x (texel c i (j + 1))) (v4x (texel c i (j - 1))) in
  let k := dt * (CURL (CONFIG st) * v4x (texel c i j)) in
  texel (read (velocity (vorticityStage dt st))) i j
  = storeTexel (internalFormat (write (velocity st)))
      (mkVec4 (v4x (texel (read (velocity st)) i j) + k * v2x g)
              (v4y (texel (read (velocity st)) i j) + k * v2y g) 0 1).
Proof.
  intros H Hi Hj c g k.
  destruct (inv_velocity st H)
    as (_ & _ & Tx & Ty & (Rw & Rh & _) & (Ww & Wh & _)).
  destruct (inv_curl st H) as (Cw & Ch & _).
  pose proof (inv_simWidth st H) as Hw. pose proof (inv_simHeight st H) as Hh.
  change (read (velocity (vorticityStage dt st)))
    with (renderTo (dwidth (velocity st)) (dheight (velocity st))
            (simTexelSize st)
            (vorticityShader (read (velocity st)) (curl st)
               (CURL (CONFIG st)) dt)
            (write (velocity st))).
  rewrite texel_renderTo by (rewrite ?Ww, ?Wh; lia).
  f_equal. unfold vorticityShader, simTexelSize. cbv zeta.
  rewrite Tx, Ty.
  rewrite (sample_L _ _ _ i j Hw Hh Cw Ch), (sample_R _ _ _ i j Hw Hh Cw Ch),
    (sample_T _ _ _ i j Hw Hh Cw Ch), (sample_B _ _ _ i j Hw Hh Cw Ch),
    (sample_C _ _ _ i j Hw Hh Cw Ch), (sample_C _ _ _ i j Hw Hh Rw Rh).
  fold c. subst g k. unfold confinement. cbv zeta.
  cbn [add2 scale2 xy v2x v2y]. f_equal; ring.
Qed.

(** X17: the vorticity pass moves the velocity of a texel by the
    confinement force times [dt * CURL * C], [C] being the curl at the
    texel; each component of the force is at most 1 in absolute value, so
    the first component of the velocity changes by at most
    [|dt * CURL * C|], and so does the second when the velocity format
    stores it; where the curl is zero, or for a zero timestep, the first
    component is left as it is. *)
Theorem vorticity_confined (dt : R) (st : Sim) (i j : Z) :
  Inv st ->
  (0 <= i < dwidth (velocity st))%Z -> (0 <= j < dheight (velocity st))%Z ->
  let old := texel (read (velocity st)) i j in
  let new := texel (read (velocity (vorticityStage dt st))) i j in
  let k := dt * (CURL (CONFIG st) * v4x (texel (curl st) i j)) in
  Rabs (v4x new - v4x old) <= Rabs k
  /\ (internalFormat (write (velocity st)) <> R16F ->
      Rabs (v4y new - v4y old) <= Rabs k)
  /\ (k = 0 -> v4x new = v4x old).
Proof.
  intros H Hi Hj old new k. subst new.
  rewrite (vorticityStage_texel dt st i j H Hi Hj). cbv zeta.
  fold old. fold k.
  set (g := confinement _ _ _ _).
  destruct (confinement_unit (v4x (texel (curl st) (i - 1) j))
              (v4x (texel (curl st) (i + 1) j))
              (v4x (texel (curl st) i (j + 1)))
              (v4x (texel (curl st) i (j - 1)))) as [Gx Gy].
  fold g in Gx, Gy.
  rewrite v4x_storeTexel. cbn [v4x].
  split; [|split].
  - replace (v4x old + k * v2x g - v4x old) with (k * v2x g) by ring.
    rewrite Rabs_mult. pose proof (Rabs_pos k). nra.
  - intros Hf. rewrite v4y_storeTexel by exact Hf. cbn [v4y].
    replace (v4y old + k * v2y g - v4y old) with (k * v2y g) by ring.
    rewrite Rabs_mult. pose proof (Rabs_pos k). nra.
  - intros ->. ring.
Qed.

Lemma vorticity_confined_witness :
  Rabs (v4x (texel (read (velocity (vorticityStage 0.016 loaded))) 0 0)
        - v4x (texel (read (velocity loaded)) 0 0))
  <= Rabs (0.016 * (CURL (CONFIG loaded) * v4x (texel (curl loaded) 0 0))).
Proof.
  apply (vorticity_confined 0.016 loaded 0 0 Inv_loaded).
  - split; [reflexivity | apply (inv_simWidth loaded Inv_loaded)].
  - split; [reflexivity | apply (inv_simHeight loaded Inv_loaded)].
Defined.

Lemma gradientSubtractStage_texel (st : Sim) (i j : Z) :
  Inv st ->
  (0 <= i < dwidth (velocity st))%Z -> (0 <= j < dheight (velocity st))%Z ->
  let p := read (pressure st) in
  let u := texel (read (velocity st)) i j in
  texel (read (velocity (gradientSubtractStage st))) i j
  = storeTexel (internalFormat (write (velocity st)))
      (mkVec4
         (v4x u - (v4x (texel p (i + 1) j) - v4x (texel p (i - 1) j)))
         (v4y u - (v4x (texel p i (j + 1)) - v4x (texel p i (j - 1))))
         0 1).
Proof.
  intros H Hi Hj p u.
  destruct (inv_velocity st H)
    as (_ & _ & Tx & Ty & (Rw & Rh & _) & (Ww & Wh & _)).
  destruct (inv_pressure st H) as (_ & _ & _ & _ & (Pw & Ph & _) & _).
  pose proof (inv_simWidth st H) as Hw. pose proof (inv_simHeight st H) as Hh.
  change (read (velocity (gradientSubtractStage st)))
    with (renderTo (dwidth (velocity st)) (dheight (velocity st))
            (simTexelSize st)
            (gradientSubtractShader (read (pressure st)) (read (velocity st)))
            (write (velocity st))).
  rewrite texel_renderTo by (rewrite ?Ww, ?Wh; lia).
  f_equal. unfold gradientSubtractShader, simTexelSize. cbv zeta.
  rewrite Tx, Ty.
  rewrite (sample_L _ _ _ i j Hw Hh Pw Ph), (sample_R _ _ _ i j Hw Hh Pw Ph),
    (sample_T _ _ _ i j Hw Hh Pw Ph), (sample_B _ _ _ i j Hw Hh Pw Ph),
    (sample_C _ _ _ i j Hw Hh Rw Rh).
  reflexivity.
Qed.

(** X18: the projection pass subtracts from the velocity of a texel the
    difference of the pressure across it, [(R - L, T - B)], not halved
    and with the lookups clamped at the edges; a pressure that is the
    same everywhere leaves the first component of the velocity as it
    is, and the second too when the format stores it. *)
Theorem gradient_subtract_texels (st : Sim) (i j : Z) :
  Inv st ->
  (0 <= i < dwidth (velocity st))%Z -> (0 <= j < dheight (velocity st))%Z ->
  let p := read (pressure st) in
  let old := texel (read (velocity st)) i j in
  let new := texel (read (velocity (gradientSubtractStage st))) i j in
  v4x new = v4x old - (v4x (texel p (i + 1) j) - v4x (texel p (i - 1) j))
  /\ (internalFormat (write (velocity st)) <> R16F ->
      v4y new
      = v4y old - (v4x (texel p i (j + 1)) - v4x (texel p i (j - 1))))
  /\ ((forall a b, v4x (texel p a b) = v4x (texel p i j)) ->
      v4x new = v4x old).
Proof.
  intros H Hi Hj p old new. subst new.
  rewrite (gradientSubtractStage_texel st i j H Hi Hj). cbv zeta.
  fold p. fold old. rewrite v4x_storeTexel. cbn [v4x].
  split; [reflexivity|]. split.
  - intros Hf. rewrite v4y_storeTexel by exact Hf. reflexivity.
  - intros Hu. rewrite (Hu (i + 1)%Z j), (Hu (i - 1)%Z j). ring.
Qed.

Lemma gradient_subtract_texels_witness :
  v4x (texel (read (velocity (gradientSubtractStage loaded))) 0 0)
  = v4x (texel (read (velocity loaded)) 0 0)
    - (v4x (texel (read (pressure loaded)) (0 + 1) 0)
       - v4x (texel (read (pressure loaded)) (0 - 1) 0)).
Proof.
  apply (gradient_subtract_texels loaded 0 0 Inv_loaded).
  - split; [reflexivity | apply (inv_simWidth loaded Inv_loaded)].
  - split; [reflexivity | apply (inv_simHeight loaded Inv_loaded)].
Defined.

(** ** The fluid at rest *)




Lemma bilerp_center (sam : FBO) (uv : vec2) (w h i j : Z) :
  (0 < w)%Z -> (0 < h)%Z -> width sam = w -> height sam = h ->
  v2x uv * IZR w = IZR i + 0.5 -> v2y uv * IZR h = IZR j + 0.5 ->
  bilerp sam uv (mkVec2 (1 / IZR w) (1 / IZR h)) = texel sam i j.
Proof.
  intros Hw Hh Ew Eh Hu Hv. unfold bilerp. cbv zeta. cbn [v2x v2y].
  assert (Pw : IZR w <> 0) by (apply not_0_IZR; lia).
  assert (Ph : IZR h <> 0) by (apply not_0_IZR; lia).
  replace (v2x uv / (1 / IZR w) - 0.5) with (IZR i)
    by (replace (v2x uv / (1 / IZR w)) with (v2x uv * IZR w)
          by (field; exact Pw); lra).
  replace (v2y uv / (1 / IZR h) - 0.5) with (IZR j)
    by (replace (v2y uv / (1 / IZR h)) with (v2y uv * IZR h)
          by (field; exact Ph); lra).
  unfold floorR. rewrite !Zfloor_IZR. cbn [sub2 v2x v2y].
  replace (IZR i - IZR i) with 0 by ring.
  replace (IZR j - IZR j) with 0 by ring.
  rewrite !mix_0.
  apply texture2D_center; rewrite ?Ew, ?Eh; cbn [mul2 add2 v2x v2y];
    field_dec; assumption.
Qed.




Lemma restXY_after_pass (t : FBO) :
  (0 < width t)%Z -> (0 < height t)%Z ->
  (forall i j, (0 <= i < width t)%Z -> (0 <= j < height t)%Z ->
     v4x (texel t i j) = 0 /\ v4y (texel t i j) = 0) ->
  restXY t.
Proof.
  intros Hw Hh H. unfold restXY.
  now apply (texel_everywhere t (fun c => v4x c = 0 /\ v4y c = 0)).
Qed.

Lemma zeroX_after_pass (t : FBO) :
  (0 < width t)%Z -> (0 < height t)%Z ->
  (forall i j, (0 <= i < width t)%Z -> (0 <= j < height t)%Z ->
     v4x (texel t i j) = 0) ->
  zeroX t.
Proof.
  intros Hw Hh H. unfold zeroX.
  now apply (texel_everywhere t (fun c => v4x c = 0)).
Qed.

Lemma velocity_read_size (st : Sim) :
  Inv st ->
  width (read (velocity st)) = dwidth (velocity st)
  /\ height (read (velocity st)) = dheight (velocity st)
  /\ (0 < dwidth (velocity st))%Z /\ (0 < dheight (velocity st))%Z.
Proof.
  intros H. destruct (inv_velocity st H) as (_ & _ & _ & _ & (Rw & Rh & _) & _).
  repeat split; try assumption; apply H.
Qed.



Lemma rest_divergenceStage (st : Sim) :
  Inv st -> restXY (read (velocity st)) ->
  zeroX (divergence (divergenceStage st)).
Proof.
  intros H Hv.
  pose proof (Inv_divergenceStage st H) as H1.
  destruct (inv_divergence _ H1) as (Dw & Dh & _).
  apply zeroX_after_pass; rewrite ?Dw, ?Dh; try apply H1.
  intros i j Hi Hj. rewrite (divergenceStage_texel st i j H Hi Hj).
  cbv zeta.
  rewrite !(proj1 (Hv _ _)), !(proj2 (Hv _ _)).
  repeat destruct (_ =? _)%Z; lra.
Qed.






Lemma untouched_pressureIterations (n : nat) (st : Sim) :
  curl (Nat.iter n pressureIteration st) = curl st
  /\ dye (Nat.iter n pressureIteration st) = dye st.
Proof. induction n; simpl; [split; reflexivity | assumption]. Qed.


Lemma loaded_cleared :
  (forall i j, (0 <= i < dwidth (dye loaded))%Z ->
     (0 <= j < dheight (dye loaded))%Z ->
     texel (read (dye loaded)) i j = clearColor)
  /\ (forall i j, (0 <= i < dwidth (velocity loaded))%Z ->
        (0 <= j < dheight (velocity loaded))%Z ->
        texel (read (velocity loaded)) i j = clearColor)
  /\ (forall i j, (0 <= i < dwidth (pressure loaded))%Z ->
        (0 <= j < dheight (pressure loaded))%Z ->
        texel (read (pressure loaded)) i j = clearColor).
Proof. exact (boot_cleared fullExt false 300 150 (fun _ => 0.5) 1000). Qed.

Lemma loaded_at_rest :
  restXY (read (velocity loaded)) /\ zeroX (read (pressure loaded)).
Proof.
  destruct loaded_cleared as (_ & Bv & Bp).
  destruct (velocity_read_size loaded Inv_loaded) as (Rw & Rh & Pw & Ph).
  destruct (inv_pressure loaded Inv_loaded)
    as (Qw & Qh & _ & _ & (Sw & Sh & _) & _).
  split.
  - apply restXY_after_pass; rewrite ?Rw, ?Rh; try assumption.
    intros i j Hi Hj. rewrite (Bv i j Hi Hj). split; reflexivity.
  - apply zeroX_after_pass; rewrite ?Sw, ?Sh; try assumption.
    intros i j Hi Hj. rewrite (Bp i j); [reflexivity | |];
      rewrite ?Qw, ?Qh; assumption.
Qed.


(** ** The pressure solve stays bounded *)

Lemma pressure_read_size (st : Sim) :
  Inv st ->
  width (read (pressure st)) = dwidth (velocity st)
  /\ height (read (pressure st)) = dheight (velocity st).
Proof.
  intros H. destruct (inv_pressure st H) as (_ & _ & _ & _ & (Rw & Rh & _) & _).
  now split.
Qed.

Lemma Rabs_bounds (x b : R) : Rabs x <= b -> - b <= x <= b.
Proof. unfold Rabs. destruct (Rcase_abs x); lra. Qed.

Lemma jacobi_step_bound (st : Sim) (M D : R) :
  Inv st ->
  (forall i j, (0 <= i < dwidth (velocity st))%Z ->
     (0 <= j < dheight (velocity st))%Z ->
     Rabs (v4x (texel (read (pressure st)) i j)) <= M) ->
  (forall i j, (0 <= i < dwidth (velocity st))%Z ->
     (0 <= j < dheight (velocity st))%Z ->
     Rabs (v4x (texel (divergence st) i j)) <= D) ->
  forall i j, (0 <= i < dwidth (velocity st))%Z ->
    (0 <= j < dheight (velocity st))%Z ->
    Rabs (v4x (texel (read (pressure (pressureIteration st))) i j))
    <= M + D / 4.
Proof.
  intros H Hp Hd i j Hi Hj.
  destruct (pressure_read_size st H) as [Rw Rh].
  assert (Hall : forall a b, Rabs (v4x (texel (read (pressure st)) a b)) <= M).
  { apply (texel_everywhere _ (fun c => Rabs (v4x c) <= M));
      rewrite ?Rw, ?Rh; [apply H | apply H | exact Hp]. }
  rewrite (pressureIteration_texel st i j H Hi Hj). cbv zeta.
  pose proof (Hall (i - 1)%Z j) as B1. pose proof (Hall (i + 1)%Z j) as B2.
  pose proof (Hall i (j + 1)%Z) as B3. pose proof (Hall i (j - 1)%Z) as B4.
  pose proof (Hd i j Hi Hj) as B5.
  apply Rabs_le. apply Rabs_bounds in B1, B2, B3, B4, B5. lra.
Qed.

(** X20: the Jacobi iterations cannot blow the pressure up.  If the
    pressure is at most [M] and the divergence at most [D] in absolute
    value at every texel, then after [n] iterations the pressure is at
    most [M + n * D / 4] at every texel. *)
Theorem jacobi_bounded (n : nat) (st : Sim) (M D : R) :
  Inv st ->
  (forall i j, (0 <= i < dwidth (velocity st))%Z ->
     (0 <= j < dheight (velocity st))%Z ->
     Rabs (v4x (texel (read (pressure st)) i j)) <= M) ->
  (forall i j, (0 <= i < dwidth (velocity st))%Z ->
     (0 <= j < dheight (velocity st))%Z ->
     Rabs (v4x (texel (divergence st) i j)) <= D) ->
  forall i j, (0 <= i < dwidth (velocity st))%Z ->
    (0 <= j < dheight (velocity st))%Z ->
    Rabs (v4x (texel (read (pressure (Nat.iter n pressureIteration st))) i j))
    <= M + INR n * D / 4.
Proof.
  intros H Hp Hd. induction n as [|n IH]; intros i j Hi Hj.
  - simpl. rewrite Rmult_0_l. unfold Rdiv. rewrite Rmult_0_l, Rplus_0_r.
    now apply Hp.
  - simpl Nat.iter. set (s := Nat.iter n pressureIteration st) in *.
    pose proof (Inv_pressureIterations n st H) as Hs. fold s in Hs.
    assert (Ev : velocity s = velocity st)
      by apply velocity_pressureIterations.
    assert (Ed : divergence s = divergence st)
      by apply divergence_pressureIterations.
    rewrite S_INR.
    replace (M + (INR n + 1) * D / 4) with (M + INR n * D / 4 + D / 4)
      by field.
    apply (jacobi_step_bound s (M + INR n * D / 4) D Hs);
      rewrite ?Ev, ?Ed; assumption.
Qed.

Lemma jacobi_bounded_witness :
  Rabs (v4x (texel (read (pressure (Nat.iter 20 pressureIteration
                                      (divergenceStage loaded)))) 0 0))
  <= 0 + INR 20 * 0 / 4.
Proof.
  pose proof (Inv_divergenceStage loaded Inv_loaded) as H.
  apply (jacobi_bounded 20 (divergenceStage loaded) 0 0 H).
  - intros i j _ _.
    change (pressure (divergenceStage loaded)) with (pressure loaded).
    rewrite (proj2 loaded_at_rest i j), Rabs_R0. apply Rle_refl.
  - intros i j _ _.
    rewrite (rest_divergenceStage loaded Inv_loaded (proj1 loaded_at_rest) i j),
      Rabs_R0.
    apply Rle_refl.
  - split; [reflexivity | apply (inv_simWidth _ H)].
  - split; [reflexivity | apply (inv_simHeight _ H)].
Defined.

(** ** The clock and the colour timer across a tick *)

Lemma clocks_afterColors (n : nat) (st : Sim) :
  lastUpdateTime (afterColors n st) = lastUpdateTime st
  /\ colorUpdateTimer (afterColors n st) = colorUpdateTimer st.
Proof.
  induction n as [|n [IH1 IH2]]; [split; reflexivity|].
  change (afterColors (S n) st) with (snd (generateColor (afterColors n st))).
  split; [rewrite <- IH1 | rewrite <- IH2]; reflexivity.
Qed.

Lemma clocks_updateColors (dt : R) (st : Sim) :
  0 <= dt * COLOR_UPDATE_SPEED (CONFIG st) ->
  0 <= colorUpdateTimer st < 1 ->
  lastUpdateTime (updateColors dt st) = lastUpdateTime st
  /\ 0 <= colorUpdateTimer (updateColors dt st) < 1.
Proof.
  intros Hd Ht. unfold updateColors.
  destruct (negb (COLORFUL (CONFIG st))); [split; [reflexivity | exact Ht]|].
  destruct (Rge_dec _ 1) as [Hge|Hlt].
  - set (s1 := set_colorUpdateTimer _ st).
    pose proof (proj1 (recolor_generated (pointers s1) s1)) as E.
    destruct (recolor (pointers s1) s1) as [ps s2]. cbn [snd] in E.
    cbn [lastUpdateTime colorUpdateTimer set_pointers]. rewrite E.
    destruct (clocks_afterColors (length (pointers s1)) s1) as [-> ->].
    split; [reflexivity|]. unfold s1. cbn [colorUpdateTimer set_colorUpdateTimer].
    apply wrap_bounds. lra.
  - cbn [lastUpdateTime colorUpdateTimer set_colorUpdateTimer].
    split; [reflexivity | lra].
Qed.

Lemma clocks_of_outsideFields (a b : Sim) :
  outsideFields a = outsideFields b ->
  lastUpdateTime a = lastUpdateTime b
  /\ colorUpdateTimer a = colorUpdateTimer b /\ CONFIG a = CONFIG b.
Proof. unfold outsideFields. intros E. inversion E. repeat split; congruence. Qed.

Lemma clocks_of_fixed (a b : Sim) :
  fixedByInputs a = fixedByInputs b ->
  lastUpdateTime a = lastUpdateTime b
  /\ colorUpdateTimer a = colorUpdateTimer b.
Proof. unfold fixedByInputs. intros E. inversion E. split; congruence. Qed.

Lemma clocks_resize (f : Frame) (st : Sim) :
  let s := if fst (resizeCanvas f st)
           then initFramebuffers true (snd (resizeCanvas f st))
           else snd (resizeCanvas f st) in
  lastUpdateTime s = lastUpdateTime st
  /\ colorUpdateTimer s = colorUpdateTimer st /\ CONFIG s = CONFIG st.
Proof.
  cbv zeta. unfold resizeCanvas.
  destruct (negb _ || negb _); cbn [fst snd]; [|repeat split].
  destruct (clocks_of_outsideFields _ _
              (outsideFields_initFramebuffers true
                 (set_canvasHeight
                    (scaleByPixelRatio (IZR (clientHeight f))
                       (devicePixelRatio f))
                    (set_canvasWidth
                       (scaleByPixelRatio (IZR (clientWidth f))
                          (devicePixelRatio f)) st))))
    as (-> & -> & ->).
  repeat split.
Qed.

(** X21: a tick on a visible canvas whose clock reading is not earlier
    than the previous one records that reading as the time of the last
    update and, for a non-negative [COLOR_UPDATE_SPEED], keeps the colour
    timer in [[0, 1)]. *)
Theorem tick_clock_and_timer (f : Frame) (st : Sim) :
  Inv st -> visibleFrame f ->
  (lastUpdateTime st <= now f)%Z ->
  0 <= COLOR_UPDATE_SPEED (CONFIG st) ->
  0 <= colorUpdateTimer st < 1 ->
  lastUpdateTime (update f st) = now f
  /\ 0 <= colorUpdateTimer (update f st) < 1.
Proof.
  intros H Hf Hn Hs Ht.
  destruct (update_cases f st H Hf) as (s & -> & Es).
  pose proof (outsideRender_render s) as Er. unfold outsideRender in Er.
  assert (E1 : lastUpdateTime (render s) = lastUpdateTime s
               /\ colorUpdateTimer (render s) = colorUpdateTimer s)
    by (inversion Er; split; congruence).
  destruct E1 as [-> ->].
  destruct (splatStack_of_outsideSolver _ _ Es)
    as (_ & _ & -> & _ & _ & _ & ->).
  pose proof (Inv_beforeInputs f st Hf H) as Hb.
  destruct (applyInputs_summary _ (inv_built _ Hb splatProgram)) as (F & _).
  destruct (clocks_of_fixed _ _ F) as [-> ->].
  unfold beforeInputs. cbv zeta.
  set (dt := fst (calcDeltaTime (now f) st)).
  set (s0 := snd (calcDeltaTime (now f) st)).
  destruct (clocks_resize f s0) as (L & T & C). cbv zeta in L, T, C.
  set (s1 := if fst (resizeCanvas f s0) then _ else _) in *.
  assert (Hdt : 0 <= dt).
  { unfold dt, calcDeltaTime, maxDeltaTime. cbn [fst].
    apply Rmin_glb; [|lra].
    apply Rmult_le_pos; [apply IZR_le; lia | lra]. }
  destruct (clocks_updateColors dt s1) as [El Et].
  - rewrite C. apply Rmult_le_pos; assumption.
  - rewrite T. exact Ht.
  - split; [rewrite El, L; reflexivity | exact Et].
Qed.

Lemma tick_clock_and_timer_witness :
  lastUpdateTime (update firstFrame loaded) = now firstFrame
  /\ 0 <= colorUpdateTimer (update firstFrame loaded) < 1.
Proof.
  apply (tick_clock_and_timer firstFrame loaded Inv_loaded visible_firstFrame).
  - discriminate.
  - simpl. lra.
  - simpl. lra.
Defined.

(** ** Random splats *)


Lemma randomSplat_eq (st : Sim) :
  let s := set_randomCalls (randomCalls st + 5)
             (set_paletteIndex (paletteIndex st + 1) st) in
  let rnd k := random st (randomCalls st + k) in
  randomSplat st
  = splat (rnd 1%nat) (rnd 2%nat) (1000 * (rnd 3%nat - 0.5))
      (1000 * (rnd 4%nat - 0.5)) (Rgb.scale 12 (fst (generateColor st))) s.
Proof.
  cbv zeta. unfold randomSplat, generateColor, Math_random. cbv zeta.
  cbn [random randomCalls set_randomCalls set_paletteIndex paletteIndex].
  replace (randomCalls st + 5)%nat with (S (S (S (S (S (randomCalls st))))))
    by lia.
  replace (randomCalls st + 1)%nat with (S (randomCalls st)) by lia.
  replace (randomCalls st + 2)%nat with (S (S (randomCalls st))) by lia.
  replace (randomCalls st + 3)%nat with (S (S (S (randomCalls st)))) by lia.
  replace (randomCalls st + 4)%nat with (S (S (S (S (randomCalls st)))))
    by lia.
  replace (randomCalls st + 0)%nat with (randomCalls st) by lia.
  reflexivity.
Qed.





(** ** Allocation across a tick *)

Lemma texturesCreated_initFramebuffers (defined : bool) (st : Sim) :
  (texturesCreated st <= texturesCreated (initFramebuffers defined st)
   <= texturesCreated st + 8)%nat.
Proof.
  unfold initFramebuffers. destruct defined; cbv beta zeta iota;
    alloc_cases; alloc_cases; alloc_cases; alloc_cases; alloc_cases;
    cbn [set_pressure set_texturesCreated texturesCreated]; lia.
Qed.

Lemma sameTextures_update (f : Frame) (st : Sim) :
  sameTextures (update f st) (resized f st).
Proof.
  rewrite update_eq, beforeStep_eq. cbn [fst snd]. fold (resized f st).
  refine (sameTextures_trans _ _ _ (sameTextures_render _) _).
  assert (H1 : sameTextures
                 (applyInputs
                    (updateColors (fst (calcDeltaTime (now f) st))
                       (resized f st)))
                 (resized f st)).
  { refine (sameTextures_trans _ _ _ (sameTextures_applyInputs _) _).
    apply sameTextures_device, device_updateColors. }
  destruct (negb _); [|exact H1].
  exact (sameTextures_trans _ _ _ (sameTextures_step _ _) H1).
Qed.

Lemma texturesCreated_resized (f : Frame) (st : Sim) :
  (texturesCreated st <= texturesCreated (resized f st)
   <= texturesCreated st + 8)%nat.
Proof.
  unfold resized, resizeCanvas. cbv zeta.
  destruct (negb _ || negb _); cbn [fst snd].
  - match goal with |- context [initFramebuffers true ?s] =>
      pose proof (texturesCreated_initFramebuffers true s) as B
    end.
    exact B.
  - cbn [calcDeltaTime snd texturesCreated set_lastUpdateTime]. lia.
Qed.

Lemma resized_sameSize (f : Frame) (st : Sim) :
  sameSize f st -> resized f st = snd (calcDeltaTime (now f) st).
Proof.
  intros Hs. unfold resized. cbv zeta.
  assert (Hs' : sameSize f (snd (calcDeltaTime (now f) st))) by exact Hs.
  now rewrite (resizeCanvas_sameSize _ _ Hs').
Qed.

(** X23: a tick on a visible canvas creates at most eight textures, and
    none when the canvas keeps its size: the eight textures behind the
    five targets are then the ones the tick started with, the two
    buffers of a double target possibly exchanged. *)
Theorem tick_allocation (f : Frame) (st : Sim) :
  visibleFrame f ->
  (texturesCreated st <= texturesCreated (update f st)
   <= texturesCreated st + 8)%nat
  /\ (sameSize f st ->
      texturesCreated (update f st) = texturesCreated st
      /\ Permutation (textures (update f st)) (textures st)).
Proof.
  intros _. destruct (sameTextures_update f st) as [P E].
  split.
  - rewrite E. apply texturesCreated_resized.
  - intros Hs. rewrite (resized_sameSize f st Hs) in P, E.
    split; [exact E | exact P].
Qed.

Lemma sameSize_firstFrame : sameSize firstFrame loaded.
Proof.
  unfold sameSize, firstFrame. cbn [clientWidth clientHeight devicePixelRatio].
  rewrite !scaleByPixelRatio_one. split; reflexivity.
Qed.

Lemma tick_allocation_witness :
  texturesCreated (update firstFrame loaded) = texturesCreated loaded
  /\ Permutation (textures (update firstFrame loaded)) (textures loaded).
Proof.
  apply (tick_allocation firstFrame loaded visible_firstFrame).
  exact sameSize_firstFrame.
Defined.

(** ** The grids follow the canvas *)

Lemma getResolution_canvas (r : Z) (a b : Sim) :
  canvasWidth a = canvasWidth b -> canvasHeight a = canvasHeight b ->
  getResolution r a = getResolution r b.
Proof. intros Ew Eh. unfold getResolution. now rewrite Ew, Eh. Qed.

Lemma gridsMatch_gridSizes (a b : Sim) :
  gridSizes a = gridSizes b -> gridsMatch b -> gridsMatch a.
Proof.
  unfold gridSizes, gridsMatch. intros E H. inversion E.
  cbv zeta in *.
  rewrite (getResolution_canvas _ a b), (getResolution_canvas _ a b)
    by assumption.
  repeat match goal with E : _ = _ |- _ => rewrite E; clear E end.
  exact H.
Qed.

Lemma gridSizes_of_device (a b : Sim) :
  device a = device b -> gridSizes a = gridSizes b.
Proof. unfold device, gridSizes. intros E. inversion E. reflexivity. Qed.

Lemma gridSizes_of_outsideRender (a b : Sim) :
  outsideRender a = outsideRender b -> gridSizes a = gridSizes b.
Proof. unfold outsideRender, gridSizes. intros E. inversion E. reflexivity. Qed.

Lemma gridSizes_pressureIterations (n : nat) (st : Sim) :
  gridSizes (Nat.iter n pressureIteration st) = gridSizes st.
Proof. induction n as [|n IH]; [reflexivity|]. simpl Nat.iter. exact IH. Qed.

Lemma gridSizes_stages (dt : R) (st : Sim) :
  gridSizes (curlStage st) = gridSizes st
  /\ gridSizes (vorticityStage dt st) = gridSizes st
  /\ gridSizes (divergenceStage st) = gridSizes st
  /\ gridSizes (clearStage st) = gridSizes st
  /\ gridSizes (pressureStage st) = gridSizes st
  /\ gridSizes (gradientSubtractStage st) = gridSizes st
  /\ gridSizes (advectVelocityStage dt st) = gridSizes st
  /\ gridSizes (advectDyeStage dt st) = gridSizes st.
Proof.
  repeat split; try reflexivity. apply gridSizes_pressureIterations.
Qed.

Lemma gridSizes_step (dt : R) (st : Sim) :
  gridSizes (step dt st) = gridSizes st.
Proof.
  unfold step. destruct (negb (stepProgramsBuilt st)); [reflexivity|].
  cbv zeta.
  destruct (gridSizes_stages dt st) as (E1 & _).
  destruct (gridSizes_stages dt (curlStage st)) as (_ & E2 & _).
  set (s2 := vorticityStage dt (curlStage st)) in *.
  destruct (gridSizes_stages dt s2) as (_ & _ & E3 & _).
  set (s3 := divergenceStage s2) in *.
  destruct (gridSizes_stages dt s3) as (_ & _ & _ & E4 & _).
  set (s4 := clearStage s3) in *.
  destruct (gridSizes_stages dt s4) as (_ & _ & _ & _ & E5 & _).
  set (s5 := pressureStage s4) in *.
  destruct (gridSizes_stages dt s5) as (_ & _ & _ & _ & _ & E6 & _).
  set (s6 := gradientSubtractStage s5) in *.
  destruct (gridSizes_stages dt s6) as (_ & _ & _ & _ & _ & _ & E7 & _).
  set (s7 := advectVelocityStage dt s6) in *.
  destruct (gridSizes_stages dt s7) as (_ & _ & _ & _ & _ & _ & _ & E8).
  congruence.
Qed.

Lemma gridSizes_splat (x y dx dy : R) (c : Rgb.t) (st : Sim) :
  gridSizes (splat x y dx dy c st) = gridSizes st.
Proof. unfold splat. destruct (negb (built st splatProgram)); reflexivity. Qed.

Lemma gridSizes_randomSplat (st : Sim) :
  gridSizes (randomSplat st) = gridSizes st.
Proof. rewrite randomSplat_eq. cbv zeta. now rewrite gridSizes_splat. Qed.

Lemma gridSizes_multipleSplats (amount : Z) (st : Sim) :
  gridSizes (multipleSplats amount st) = gridSizes st.
Proof.
  unfold multipleSplats. induction (Z.to_nat amount) as [|n IH];
    [reflexivity|].
  simpl Nat.iter. now rewrite gridSizes_randomSplat.
Qed.

Lemma gridSizes_splatMoved (ps : list Pointer) :
  forall st : Sim, gridSizes (snd (splatMoved ps st)) = gridSizes st.
Proof.
  induction ps as [|p ps IH]; intros st; [reflexivity|].
  cbn [splatMoved]. destruct (moved p).
  - specialize (IH (splatPointer (setMoved false p) st)).
    destruct (splatMoved ps _) as [qs st2]. cbn [snd] in *.
    rewrite IH. unfold splatPointer. apply gridSizes_splat.
  - specialize (IH st). now destruct (splatMoved ps st).
Qed.

Lemma gridSizes_applyInputs (st : Sim) :
  gridSizes (applyInputs st) = gridSizes st.
Proof.
  unfold applyInputs.
  set (st1 := match splatStack st with
              | [] => st
              | amount :: rest => multipleSplats amount (set_splatStack rest st)
              end).
  assert (H1 : gridSizes st1 = gridSizes st).
  { unfold st1. destruct (splatStack st) as [|amount rest]; [reflexivity|].
    now rewrite gridSizes_multipleSplats. }
  pose proof (gridSizes_splatMoved (pointers st1) st1) as H2.
  destruct (splatMoved (pointers st1) st1) as [qs st2]. cbn [snd] in H2.
  change (gridSizes (set_pointers qs st2)) with (gridSizes st2).
  congruence.
Qed.

Lemma createFBO_dims (w h : Z) (fmt : InternalFormat) (filt : TexFilter)
    (ex : option FBO) (s : Sim) :
  width (fst (createFBO w h fmt filt ex s)) = w
  /\ height (fst (createFBO w h fmt filt ex s)) = h.
Proof.
  unfold createFBO. destruct ex as [e|]; [|split; reflexivity].
  destruct ((width e =? w)%Z && (height e =? h)%Z) eqn:E;
    [|split; reflexivity].
  apply andb_prop in E. destruct E as [E1 E2].
  apply Z.eqb_eq in E1, E2. now split.
Qed.

Lemma createDoubleFBO_dims (w h : Z) (fmt : InternalFormat)
    (filt : TexFilter) (ex : option DoubleFBO) (s : Sim) :
  dwidth (fst (createDoubleFBO w h fmt filt ex s)) = w
  /\ dheight (fst (createDoubleFBO w h fmt filt ex s)) = h.
Proof.
  unfold createDoubleFBO. destruct ex as [e|]; [|split; reflexivity].
  destruct ((dwidth e =? w)%Z && (dheight e =? h)%Z) eqn:E;
    [|split; reflexivity].
  apply andb_prop in E. destruct E as [E1 E2].
  apply Z.eqb_eq in E1, E2. now split.
Qed.

Ltac alloc_dims :=
  match goal with
  | |- context [createDoubleFBO ?w ?h ?f ?p ?e ?s] =>
      let Dw := fresh "Dw" in
      let Dh := fresh "Dh" in
      let n := fresh "n" in
      let Hn := fresh "Hn" in
      destruct (createDoubleFBO_dims w h f p e s) as [Dw Dh];
      destruct (createDoubleFBO_outside w h f p e s) as [n Hn];
      destruct (createDoubleFBO w h f p e s) as [? ?];
      cbn [fst snd] in Dw, Dh, Hn; subst
  | |- context [createFBO ?w ?h ?f ?p ?e ?s] =>
      let Dw := fresh "Dw" in
      let Dh := fresh "Dh" in
      let n := fresh "n" in
      let Hn := fresh "Hn" in
      destruct (createFBO_dims w h f p e s) as [Dw Dh];
      destruct (createFBO_outside w h f p e s) as [n Hn];
      destruct (createFBO w h f p e s) as [? ?];
      cbn [fst snd] in Dw, Dh, Hn; subst
  end.

Lemma gridsMatch_initFramebuffers (defined : bool) (st : Sim) :
  gridsMatch (initFramebuffers defined st).
Proof.
  unfold initFramebuffers. cbv beta zeta.
  alloc_dims. alloc_dims. alloc_dims. alloc_dims. alloc_dims.
  unfold gridsMatch. cbv zeta.
  cbn [dye velocity divergence curl pressure set_pressure set_curl
       set_divergence set_velocity set_dye set_texturesCreated CONFIG].
  match goal with |- context [getResolution ?r ?s] =>
    rewrite !(getResolution_canvas _ s st eq_refl eq_refl)
  end.
  repeat split; apply injective_projections; cbn [fst snd]; assumption.
Qed.

Lemma gridSizes_update (f : Frame) (st : Sim) :
  gridSizes (update f st) = gridSizes (resized f st).
Proof.
  rewrite update_eq, beforeStep_eq. cbn [fst snd]. fold (resized f st).
  rewrite (gridSizes_of_outsideRender _ _ (outsideRender_render _)).
  assert (H1 : gridSizes
                 (applyInputs
                    (updateColors (fst (calcDeltaTime (now f) st))
                       (resized f st)))
               = gridSizes (resized f st)).
  { rewrite gridSizes_applyInputs.
    apply gridSizes_of_device, device_updateColors. }
  destruct (negb _); [|exact H1].
  now rewrite gridSizes_step.
Qed.

Lemma gridsMatch_resized (f : Frame) (st : Sim) :
  gridsMatch st -> gridsMatch (resized f st).
Proof.
  intros H. unfold resized, resizeCanvas. cbv zeta.
  destruct (negb _ || negb _); cbn [fst snd];
    [apply gridsMatch_initFramebuffers | exact H].
Qed.

Lemma gridSizes_handle (e : Event) (st : Sim) :
  (forall f, e <> Tick f) -> gridSizes (handle e st) = gridSizes st.
Proof.
  intros Hn.
  destruct e as [f| |x y r|x y r| |ts r|ts r|ids|k|x y dx dy col|amount| | ];
    cbn [handle].
  - now elim (Hn f).
  - apply gridSizes_multipleSplats.
  - apply gridSizes_of_device, device_mousedown.
  - apply gridSizes_of_device, device_mousemove.
  - unfold mouseup. now destruct (pointers st).
  - apply gridSizes_of_device, device_touchstart.
  - apply gridSizes_of_device, device_touchmove.
  - reflexivity.
  - now destruct k.
  - unfold FluidField.splatNormalized. cbv zeta.
    destruct col as [c|]; [apply gridSizes_splat|].
    unfold generateColor, Math_random. cbv zeta.
    now rewrite gridSizes_splat.
  - apply gridSizes_multipleSplats.
  - reflexivity.
  - reflexivity.
Qed.

Lemma resolutions_of_gridSizes (a b : Sim) :
  gridSizes a = gridSizes b -> resolutions a = resolutions b.
Proof. unfold gridSizes, resolutions. intros E. inversion E. reflexivity. Qed.

Lemma grids_handle (e : Event) (st : Sim) :
  gridsMatch st ->
  gridsMatch (handle e st) /\ resolutions (handle e st) = resolutions st.
Proof.
  intros H.
  destruct e;
    try (split;
         [apply (gridsMatch_gridSizes _ st);
          [apply gridSizes_handle; discriminate | exact H]
         | apply resolutions_of_gridSizes, gridSizes_handle; discriminate]).
  cbn [handle]. split.
  - apply (gridsMatch_gridSizes _ _ (gridSizes_update f st)).
    now apply gridsMatch_resized.
  - rewrite (resolutions_of_gridSizes _ _ (gridSizes_update f st)).
    unfold resolutions.
    destruct (clocks_resize f (snd (calcDeltaTime (now f) st)))
      as (_ & _ & C).
    cbv zeta in C. unfold resized. cbv zeta. now rewrite C.
Qed.

Lemma grids_run (e : Ext) (mobile : bool) (w h : Z) (rnd : nat -> R)
    (t0 : Z) (es : list Event) :
  (0 < w)%Z -> (0 < h)%Z -> Forall visibleEvent es ->
  let st := run es (boot e mobile w h rnd t0) in
  Inv st /\ gridsMatch st
  /\ resolutions st = resolutions (boot e mobile w h rnd t0).
Proof.
  intros Hw Hh. cbv zeta.
  induction es as [|ev es IH] using rev_ind; intros Hv.
  - split; [now apply Inv_boot|].
    split; [apply gridsMatch_initFramebuffers | reflexivity].
  - apply Forall_app in Hv. destruct Hv as [Hes Hev].
    destruct (IH Hes) as (I & G & R).
    rewrite run_snoc. destruct (grids_handle ev _ G) as [G' R'].
    split; [apply Inv_handle; [now inversion Hev | exact I]|].
    split; [exact G' | congruence].
Qed.

Lemma short_side (res : Z) (st : Sim) (W H : Z) :
  (0 < canvasWidth st)%Z -> (0 < canvasHeight st)%Z -> (0 < res)%Z ->
  (W, H) = getResolution res st -> Z.min W H = res.
Proof.
  intros Hw Hh Hr E.
  destruct (Z.lt_ge_cases (canvasHeight st) (canvasWidth st)) as [C|C].
  - destruct (getResolution_wide res st Hw Hh Hr C) as (E1 & B & _).
    rewrite <- E in E1, B. cbn [fst snd] in E1, B. lia.
  - destruct (getResolution_tall res st Hw Hh Hr C) as (E1 & B & _).
    rewrite <- E in E1, B. cbn [fst snd] in E1, B. lia.
Qed.

(** X24: in every state the page can reach from a canvas that is not
    empty, the five targets have the sizes [getResolution] gives for the
    current canvas: the short side of the velocity, divergence, curl and
    pressure grids is 128 texels, that of the dye 1024 texels, or 512 on
    a mobile device or without linear filtering, whatever the size of
    the canvas. *)
Theorem grids_follow_canvas (e : Ext) (mobile : bool) (w h : Z)
    (rnd : nat -> R) (t0 : Z) (es : list Event) :
  (0 < w)%Z -> (0 < h)%Z -> Forall visibleEvent es ->
  let st := run es (boot e mobile w h rnd t0) in
  gridsMatch st
  /\ Z.min (dwidth (velocity st)) (dheight (velocity st)) = 128%Z
  /\ Z.min (dwidth (dye st)) (dheight (dye st))
     = (if mobile || negb (supportLinearFiltering e) then 512 else 1024)%Z.
Proof.
  intros Hw Hh Hv st.
  destruct (grids_run e mobile w h rnd t0 es Hw Hh Hv) as (H & G & R).
  fold st in H, G, R.
  split; [exact G|].
  assert (Rb : resolutions (boot e mobile w h rnd t0)
               = (128%Z, if mobile || negb (supportLinearFiltering e)
                         then 512%Z else 1024%Z)).
  { unfold boot. cbv zeta.
    match goal with |- context [initFramebuffers false ?s] =>
      destruct (clocks_of_outsideFields _ _
                  (outsideFields_initFramebuffers false s)) as (_ & _ & C)
    end.
    unfold resolutions. rewrite C. reflexivity. }
  rewrite Rb in R. unfold resolutions in R.
  injection R as Rs Rd.
  destruct G as (Gd & Gv & _). cbv zeta in Gd, Gv.
  rewrite Rs in Gv. rewrite Rd in Gd.
  split.
  - apply (short_side 128 st); [apply H | apply H | reflexivity | exact Gv].
  - apply (short_side _ st); [apply H | apply H | | exact Gd].
    now destruct (mobile || negb (supportLinearFiltering e)).
Qed.

Lemma grids_follow_canvas_witness :
  Z.min (dwidth (velocity (run [Tick (mkFrame 1016 640 360 2)]
                             (boot fullExt false 300 150 (fun _ => 0.5)
                                1000))))
        (dheight (velocity (run [Tick (mkFrame 1016 640 360 2)]
                              (boot fullExt false 300 150 (fun _ => 0.5)
                                 1000))))
  = 128%Z.
Proof.
  apply (grids_follow_canvas fullExt false 300 150 (fun _ => 0.5) 1000
           [Tick (mkFrame 1016 640 360 2)]);
    [reflexivity | reflexivity |].
  repeat constructor; unfold visibleFrame, scaleByPixelRatio;
    cbn [clientWidth clientHeight devicePixelRatio];
    (destruct (Req_dec_T 2 0) as [E|_]; [lra|]);
    (apply Z.lt_le_trans with 1%Z; [reflexivity|]);
    apply Zfloor_lub; simpl; lra.
Defined.

(** ** What a tick does to the pointers *)

Lemma samePointer_refl (p : Pointer) : samePointer p p.
Proof. now destruct p. Qed.

Lemma samePointer_trans (p q r : Pointer) :
  samePointer p q -> samePointer q r -> samePointer p r.
Proof.
  unfold samePointer. intros E1 E2. rewrite E2, E1 at 1.
  destruct r; reflexivity.
Qed.

Lemma Forall2_samePointer_refl (ps : list Pointer) :
  Forall2 samePointer ps ps.
Proof. induction ps; constructor; [apply samePointer_refl | assumption]. Qed.

Lemma Forall2_samePointer_trans (ps qs rs : list Pointer) :
  Forall2 samePointer ps qs -> Forall2 samePointer qs rs ->
  Forall2 samePointer ps rs.
Proof.
  intros H. revert rs. induction H as [|p q ps qs Hpq _ IH]; intros rs Hr.
  - inversion Hr. constructor.
  - inversion Hr as [|? r ? rs' Hqr Hrest]; subst. constructor.
    + exact (samePointer_trans _ _ _ Hpq Hqr).
    + now apply IH.
Qed.

Lemma samePointer_recolor (ps : list Pointer) :
  forall st : Sim, Forall2 samePointer ps (fst (recolor ps st)).
Proof.
  induction ps as [|p ps IH]; intros st; [constructor|].
  rewrite recolor_cons. cbn [fst]. constructor; [now destruct p|apply IH].
Qed.

Lemma samePointer_splatMoved (ps : list Pointer) :
  forall st : Sim, Forall2 samePointer ps (fst (splatMoved ps st)).
Proof.
  induction ps as [|p ps IH]; intros st; [constructor|].
  cbn [splatMoved]. destruct (moved p).
  - specialize (IH (splatPointer (setMoved false p) st)).
    destruct (splatMoved ps _) as [qs st2]. cbn [fst] in *.
    constructor; [now destruct p | exact IH].
  - specialize (IH st). destruct (splatMoved ps st) as [qs st2].
    cbn [fst] in *. constructor; [apply samePointer_refl | exact IH].
Qed.

Lemma pointers_multipleSplats (amount : Z) (st : Sim) :
  pointers (multipleSplats amount st) = pointers st.
Proof. exact (f_equal snd (outsideInputs_multipleSplats amount st)). Qed.

Lemma samePointer_applyInputs (st : Sim) :
  Forall2 samePointer (pointers st) (pointers (applyInputs st)).
Proof.
  unfold applyInputs.
  set (st1 := match splatStack st with
              | [] => st
              | amount :: rest => multipleSplats amount (set_splatStack rest st)
              end).
  assert (E : pointers st1 = pointers st).
  { unfold st1. destruct (splatStack st); [reflexivity|].
    now rewrite pointers_multipleSplats. }
  pose proof (samePointer_splatMoved (pointers st1) st1) as H.
  destruct (splatMoved (pointers st1) st1) as [qs st2]. cbn [fst] in H.
  cbn [pointers set_pointers]. now rewrite <- E.
Qed.

Lemma samePointer_updateColors (dt : R) (st : Sim) :
  Forall2 samePointer (pointers st) (pointers (updateColors dt st)).
Proof.
  unfold updateColors.
  destruct (negb (COLORFUL (CONFIG st))); [apply Forall2_samePointer_refl|].
  destruct (Rge_dec _ 1); [|apply Forall2_samePointer_refl].
  match goal with |- context [recolor ?ps ?s] =>
    pose proof (samePointer_recolor ps s) as H;
    destruct (recolor ps s) as [qs s2]
  end.
  exact H.
Qed.

Lemma pointers_resized (f : Frame) (st : Sim) :
  pointers (resized f st) = pointers st.
Proof.
  unfold resized, resizeCanvas. cbv zeta.
  destruct (negb _ || negb _); cbn [fst snd]; [|reflexivity].
  now rewrite (pointers_of_outsideFields _ _
                 (outsideFields_initFramebuffers _ _)).
Qed.

(** X25: a tick on a visible canvas consumes every pending move: it
    leaves no pointer flagged as moved, so that a move is splatted in
    one tick only; the tick changes nothing else of a pointer than this
    flag and its colour, and neither adds nor removes a pointer. *)
Theorem tick_consumes_moves (f : Frame) (st : Sim) :
  Inv st -> visibleFrame f ->
  countMoved (pointers (update f st)) = 0%nat
  /\ Forall2 samePointer (pointers st) (pointers (update f st)).
Proof.
  intros H Hf.
  destruct (update_cases f st H Hf) as (s & -> & Es).
  destruct (fields_of_outsideRender _ _ (outsideRender_render s))
    as (_ & _ & _ & _ & _ & -> & _).
  destruct (splatStack_of_outsideSolver _ _ Es) as (_ & -> & _).
  pose proof (Inv_beforeInputs f st Hf H) as Hb.
  destruct (applyInputs_summary _ (inv_built _ Hb splatProgram))
    as (_ & M & _).
  split; [exact M|].
  apply (Forall2_samePointer_trans _ (pointers (beforeInputs f st)));
    [|apply samePointer_applyInputs].
  change (beforeInputs f st)
    with (updateColors (fst (calcDeltaTime (now f) st)) (resized f st)).
  rewrite <- (pointers_resized f st) at 1.
  apply samePointer_updateColors.
Qed.

Lemma tick_consumes_moves_witness :
  countMoved (pointers (update firstFrame dragged)) = 0%nat.
Proof.
  apply (tick_consumes_moves firstFrame dragged Inv_dragged
           visible_firstFrame).
Defined.

(** ** A zero timestep *)

Lemma advectionShader_zero_dt (manual : bool) (u src : FBO) (ts ts0 : vec2)
    (dissipation : R) (w h i j : Z) :
  (0 < w)%Z -> (0 < h)%Z -> width src = w -> height src = h ->
  advectionShader manual u src ts (mkVec2 (1 / IZR w) (1 / IZR h)) 0
    dissipation (baseVertexShader ts0 (fragUv w h i j))
  = texel src i j.
Proof.
  intros Hw Hh Ew Eh. unfold advectionShader. cbv zeta.
  cbn [vUv baseVertexShader].
  pose proof (fragUv_x w h i j Hw) as Fx.
  pose proof (fragUv_y w h i j Hh) as Fy.
  assert (D : forall c : vec4, div4 c (1 + dissipation * 0) = c).
  { intros [x y z a]. unfold div4. cbn [v4x v4y v4z v4w]. f_equal; field. }
  rewrite D.
  destruct manual.
  - apply bilerp_center; try assumption;
      cbn [sub2 mul2 scale2 xy v2x v2y];
      [rewrite <- Fx | rewrite <- Fy]; ring.
  - apply texture2D_center; rewrite ?Ew, ?Eh;
      cbn [sub2 mul2 scale2 xy v2x v2y];
      [rewrite <- Fx | rewrite <- Fy]; ring.
Qed.

Lemma advectDyeStage_zero_dt (st : Sim) (i j : Z) :
  Inv st ->
  (0 <= i < dwidth (dye st))%Z -> (0 <= j < dheight (dye st))%Z ->
  texel (read (dye (advectDyeStage 0 st))) i j
  = storeTexel (internalFormat (write (dye st)))
      (texel (read (dye st)) i j).
Proof.
  intros H Hi Hj.
  destruct (inv_dye st H)
    as (_ & _ & Tx & Ty & (Rw & Rh & _) & (Ww & Wh & _)).
  pose proof (inv_dyeWidth st H) as Hw. pose proof (inv_dyeHeight st H) as Hh.
  change (read (dye (advectDyeStage 0 st)))
    with (renderTo (dwidth (dye st)) (dheight (dye st))
            (simTexelSize st)
            (advectionShader (negb (supportLinearFiltering (ext st)))
               (read (velocity st)) (read (dye st)) (simTexelSize st)
               (mkVec2 (dtexelSizeX (dye st)) (dtexelSizeY (dye st))) 0
               (DENSITY_DISSIPATION (CONFIG st)))
            (write (dye st))).
  rewrite texel_renderTo by (rewrite ?Ww, ?Wh; lia).
  f_equal. rewrite Tx, Ty.
  now apply advectionShader_zero_dt.
Qed.

(** X26: with a zero timestep (two frames within one millisecond of the
    clock) the solver moves no dye, whatever the velocity: after the run
    every texel of the dye is the texel it was, as its format stores it;
    the advection looks each texel up at its own centre and the decay is
    1. *)
Theorem zero_timestep_keeps_dye (st : Sim) (i j : Z) :
  Inv st ->
  (0 <= i < dwidth (dye st))%Z -> (0 <= j < dheight (dye st))%Z ->
  texel (read (dye (step 0 st))) i j
  = storeTexel (internalFormat (write (dye st)))
      (texel (read (dye st)) i j).
Proof.
  intros H Hi Hj. rewrite step_stages by exact H.
  set (s1 := curlStage st).
  set (s2 := vorticityStage 0 s1).
  set (s3 := divergenceStage s2).
  set (s4 := clearStage s3).
  set (s5 := pressureStage s4).
  set (s6 := gradientSubtractStage s5).
  set (s7 := advectVelocityStage 0 s6).
  assert (H7 : Inv s7).
  { apply Inv_advectVelocityStage, Inv_gradientSubtractStage,
      Inv_pressureStage, Inv_clearStage, Inv_divergenceStage,
      Inv_vorticityStage, Inv_curlStage, H. }
  destruct (untouched_pressureIterations
              (Z.to_nat (PRESSURE_ITERATIONS (CONFIG s4))) s4) as [_ Y5].
  fold (pressureStage s4) in Y5. fold s5 in Y5.
  assert (Y7 : dye s7 = dye st) by exact Y5.
  rewrite (advectDyeStage_zero_dt s7 i j H7) by (rewrite Y7; assumption).
  now rewrite Y7.
Qed.

Lemma zero_timestep_keeps_dye_witness :
  texel (read (dye (step 0 loaded))) 0 0
  = storeTexel (internalFormat (write (dye loaded)))
      (texel (read (dye loaded)) 0 0).
Proof.
  apply (zero_timestep_keeps_dye loaded 0 0 Inv_loaded).
  - split; [reflexivity | apply (inv_dyeWidth loaded Inv_loaded)].
  - split; [reflexivity | apply (inv_dyeHeight loaded Inv_loaded)].
Defined.

(** ** The state the page starts in *)



